(** * kolos.dom: the DOM service and the panel component

  A shallow embedding of [src/dom.service.ts] (class [DOMService]) and of
  the panel widget (class [PanelComponent]), with the properties their
  description states about them.

  Conventions.
  - A JavaScript object that several closures share ([this]) is an
      explicit record threaded through the functions.
  - What the browser supplies (metrics, layout, selection API) is an
      argument of the function that reads it.
  - A JavaScript exception is a value of [outcome]; the state reached
      before the throw is kept, as it is in JavaScript. *)

From Stdlib Require Import ZArith Floats Lia Bool Ascii String.
From stdpp Require Import base option list gmap strings pretty.

Set Warnings "-inexact-float,-register-all".
Open Scope Z_scope.

(** ** JavaScript numbers

  [DOMService] stores numbers it reads from the browser. They are IEEE
  doubles in JavaScript; the service only adds them, takes [Math.max] and
  tests them for truthiness ([a || b]). The interface below has these
  operations, with two instances: exact integers (whole CSS pixels) and
  binary64 floats. *)

Class JsNum (num : Type) := {
  num_zero : num;
  num_add : num -> num -> num;
  num_sub : num -> num -> num;
  num_max : num -> num -> num;
  num_truthy : num -> bool
}.

#[export] Instance JsNum_Z : JsNum Z := {|
  num_zero := 0;
  num_add := Z.add;
  num_sub := Z.sub;
  num_max := Z.max;
  num_truthy := fun n => negb (n =? 0)
|}.

(** [Math.max] on doubles: NaN if an argument is NaN, and +0 above -0. *)
Definition float_max (a b : float) : float :=
  if (PrimFloat.is_nan a || PrimFloat.is_nan b)%bool then PrimFloat.nan
  else if PrimFloat.ltb a b then b
  else if PrimFloat.ltb b a then a
  else if PrimFloat.is_zero a then PrimFloat.add a b
  else a.

(** [ToBoolean] on doubles: false for +0, -0 and NaN. *)
Definition float_truthy (a : float) : bool :=
  negb (PrimFloat.is_zero a || PrimFloat.is_nan a).

#[export] Instance JsNum_float : JsNum float := {|
  num_zero := PrimFloat.zero;
  num_add := PrimFloat.add;
  num_sub := PrimFloat.sub;
  num_max := float_max;
  num_truthy := float_truthy
|}.

(** [a || b] where [a] may be [undefined] (a property the browser lacks). *)
Definition js_or `{JsNum num} (a : option num) (b : num) : num :=
  match a with
  | Some v => if num_truthy v then v else b
  | None => b
  end.

(** ** DOMService: tracked browser state (dom.service.ts) *)

Module IViewport.
Record t (num : Type) := mk { w : num; h : num }.
Arguments mk {num}. Arguments w {num}. Arguments h {num}.
End IViewport.

Module IScroll.
Record t (num : Type) := mk { x : num; y : num }.
Arguments mk {num}. Arguments x {num}. Arguments y {num}.
End IScroll.

Module IVisible.
Record t (num : Type) := mk { x1 : num; x2 : num; y1 : num; y2 : num }.
Arguments mk {num}. Arguments x1 {num}. Arguments x2 {num}.
Arguments y1 {num}. Arguments y2 {num}.
End IVisible.

(** What [refreshViewport] and [refreshScroll] read from the browser.
  [None] is a property the browser does not have ([undefined]). *)
Record Metrics (num : Type) := mkMetrics {
  clientWidth : num;           (* docElement.clientWidth *)
  clientHeight : num;          (* docElement.clientHeight *)
  innerWidth : option num;     (* window.innerWidth *)
  innerHeight : option num;    (* window.innerHeight *)
  pageXOffset : option num;    (* window.pageXOffset *)
  pageYOffset : option num;    (* window.pageYOffset *)
  doc_scrollLeft : option num; (* docElement.scrollLeft *)
  doc_scrollTop : option num;  (* docElement.scrollTop *)
  body_scrollLeft : num;       (* body.scrollLeft *)
  body_scrollTop : num         (* body.scrollTop *)
}.
Arguments mkMetrics {num}.
Arguments clientWidth {num}. Arguments clientHeight {num}.
Arguments innerWidth {num}. Arguments innerHeight {num}.
Arguments pageXOffset {num}. Arguments pageYOffset {num}.
Arguments doc_scrollLeft {num}. Arguments doc_scrollTop {num}.
Arguments body_scrollLeft {num}. Arguments body_scrollTop {num}.

(** The mutable fields of a [DOMService] object. The browser-sniffing
  constants and [KEYCODES] are written once in the constructor and read
  by no method below; they are left out. *)
Record DOMService (num : Type) := mkDOMService {
  idleTime : Z;
  viewport : IViewport.t num;
  scroll : IScroll.t num;
  visible : IVisible.t num;
  pressedKeys : gset Z;
  pointerCoords : num * num;
  isPointerPressed : Z
}.
Arguments mkDOMService {num}.
Arguments idleTime {num}. Arguments viewport {num}. Arguments scroll {num}.
Arguments visible {num}. Arguments pressedKeys {num}.
Arguments pointerCoords {num}. Arguments isPointerPressed {num}.

Definition IDLE_INTERVAL : Z := 10000.

Section Service.
Context {num : Type} `{JsNum num}.

Definition set_idleTime (v : Z) (s : DOMService num) : DOMService num :=
  mkDOMService v (viewport s) (scroll s) (visible s) (pressedKeys s)
  (pointerCoords s) (isPointerPressed s).
Definition set_viewport (v : IViewport.t num) (s : DOMService num) :=
  mkDOMService (idleTime s) v (scroll s) (visible s) (pressedKeys s)
  (pointerCoords s) (isPointerPressed s).
Definition set_scroll (v : IScroll.t num) (s : DOMService num) :=
  mkDOMService (idleTime s) (viewport s) v (visible s) (pressedKeys s)
  (pointerCoords s) (isPointerPressed s).
Definition set_visible (v : IVisible.t num) (s : DOMService num) :=
  mkDOMService (idleTime s) (viewport s) (scroll s) v (pressedKeys s)
  (pointerCoords s) (isPointerPressed s).
Definition set_pressedKeys (v : gset Z) (s : DOMService num) :=
  mkDOMService (idleTime s) (viewport s) (scroll s) (visible s) v
  (pointerCoords s) (isPointerPressed s).
Definition set_pointerCoords (v : num * num) (s : DOMService num) :=
  mkDOMService (idleTime s) (viewport s) (scroll s) (visible s)
  (pressedKeys s) v (isPointerPressed s).
Definition set_isPointerPressed (v : Z) (s : DOMService num) :=
  mkDOMService (idleTime s) (viewport s) (scroll s) (visible s)
  (pressedKeys s) (pointerCoords s) v.

(** Field initialisers of the class. *)
Definition fields_init : DOMService num :=
  mkDOMService 0
      (IViewport.mk num_zero num_zero)
      (IScroll.mk num_zero num_zero)
      (IVisible.mk num_zero num_zero num_zero num_zero)
      ∅ (num_zero, num_zero) 0.

Definition refreshVisible (s : DOMService num) : DOMService num :=
  let sc := scroll s in
  let vp := viewport s in
  set_visible
      (IVisible.mk (IScroll.x sc) (num_add (IScroll.x sc) (IViewport.w vp))
                   (IScroll.y sc) (num_add (IScroll.y sc) (IViewport.h vp)))
      s.

Definition refreshViewport (m : Metrics num) (s : DOMService num) :=
  refreshVisible
      (set_viewport
         (IViewport.mk
            (num_max (clientWidth m) (js_or (innerWidth m) num_zero))
            (num_max (clientHeight m) (js_or (innerHeight m) num_zero)))
         s).

Definition refreshScroll (m : Metrics num) (s : DOMService num) :=
  refreshVisible
      (set_scroll
         (IScroll.mk
            (js_or (pageXOffset m) (js_or (doc_scrollLeft m) (body_scrollLeft m)))
            (js_or (pageYOffset m) (js_or (doc_scrollTop m) (body_scrollTop m))))
         s).

Definition onWindowBlur (s : DOMService num) :=
  set_pressedKeys ∅ s.

Definition onDocumentKeyDown (keyCode : Z) (s : DOMService num) :=
  set_idleTime 0 (set_pressedKeys ({[keyCode]} ∪ pressedKeys s) s).

Definition onDocumentKeyUp (keyCode : Z) (s : DOMService num) :=
  set_pressedKeys (pressedKeys s ∖ {[keyCode]}) s.

Definition isKeyPressed (keyCode : Z) (s : DOMService num) : bool :=
  bool_decide (keyCode ∈ pressedKeys s).

Definition onWindowResize (m : Metrics num) (s : DOMService num) :=
  set_idleTime 0 (refreshViewport m s).

Definition onDocumentScroll (m : Metrics num) (s : DOMService num) :=
  set_idleTime 0 (refreshScroll m s).

Definition onDocumentPointerMove (clientX clientY : num) (s : DOMService num) :=
  set_idleTime 0 (set_pointerCoords (clientX, clientY) s).

Definition onDocumentPointerDown (s : DOMService num) :=
  set_idleTime 0 (set_isPointerPressed (isPointerPressed s + 1) s).

Definition onDocumentPointerUp (s : DOMService num) :=
  set_isPointerPressed (Z.min 0 (isPointerPressed s)) s.

(** The [setInterval] callback of the constructor. *)
Definition onIdleTick (s : DOMService num) :=
  set_idleTime (idleTime s + IDLE_INTERVAL) s.

(** The constructor: the listeners it registers are the cases of
    [handle] below; then the two refreshes. *)
Definition constructor (m : Metrics num) : DOMService num :=
  refreshScroll m (refreshViewport m fields_init).

(** The browser events the constructor subscribes to. Each carries what
    its handler reads: the key code, the pointer position, or the
    metrics of the browser at that moment. *)
Inductive event :=
  | KeyDown (keyCode : Z)
  | KeyUp (keyCode : Z)
  | PointerMove (clientX clientY : num)
  | PointerDown
  | PointerUp
  | Scroll (m : Metrics num)
  | Resize (m : Metrics num)
  | Blur
  | IdleTick.

Definition handle (s : DOMService num) (e : event) : DOMService num :=
  match e with
  | KeyDown k => onDocumentKeyDown k s
  | KeyUp k => onDocumentKeyUp k s
  | PointerMove cx cy => onDocumentPointerMove cx cy s
  | PointerDown => onDocumentPointerDown s
  | PointerUp => onDocumentPointerUp s
  | Scroll m => onDocumentScroll m s
  | Resize m => onWindowResize m s
  | Blur => onWindowBlur s
  | IdleTick => onIdleTick s
  end.

Definition run (s : DOMService num) (evs : list event) : DOMService num :=
  foldl handle s evs.

(** The visible rectangle is the scroll offset and the scroll offset
  plus the viewport size. *)
Definition visible_derived (s : DOMService num) : Prop :=
  IVisible.x1 (visible s) = IScroll.x (scroll s) ∧
  IVisible.y1 (visible s) = IScroll.y (scroll s) ∧
  IVisible.x2 (visible s) = num_add (IScroll.x (scroll s)) (IViewport.w (viewport s)) ∧
  IVisible.y2 (visible s) = num_add (IScroll.y (scroll s)) (IViewport.h (viewport s)).

End Service.

(** ** Exceptions

    A JavaScript call either returns or throws. *)

Inductive exn :=
| TypeError
| URIError
| HierarchyRequestError
| NotFoundError
| HostError (name : string).

Inductive outcome (A : Type) :=
| Ret (a : A)
| Throw (e : exn).
Arguments Ret {A}. Arguments Throw {A}.

(** [try { body } catch (e) { handler }] *)
Definition try_catch {A} (body : outcome A) (handler : exn -> outcome A) : outcome A :=
  match body with
  | Ret a => Ret a
  | Throw e => handler e
  end.

(** ** getSelectedTextElement *)

(** A reference the function can return: [undefined], [null] or a node. *)
Inductive js_ref :=
| RefUndefined
| RefNull
| RefNode (n : nat).

Definition ref_of_nullable (o : option nat) : js_ref :=
  match o with
  | Some n => RefNode n
  | None => RefNull
  end.

(** What [window.getSelection] is in the browser at hand: absent (calling
    [undefined] throws), a function that throws, one that returns [null],
    or one that returns a selection. A selection has an [anchorNode]
    ([None] is [null]), and an anchor node has a [parentNode]. *)
Inductive getSelection_api :=
| GetSelectionMissing
| GetSelectionThrows (e : exn)
| GetSelectionNull
| GetSelectionReturns (anchorNode : option (option nat)).

(** What [document.selection] is: absent, or an object whose
    [createRange().parentElement()] throws or returns an element or
    [null]. *)
Inductive legacy_selection_api :=
| LegacyMissing
| LegacyThrows (e : exn)
| LegacyParentElement (el : option nat).

(** The [try] block; its value is the local [node]. *)
Definition selection_try (gs : getSelection_api) : outcome js_ref :=
  match gs with
  | GetSelectionMissing => Throw TypeError
  | GetSelectionThrows e => Throw e
  | GetSelectionNull => Throw TypeError
  | GetSelectionReturns None => Ret RefUndefined
  | GetSelectionReturns (Some parentNode) => Ret (ref_of_nullable parentNode)
  end.

(** The [catch] block. *)
Definition selection_legacy (ds : legacy_selection_api) : outcome js_ref :=
  match ds with
  | LegacyMissing => Throw TypeError
  | LegacyThrows e => Throw e
  | LegacyParentElement el => Ret (ref_of_nullable el)
  end.

Definition getSelectedTextElement (gs : getSelection_api)
    (ds : legacy_selection_api) : outcome js_ref :=
  try_catch (selection_try gs) (fun _ => selection_legacy ds).

(** The [try] block throws when [window.getSelection] is missing or
    throws, and when it returns [null]. *)
Definition selection_try_throws (gs : getSelection_api) : Prop :=
  match gs with
  | GetSelectionMissing | GetSelectionThrows _ | GetSelectionNull => True
  | GetSelectionReturns _ => False
  end.

(** ** convertToFormData *)

Inductive JsValue :=
| VUndefined
| VNull
| VBoolean (b : bool)
| VNumber (n : Z)
| VString (s : string)
| VFile (name : string)
| VArray (items : list JsValue)
| VObject (props : list (string * JsValue))
| VFunction (props : list (string * JsValue)).

Definition typeof (v : JsValue) : string :=
  match v with
  | VUndefined => "undefined"
  | VNull => "object"
  | VBoolean _ => "boolean"
  | VNumber _ => "number"
  | VString _ => "string"
  | VFile _ => "object"
  | VArray _ => "object"
  | VObject _ => "object"
  | VFunction _ => "function"
  end.

(** [(type === 'boolean' && val)]: the value itself, for a boolean. *)
Definition boolean_true (v : JsValue) : bool :=
  match v with
  | VBoolean b => b
  | _ => false
  end.

(** [toString.call(obj) === '[object File]'] *)
Definition isFile (obj : JsValue) : bool :=
  match obj with
  | VFile _ => true
  | _ => false
  end.

Definition not_nullish (v : JsValue) : bool :=
  match v with
  | VUndefined | VNull => false
  | _ => true
  end.

Definition isObject (value : JsValue) : bool :=
  let type := typeof value in
  not_nullish value && (String.eqb type "object" || String.eqb type "function").

Definition isArray (v : JsValue) : bool :=
  match v with
  | VArray _ => true
  | _ => false
  end.

Definition array_items (v : JsValue) : list JsValue :=
  match v with
  | VArray items => items
  | _ => []
  end.

(** The properties [for (innerKey in val)] visits, in its order. *)
Definition enumerable_props (v : JsValue) : list (string * JsValue) :=
  match v with
  | VObject props | VFunction props => props
  | _ => []
  end.

(** A [FormData] object: its entries, in the order of the [append] calls. *)
Definition FormData : Type := list (string * JsValue).

Definition fd_append (key : string) (val : JsValue) (fd : FormData) : FormData :=
  fd ++ [(key, val)].

(** The body of the outer [for (let key in data)] loop. *)
Definition convert_property (fd : FormData) (kv : string * JsValue) : FormData :=
  let '(key, val) := kv in
  let type := typeof val in
  if String.eqb type "string" || String.eqb type "number"
     || (String.eqb type "boolean" && boolean_true val) || isFile val
  then fd_append key val fd
  else if isArray val
  then foldl (fun fd innerVal => fd_append (key +:+ "[]") innerVal fd)
         fd (array_items val)
  else if isObject val
  then foldl (fun fd '(innerKey, innerVal) =>
                fd_append (key +:+ "[" +:+ innerKey +:+ "]") innerVal fd)
         fd (enumerable_props val)
  else fd.

(** [data] is the object's enumerable properties in [for-in] order. *)
Definition convertToFormData (data : list (string * JsValue)) : FormData :=
  foldl convert_property [] data.

(** ** parseQueryString *)

#[export] Instance outcome_ret : MRet outcome := @Ret.
#[export] Instance outcome_bind : MBind outcome := fun A B f m =>
  match m with
  | Ret a => f a
  | Throw e => Throw e
  end.

(** [s.split(sep)] for a one-character separator: the pieces between the
    separators, so a string without separator is one piece. *)
Fixpoint split_go (sep : ascii) (piece : string) (s : string) : list string :=
  match s with
  | EmptyString => [piece]
  | String c rest =>
      if Ascii.eqb c sep then piece :: split_go sep EmptyString rest
      else split_go sep (piece +:+ String c EmptyString) rest
  end.

Definition split (sep : ascii) (s : string) : list string :=
  split_go sep EmptyString s.

Definition hex_digit (c : ascii) : option N :=
  let n := N_of_ascii c in
  if ((48 <=? n) && (n <=? 57))%N then Some (n - 48)%N
  else if ((65 <=? n) && (n <=? 70))%N then Some (n - 55)%N
  else if ((97 <=? n) && (n <=? 102))%N then Some (n - 87)%N
  else None.

Definition hex_byte (c1 c2 : ascii) : option N :=
  match hex_digit c1, hex_digit c2 with
  | Some h1, Some h2 => Some (16 * h1 + h2)%N
  | _, _ => None
  end.

Definition in_range (lo hi b : N) : bool := ((lo <=? b) && (b <=? hi))%N.

Definition push_byte (b : N) (r : outcome string) : outcome string :=
  s ← r; Ret (String (ascii_of_N b) s).

(** The host function [decodeURIComponent] (ECMAScript Decode with an empty
    reserved set). Strings are held as their UTF-8 bytes: [%XX] becomes
    the byte XX; [%] without two hexadecimal digits, or escaped bytes that
    are not well-formed UTF-8, throw [URIError]. [pending] counts the
    continuation bytes still due, [lo] and [hi] bound the next one. *)
Fixpoint decode_go (pending : nat) (lo hi : N) (s : string) : outcome string :=
  match s with
  | EmptyString =>
      match pending with O => Ret EmptyString | S _ => Throw URIError end
  | String "%" (String c1 (String c2 rest)) =>
      match hex_byte c1 c2 with
      | None => Throw URIError
      | Some b =>
          match pending with
          | O =>
              if (b <? 128)%N then push_byte b (decode_go 0 128 191 rest)
              else if in_range 194 223 b then push_byte b (decode_go 1 128 191 rest)
              else if (b =? 224)%N then push_byte b (decode_go 2 160 191 rest)
              else if in_range 225 236 b || in_range 238 239 b
              then push_byte b (decode_go 2 128 191 rest)
              else if (b =? 237)%N then push_byte b (decode_go 2 128 159 rest)
              else if (b =? 240)%N then push_byte b (decode_go 3 144 191 rest)
              else if in_range 241 243 b then push_byte b (decode_go 3 128 191 rest)
              else if (b =? 244)%N then push_byte b (decode_go 3 128 143 rest)
              else Throw URIError
          | S p =>
              if in_range lo hi b then push_byte b (decode_go p 128 191 rest)
              else Throw URIError
          end
      end
  | String "%" _ => Throw URIError
  | String c rest =>
      match pending with
      | O => push_byte (N_of_ascii c) (decode_go 0 128 191 rest)
      | S _ => Throw URIError
      end
  end.

Definition decodeURIComponent (s : string) : outcome string :=
  decode_go 0 128 191 s.

(** What a key of [query_string] holds: a string or an array of strings. *)
Inductive QueryValue :=
| QString (s : string)
| QArray (items : list string).

(** [query_string] starts as [{}], which inherits from [Object.prototype]:
    [typeof query_string[key]] for a key that is not an own property. *)
Definition Object_prototype_typeof (key : string) : string :=
  if bool_decide (key ∈ ["constructor"; "hasOwnProperty"; "isPrototypeOf";
                         "propertyIsEnumerable"; "toLocaleString"; "toString";
                         "valueOf"; "__defineGetter__"; "__defineSetter__";
                         "__lookupGetter__"; "__lookupSetter__"])
  then "function"
  else if bool_decide (key = "__proto__") then "object"
  else "undefined".

Definition typeof_member (query_string : gmap string QueryValue) (key : string) : string :=
  match query_string !! key with
  | Some (QString _) => "string"
  | Some (QArray _) => "object"
  | None => Object_prototype_typeof key
  end.

(** The body of the [for] loop, for [vars[i]]. [pair[1]] is [undefined]
    when the piece has no [=], and [decodeURIComponent(undefined)] decodes
    the string "undefined". *)
Definition parse_var (query_string : gmap string QueryValue) (var : string)
    : outcome (gmap string QueryValue) :=
  let pair := split "=" var in
  key ← decodeURIComponent (default EmptyString (pair !! 0%nat));
  value ← decodeURIComponent (default "undefined" (pair !! 1%nat));
  let type := typeof_member query_string key in
  if String.eqb type "undefined" then
    v ← decodeURIComponent value;
    Ret (<[key := QString v]> query_string)
  else if String.eqb type "string" then
    v ← decodeURIComponent value;
    match query_string !! key with
    | Some (QString old) => Ret (<[key := QArray [old; v]]> query_string)
    | _ => Throw TypeError
    end
  else
    v ← decodeURIComponent value;
    match query_string !! key with
    | Some (QArray items) => Ret (<[key := QArray (items ++ [v])]> query_string)
    | _ => Throw TypeError
    end.

Fixpoint parse_vars (query_string : gmap string QueryValue) (vars : list string)
    : outcome (gmap string QueryValue) :=
  match vars with
  | [] => Ret query_string
  | var :: rest => q ← parse_var query_string var; parse_vars q rest
  end.

Definition parseQueryString (query : string) : outcome (gmap string QueryValue) :=
  parse_vars ∅ (split "&" query).

(** ** The DOM

    Nodes are numbered objects in a store. As in a browser, a node has a
    parent pointer and an ordered list of children, and the two are kept
    in step by the operations. Every node is an element: the [Document]
    above [documentElement] is not a node of the store, so
    [documentElement] has no parent. *)

Record Dom := mkDom {
  parentNode : gmap nat nat;
  childNodes : gmap nat (list nat);
  attributes : gmap nat (gmap string string);
  next_node : nat;          (* the next unused node number *)
  documentElement : nat;    (* document.documentElement *)
  body : nat                (* document.body *)
}.

Definition set_parentNode (f : gmap nat nat -> gmap nat nat) (d : Dom) : Dom :=
  mkDom (f (parentNode d)) (childNodes d) (attributes d) (next_node d)
    (documentElement d) (body d).
Definition set_childNodes (f : gmap nat (list nat) -> gmap nat (list nat)) (d : Dom) : Dom :=
  mkDom (parentNode d) (f (childNodes d)) (attributes d) (next_node d)
    (documentElement d) (body d).
Definition set_attributes
    (f : gmap nat (gmap string string) -> gmap nat (gmap string string)) (d : Dom) : Dom :=
  mkDom (parentNode d) (childNodes d) (f (attributes d)) (next_node d)
    (documentElement d) (body d).

Definition children_of (d : Dom) (n : nat) : list nat :=
  default [] (childNodes d !! n).

Definition attrs_of (d : Dom) (n : nat) : gmap string string :=
  default ∅ (attributes d !! n).

(** [n.getAttribute(name)]: [None] is [null]. *)
Definition getAttribute (d : Dom) (n : nat) (name : string) : option string :=
  attrs_of d n !! name.

Definition setAttribute (n : nat) (name value : string) (d : Dom) : Dom :=
  set_attributes (<[n := <[name := value]> (attrs_of d n)]>) d.

Definition removeAttribute (n : nat) (name : string) (d : Dom) : Dom :=
  set_attributes (<[n := delete name (attrs_of d n)]>) d.

(** The element after [n] in a list of children. *)
Fixpoint after (n : nat) (l : list nat) : option nat :=
  match l with
  | [] => None
  | x :: rest => if decide (x = n) then head rest else after n rest
  end.

Definition nextSibling (d : Dom) (n : nat) : option nat :=
  match parentNode d !! n with
  | Some p => after n (children_of d p)
  | None => None
  end.

(** [n] and its ancestors, from [n] upwards. A chain is never longer than
    the number of nodes, which bounds the walk. *)
Fixpoint inclusive_ancestors (fuel : nat) (d : Dom) (n : nat) : list nat :=
  n :: match fuel with
       | O => []
       | S f =>
           match parentNode d !! n with
           | Some p => inclusive_ancestors f d p
           | None => []
           end
       end.

(** [a.contains(b)]: [a] is [b] or an ancestor of [b]. *)
Definition contains (d : Dom) (a b : nat) : bool :=
  bool_decide (a ∈ inclusive_ancestors (next_node d) d b).

(** Take [n] out of its parent, if it has one. *)
Definition detach (n : nat) (d : Dom) : Dom :=
  match parentNode d !! n with
  | Some p =>
      set_parentNode (delete n)
        (set_childNodes (<[p := filter (λ x, x ≠ n) (children_of d p)]>) d)
  | None => d
  end.

(** [l] with [n] put before [ref], or at the end without [ref]. *)
Fixpoint insert_before (n : nat) (ref : option nat) (l : list nat) : list nat :=
  match l with
  | [] => [n]
  | x :: rest =>
      if decide (ref = Some x) then n :: x :: rest
      else x :: insert_before n ref rest
  end.

(** [parent.insertBefore(node, child)]: [HierarchyRequestError] when [node]
    is [parent] or above it, [NotFoundError] when [child] is not a child of
    [parent]; a [child] that is [node] itself stands for its next sibling;
    [node] leaves its old parent first. *)
Definition insertBefore (parent node : nat) (child : option nat) (d : Dom) : outcome Dom :=
  if contains d node parent then Throw HierarchyRequestError
  else if match child with
          | Some c => bool_decide (c ∉ children_of d parent)
          | None => false
          end
  then Throw NotFoundError
  else
    let ref := if decide (child = Some node) then nextSibling d node else child in
    let d1 := detach node d in
    Ret (set_parentNode (<[node := parent]>)
           (set_childNodes (<[parent := insert_before node ref (children_of d1 parent)]>) d1)).

Definition appendChild (parent node : nat) (d : Dom) : outcome Dom :=
  insertBefore parent node None d.

(** [parent.removeChild(child)] *)
Definition removeChild (parent child : nat) (d : Dom) : outcome Dom :=
  if bool_decide (parentNode d !! child = Some parent) then Ret (detach child d)
  else Throw NotFoundError.

(** A new node without parent or children. *)
Definition createElement (attrs : gmap string string) (d : Dom) : Dom * nat :=
  let c := next_node d in
  (mkDom (parentNode d) (childNodes d) (<[c := attrs]> (attributes d)) (S c)
     (documentElement d) (body d), c).

(** [n.cloneNode(true)]: a copy of [n] with its attributes and copies of
    its descendants; the copy has no parent. *)
Fixpoint cloneNode_deep (fuel : nat) (d : Dom) (n : nat) : Dom * nat :=
  let '(d1, c) := createElement (attrs_of d n) d in
  match fuel with
  | O => (d1, c)
  | S f =>
      let '(d2, kids) :=
        foldl (fun '(d', acc) k =>
                 let '(d'', k') := cloneNode_deep f d' k in
                 (set_parentNode (<[k' := c]>) d'', acc ++ [k']))
              (d1, []) (children_of d n) in
      (set_childNodes (<[c := kids]>) d2, c)
  end.

Definition cloneNode (d : Dom) (n : nat) : Dom * nat :=
  cloneNode_deep (next_node d) d n.

(** Well-formed stores: node numbers below [next_node]; parent pointers
    and child lists agree; no child twice; no node above its own parent;
    the root element has no parent and [body] is in the document. *)
Definition dom_bounded (d : Dom) : Prop :=
  map_Forall (λ n p, (n < next_node d)%nat ∧ (p < next_node d)%nat) (parentNode d) ∧
  map_Forall (λ n l, (n < next_node d)%nat ∧ Forall (λ c, (c < next_node d)%nat) l) (childNodes d) ∧
  map_Forall (λ n _, (n < next_node d)%nat) (attributes d) ∧
  (documentElement d < next_node d)%nat ∧ (body d < next_node d)%nat.

Definition dom_linked (d : Dom) : Prop :=
  map_Forall (λ n p, n ∈ children_of d p) (parentNode d) ∧
  map_Forall (λ p l, NoDup l ∧ Forall (λ c, parentNode d !! c = Some p) l) (childNodes d).

Definition dom_acyclic (d : Dom) : Prop :=
  map_Forall (λ n p, contains d n p = false) (parentNode d).

Definition dom_wf (d : Dom) : Prop :=
  dom_bounded d ∧ dom_linked d ∧ dom_acyclic d ∧
  parentNode d !! documentElement d = None ∧
  contains d (documentElement d) (body d) = true.

#[export] Instance dom_wf_dec d : Decision (dom_wf d).
Proof. unfold dom_wf, dom_bounded, dom_linked, dom_acyclic. apply _. Defined.

(** ** Layout and offsets *)

(** What the browser computes for an element: its bounding client
    rectangle, its offset size and its computed margins. *)
Record Layout (num : Type) := mkLayout {
  rect_left : num;
  rect_top : num;
  offsetWidth : num;
  offsetHeight : num;
  marginLeft : num;
  marginTop : num
}.
Arguments mkLayout {num}.
Arguments rect_left {num}. Arguments rect_top {num}.
Arguments offsetWidth {num}. Arguments offsetHeight {num}.
Arguments marginLeft {num}. Arguments marginTop {num}.

Module Offset.
Record t (num : Type) := mk { left : num; top : num; right : num; bottom : num }.
Arguments mk {num}. Arguments left {num}. Arguments top {num}.
Arguments right {num}. Arguments bottom {num}.
End Offset.

(** [getOffsetFromVisible(elem, params)]; [elem] is given by its layout. *)
Definition getOffsetFromVisible `{JsNum num} (elem : Layout num)
    (params_width params_height : option num) (s : DOMService num) : Offset.t num :=
  let width := default (offsetWidth elem) params_width in
  let height := default (offsetHeight elem) params_height in
  Offset.mk (rect_left elem) (rect_top elem)
    (num_sub (num_sub (IViewport.w (viewport s)) (rect_left elem)) width)
    (num_sub (num_sub (IViewport.h (viewport s)) (rect_top elem)) height).

(** ** The panel component and its world *)

Inductive PanelComponentStates := Open | Closed.

#[export] Instance PanelComponentStates_eq_dec : EqDecision PanelComponentStates.
Proof. solve_decision. Defined.

Module LISTENER_NAMESPACES.
Definition OPENING : string := "opening".
Definition DISMOUNTING : string := "dismounting".
End LISTENER_NAMESPACES.

Record IDismountingParams := mkParams {
  param_left : option Z;
  param_top : option Z;
  param_avatar : option nat
}.

(** The fields of a [PanelComponent]. [None] is [undefined]. Listener
    objects are named by number. *)
Record PanelComponent := mkPanel {
  state : PanelComponentStates;
  node : nat;
  overflowing : option (gmap string Z);
  _avatar : option nat;
  _originalParent : option (option nat);
  _originalAttributes : option (list (string * option string));
  _isDismounted : option bool;
  _listeners : option (gmap string (list nat))
}.

Definition new_PanelComponent (node : nat) : PanelComponent :=
  mkPanel Closed node None None None None None None.

(** What an [addEventListener] call names. *)
Inductive EventTarget :=
| TargetWindow
| TargetDocument
| TargetElement (n : nat).

#[export] Instance EventTarget_eq_dec : EqDecision EventTarget.
Proof. solve_decision. Defined.

(** The three closures the panel registers as event handlers. *)
Inductive Handler :=
| OpeningPointerUp     (* the arrow function of [open] *)
| DismountingResize    (* this.close.bind(this) *)
| DismountingScroll.   (* this.onDocumentScroll.bind(this) *)

(** Modelled from the spec: the class [Listener] of [./listener], which
    [DOMService.listen] constructs, is not among the sources. As the panel
    uses it, constructing a listener binds the handler to the element for
    the event type, and [unbind] removes that binding; unbinding twice is
    harmless. *)
Record Listener := mkListener {
  listener_elem : EventTarget;
  listener_type : string;
  listener_handler : Handler;
  listener_useCapture : bool
}.

(** The two callbacks [open] hands to [setTimeout]. *)
Inductive Task :=
| TaskResumeOpen     (* the rest of [open] after its [await] *)
| TaskListenOpening. (* the callback that adds the pointerup listener *)

Record DomEvent := mkEvent {
  event_type : string;
  event_target : EventTarget;
  event_bubbles : bool
}.


(** Everything the panel's code reads or writes. *)
Record World := mkWorld {
  dom : Dom;
  DOMService_ : DOMService Z;          (* the panel's [DOMService] *)
  this : PanelComponent;
  bound : list (nat * Listener);       (* bindings in force, oldest first *)
  next_listener : nat;
  timers : list Task;                  (* pending [setTimeout] callbacks *)
  hook_calls : list string             (* [onOpen] / [onClose] calls made *)
}.

Definition set_dom (v : Dom) (w : World) : World :=
  mkWorld v (DOMService_ w) (this w) (bound w) (next_listener w) (timers w) (hook_calls w).
Definition set_this (v : PanelComponent) (w : World) : World :=
  mkWorld (dom w) (DOMService_ w) v (bound w) (next_listener w) (timers w) (hook_calls w).
Definition set_bound (v : list (nat * Listener)) (w : World) : World :=
  mkWorld (dom w) (DOMService_ w) (this w) v (next_listener w) (timers w) (hook_calls w).
Definition set_next_listener (v : nat) (w : World) : World :=
  mkWorld (dom w) (DOMService_ w) (this w) (bound w) v (timers w) (hook_calls w).
Definition set_timers (v : list Task) (w : World) : World :=
  mkWorld (dom w) (DOMService_ w) (this w) (bound w) (next_listener w) v (hook_calls w).
Definition set_hook_calls (v : list string) (w : World) : World :=
  mkWorld (dom w) (DOMService_ w) (this w) (bound w) (next_listener w) (timers w) v.

Definition set_state (v : PanelComponentStates) (p : PanelComponent) : PanelComponent :=
  mkPanel v (node p) (overflowing p) (_avatar p) (_originalParent p)
    (_originalAttributes p) (_isDismounted p) (_listeners p).
Definition set_overflowing (v : option (gmap string Z)) (p : PanelComponent) :=
  mkPanel (state p) (node p) v (_avatar p) (_originalParent p)
    (_originalAttributes p) (_isDismounted p) (_listeners p).
Definition set_avatar (v : option nat) (p : PanelComponent) :=
  mkPanel (state p) (node p) (overflowing p) v (_originalParent p)
    (_originalAttributes p) (_isDismounted p) (_listeners p).
Definition set_originalParent (v : option (option nat)) (p : PanelComponent) :=
  mkPanel (state p) (node p) (overflowing p) (_avatar p) v
    (_originalAttributes p) (_isDismounted p) (_listeners p).
Definition set_originalAttributes (v : option (list (string * option string)))
    (p : PanelComponent) :=
  mkPanel (state p) (node p) (overflowing p) (_avatar p) (_originalParent p)
    v (_isDismounted p) (_listeners p).
Definition set_isDismounted (v : option bool) (p : PanelComponent) :=
  mkPanel (state p) (node p) (overflowing p) (_avatar p) (_originalParent p)
    (_originalAttributes p) v (_listeners p).
Definition set_listeners (v : option (gmap string (list nat))) (p : PanelComponent) :=
  mkPanel (state p) (node p) (overflowing p) (_avatar p) (_originalParent p)
    (_originalAttributes p) (_isDismounted p) v.

(** A method: it changes the world and returns or throws. What it did
    before throwing stays done. *)
Definition M (A : Type) : Type := World -> World * outcome A.

#[export] Instance M_ret : MRet M := fun A a w => (w, Ret a).
#[export] Instance M_bind : MBind M := fun A B f m w =>
  match m w with
  | (w', Ret a) => f a w'
  | (w', Throw e) => (w', Throw e)
  end.

Definition throw {A} (e : exn) : M A := fun w => (w, Throw e).
Definition get : M World := fun w => (w, Ret w).
Definition modify (f : World -> World) : M unit := fun w => (f w, Ret tt).
Definition modify_this (f : PanelComponent -> PanelComponent) : M unit :=
  modify (fun w => set_this (f (this w)) w).
Definition modify_dom (f : Dom -> Dom) : M unit :=
  modify (fun w => set_dom (f (dom w)) w).

(** A DOM call that may throw. *)
Definition dom_call (f : Dom -> outcome Dom) : M unit := fun w =>
  match f (dom w) with
  | Ret d => (set_dom d w, Ret tt)
  | Throw e => (w, Throw e)
  end.

(** [x.member] where [x] may be [null] or [undefined]. *)
Definition deref {A} (x : option A) : M A :=
  match x with
  | Some a => mret a
  | None => throw TypeError
  end.

Definition when (b : bool) (m : M unit) : M unit :=
  if b then m else mret tt.

Fixpoint forEach {A} (f : A -> M unit) (l : list A) : M unit :=
  match l with
  | [] => mret tt
  | a :: rest => f a ;; forEach f rest
  end.

(** What a subclass can override: the two configuration getters (both
    [false] in [PanelComponent] itself) and whether the optional hooks
    [onOpen] and [onClose] are defined. A hook is user code; here it only
    leaves a mark in [hook_calls]. *)
Record PanelClass := mkClass {
  isDismountingNeeded : bool;
  postponeOverflowCalculating : bool;
  onOpen : bool;
  onClose : bool
}.

(** What the browser computes for the panel: layout, the scroll offset of
    the root element, and the [style] attribute that results from setting
    one property of an element's inline style. *)
Record Browser := mkBrowser {
  layoutOf : Dom -> nat -> Layout Z;
  scrollOf : Dom -> Z * Z;
  css_set : string -> string -> option string -> option string
}.

Module Panel.
Section Methods.
Variable cls : PanelClass.
Variable browser : Browser.

Definition isOpen : M bool :=
  w ← get; mret (bool_decide (state (this w) = Open)).

Definition isClosed : M bool :=
  w ← get; mret (bool_decide (state (this w) = Closed)).

Definition getWidth : M Z :=
  w ← get; mret (offsetWidth (layoutOf browser (dom w) (node (this w)))).

Definition getHeight : M Z :=
  w ← get; mret (offsetHeight (layoutOf browser (dom w) (node (this w)))).

(** [n.style.prop = value] *)
Definition style_set (n : nat) (prop value : string) : M unit :=
  modify_dom (fun d =>
    match css_set browser prop value (getAttribute d n "style") with
    | Some v => setAttribute n "style" v d
    | None => removeAttribute n "style" d
    end).

(** [this.DOMService.listen(elem, event, handler, options)] *)
Definition listen (elem : EventTarget) (type : string) (handler : Handler)
    (useCapture : bool) : M nat := fun w =>
  let l := next_listener w in
  (set_next_listener (S l)
     (set_bound (bound w ++ [(l, mkListener elem type handler useCapture)]) w),
   Ret l).

(** [listener.unbind()] *)
Definition unbind (l : nat) : M unit :=
  modify (fun w => set_bound (filter (λ b, b.1 ≠ l) (bound w)) w).

Definition addListener (namespace : string) (elem : EventTarget) (type : string)
    (handler : Handler) (useCapture : bool) : M unit :=
  modify_this (fun p =>
    match _listeners p with
    | Some _ => p
    | None => set_listeners (Some ∅) p
    end) ;;
  modify_this (fun p =>
    let ls := default ∅ (_listeners p) in
    match ls !! namespace with
    | Some _ => p
    | None => set_listeners (Some (<[namespace := []]> ls)) p
    end) ;;
  l ← listen elem type handler useCapture;
  modify_this (fun p =>
    let ls := default ∅ (_listeners p) in
    set_listeners (Some (<[namespace := default [] (ls !! namespace) ++ [l]]> ls)) p).

Definition removeListeners (namespace : string) : M unit :=
  w ← get;
  ls ← deref (_listeners (this w));
  arr ← deref (ls !! namespace);
  forEach unbind arr.

(** [this.overflowing.side = value] *)
Definition record_overflowing (side : string) (value : Z) : M unit :=
  modify_this (fun p =>
    set_overflowing (Some (<[side := value]> (default ∅ (overflowing p)))) p).

Definition setOverflowingAttributes : M unit :=
  w ← get;
  let n := node (this w) in
  width ← getWidth;
  height ← getHeight;
  let offset := getOffsetFromVisible (layoutOf browser (dom w) n)
                  (Some width) (Some height) (DOMService_ w) in
  modify_this (fun p =>
    match overflowing p with
    | Some _ => p
    | None => set_overflowing (Some ∅) p
    end) ;;
  when (Offset.left offset <? 0)
    (record_overflowing "left" (Offset.left offset) ;;
     modify_dom (setAttribute n "overflowing-left" "") ;;
     when (Offset.left offset <? Offset.right offset)
       (modify_dom (setAttribute n "x-direction" "right"))) ;;
  when (Offset.right offset <? 0)
    (record_overflowing "right" (Offset.right offset) ;;
     modify_dom (setAttribute n "overflowing-right" "") ;;
     when (Offset.right offset <? Offset.left offset)
       (modify_dom (setAttribute n "x-direction" "left"))) ;;
  when (Offset.bottom offset <? 0)
    (record_overflowing "bottom" (Offset.bottom offset) ;;
     modify_dom (setAttribute n "overflowing-bottom" "") ;;
     when (Offset.bottom offset <? Offset.top offset)
       (modify_dom (setAttribute n "y-direction" "top"))) ;;
  when (Offset.top offset <? 0)
    (record_overflowing "top" (Offset.top offset) ;;
     modify_dom (setAttribute n "overflowing-top" "") ;;
     when (Offset.top offset <? Offset.bottom offset)
       (modify_dom (setAttribute n "y-direction" "bottom"))) ;;
  modify_dom (setAttribute n "overflowing-calculated" "true").

Definition removeOverflowingAttributes : M unit :=
  w ← get;
  let n := node (this w) in
  modify_dom (removeAttribute n "x-direction") ;;
  modify_dom (removeAttribute n "y-direction") ;;
  forEach (fun key => modify_dom (removeAttribute n ("overflowing-" +:+ key)))
    (match overflowing (this w) with
     | Some o => (map_to_list o).*1
     | None => []
     end) ;;
  modify_dom (removeAttribute n "overflowing-calculated").

Definition px (v : Z) : string := pretty v +:+ "px".

Definition dismount (params : IDismountingParams) : M unit :=
  w ← get;
  let n := node (this w) in
  let boundingClientRect := layoutOf browser (dom w) n in
  let computedStyle := boundingClientRect in
  let left := default (rect_left boundingClientRect + (scrollOf browser (dom w)).1
                       - marginLeft computedStyle) (param_left params) in
  let top := default (rect_top boundingClientRect + (scrollOf browser (dom w)).2
                      - marginTop computedStyle) (param_top params) in
  avatar ← match param_avatar params with
           | Some a => mret a
           | None => fun w => let '(d, c) := cloneNode (dom w) n in (set_dom d w, Ret c)
           end;
  modify_this (set_avatar (Some avatar)) ;;
  w ← get;
  modify_this (set_originalAttributes (Some [("style", getAttribute (dom w) n "style")])) ;;
  modify_this (set_originalParent (Some (parentNode (dom w) !! n))) ;;
  style_set avatar "opacity" "0" ;;
  width ← getWidth;
  style_set n "width" (px width) ;;
  height ← getHeight;
  style_set n "height" (px height) ;;
  style_set n "position" "absolute" ;;
  style_set n "left" (px left) ;;
  style_set n "top" (px top) ;;
  style_set n "z-index" "9999" ;;
  w ← get;
  parent ← deref (parentNode (dom w) !! n);
  dom_call (insertBefore parent avatar (nextSibling (dom w) n)) ;;
  w ← get;
  dom_call (appendChild (body (dom w)) n) ;;
  addListener LISTENER_NAMESPACES.DISMOUNTING TargetWindow "resize" DismountingResize false ;;
  addListener LISTENER_NAMESPACES.DISMOUNTING TargetWindow "scroll" DismountingScroll true ;;
  modify_this (set_isDismounted (Some true)).

Definition mount : M unit :=
  w ← get;
  let n := node (this w) in
  forEach (fun '(attributeKey, val) =>
             match val with
             | None => modify_dom (removeAttribute n attributeKey)
             | Some v => modify_dom (setAttribute n attributeKey v)
             end)
    (default [] (_originalAttributes (this w))) ;;
  w ← get;
  (if match _avatar (this w) with
      | Some a => contains (dom w) (documentElement (dom w)) a
      | None => false
      end
   then
     a ← deref (_avatar (this w));
     parent ← deref (parentNode (dom w) !! a);
     dom_call (insertBefore parent n (nextSibling (dom w) a))
   else
     parent ← deref (parentNode (dom w) !! n);
     dom_call (removeChild parent n)) ;;
  w ← get;
  match _avatar (this w) with
  | Some a =>
      parent ← deref (parentNode (dom w) !! a);
      dom_call (removeChild parent a)
  | None => mret tt
  end ;;
  removeListeners LISTENER_NAMESPACES.DISMOUNTING ;;
  modify_this (set_avatar None) ;;
  modify_this (set_originalParent None) ;;
  modify_this (set_originalAttributes None) ;;
  modify_this (set_isDismounted (Some false)).

Definition call_hook (name : string) : M unit :=
  modify (fun w => set_hook_calls (hook_calls w ++ [name]) w).

Definition setTimeout (t : Task) : M unit :=
  modify (fun w => set_timers (timers w ++ [t]) w).

Definition close : M unit :=
  c ← isClosed;
  if (c : bool) then mret tt
  else
    modify_this (set_state Closed) ;;
    w ← get;
    modify_dom (removeAttribute (node (this w)) "open") ;;
    when (bool_decide (_isDismounted (this w) = Some true)) mount ;;
    removeOverflowingAttributes ;;
    when (onClose cls) (call_hook "onClose") ;;
    removeListeners LISTENER_NAMESPACES.OPENING.

(** What [open] does after the point where it may [await]. *)
Definition open_rest : M unit :=
  setOverflowingAttributes ;;
  setTimeout TaskListenOpening.

(** [open(params)]: [dismountingParams] is [None] when [params] has none.
    With [postponeOverflowCalculating] the call suspends at its [await];
    the rest is the task [TaskResumeOpen]. *)
Definition open (dismountingParams : option IDismountingParams) : M unit :=
  o ← isOpen;
  if (o : bool) then mret tt
  else
    when (isDismountingNeeded cls)
      (dismount (default (mkParams None None None) dismountingParams)) ;;
    modify_this (set_state Open) ;;
    w ← get;
    modify_dom (setAttribute (node (this w)) "open" "true") ;;
    when (onOpen cls) (call_hook "onOpen") ;;
    if postponeOverflowCalculating cls then setTimeout TaskResumeOpen
    else open_rest.


Definition node_contains (d : Dom) (n : nat) (target : EventTarget) : bool :=
  match target with
  | TargetElement t => contains d n t
  | _ => false
  end.

Definition onDocumentScroll (e : DomEvent) : M unit :=
  w ← get;
  when (bool_decide (TargetElement (node (this w)) ≠ event_target e)
        && negb (node_contains (dom w) (node (this w)) (event_target e)))
    close.


Definition run_task (t : Task) : M unit :=
  match t with
  | TaskResumeOpen => open_rest
  | TaskListenOpening =>
      w ← get;
      addListener LISTENER_NAMESPACES.OPENING
        (TargetElement (documentElement (dom w))) "pointerup" OpeningPointerUp false
  end.





Definition runTimer (w : World) : World :=
  match timers w with
  | [] => w
  | t :: rest => (run_task t (set_timers rest w)).1
  end.

End Methods.
End Panel.

(** ** Reasoning about methods *)

(** [m] keeps [P]: whatever [m] does, also when it throws. *)
Definition preserves {A} (P : World -> Prop) (m : M A) : Prop :=
  forall w, P w -> P (m w).1.

(** [m] never throws. *)
Definition returns {A} (m : M A) : Prop :=
  forall w, exists a, (m w).2 = Ret a.

(** The attributes [dismount] saves are the [style] attribute alone. *)
Definition saved_style_only (w : World) : Prop :=
  forall saved, _originalAttributes (this w) = Some saved ->
  Forall (fun kv => kv.1 = "style") saved.

(** The panel is in state [s] and its node is [n], whose [open]
    attribute is [v]. *)
Definition panel_shows (s : PanelComponentStates) (n : nat) (v : option string)
    (w : World) : Prop :=
  state (this w) = s /\ node (this w) = n /\ getAttribute (dom w) n "open" = v.

(** The invariant of [close]: closed, no [open] attribute, and nothing
    saved but the [style] attribute. *)
Definition closed_inv (n : nat) (w : World) : Prop :=
  panel_shows Closed n None w /\ saved_style_only w.




(** ** A small page

    [html] (0) holds [body] (1); [body] holds a container (2) with the
    panel's node (3) and a sibling (4); the node holds one element (5).

    The browser of the example lays the node out 5px left of the viewport
    and 580px down, 100px by 50px, and appends declarations to the [style]
    attribute. *)
Definition example_dom : Dom :=
  mkDom (list_to_map [(1, 0); (2, 1); (3, 2); (4, 2); (5, 3)]%nat)
        (list_to_map [(0, [1]); (1, [2]); (2, [3; 4]); (3, [5])]%nat)
        (list_to_map [(3%nat, {[ "style" := "color: red" ]})])
        6 0 1.

Definition example_browser : Browser :=
  mkBrowser (fun _ _ => mkLayout (-5) 580 100 50 0 0) (fun _ => (0, 0))
    (fun prop value old => Some (default "" old +:+ prop +:+ ": " +:+ value +:+ ";")).

Definition example_service : DOMService Z :=
  constructor (mkMetrics 800 600 (Some 800) (Some 600) (Some 0) (Some 0)
                 (Some 0) (Some 0) 0 0).

Definition example_world : World :=
  mkWorld example_dom example_service (new_PanelComponent 3) [] 0 [] [].

(** [PanelComponent] as it is, and a subclass that dismounts. *)
Definition base_class : PanelClass := mkClass false false false false.
Definition dismounting_class : PanelClass := mkClass true false true true.



(** [d'] has the nodes below [N] as [d] has them. *)
Definition agree_below (N : nat) (d d' : Dom) : Prop :=
  (forall z, (z < N)%nat ->
     parentNode d' !! z = parentNode d !! z /\
     childNodes d' !! z = childNodes d !! z /\
     attributes d' !! z = attributes d !! z) /\
  documentElement d' = documentElement d /\ body d' = body d.

(** Where the node [n] and the avatar (the first node made after [d])
    stand in [d'], a store that came from [d] by dismounting and mounting:
    their parents [pn] and [pa], the children [Lp] of the node's original
    parent [p] and the children [Lb] of [body]. Every other node of [d]
    has the parent and the children it has in [d]. *)
Definition stage (d : Dom) (n p : nat) (pn pa : option nat) (Lp Lb : list nat)
    (d' : Dom) : Prop :=
  (next_node d < next_node d')%nat /\
  documentElement d' = documentElement d /\ body d' = body d /\
  parentNode d' !! n = pn /\ parentNode d' !! next_node d = pa /\
  children_of d' p = Lp /\ children_of d' (body d) = Lb /\
  (forall z, (z < next_node d)%nat -> z <> n ->
     parentNode d' !! z = parentNode d !! z) /\
  (forall z, (z < next_node d)%nat -> z <> p -> z <> body d ->
     children_of d' z = children_of d z).

(** [m], started where [P] holds, returns, and then [Q] holds. *)
Definition triple {A} (P : World -> Prop) (m : M A) (Q : A -> World -> Prop) : Prop :=
  forall w, P w -> exists a w', m w = (w', Ret a) /\ Q a w'.

(** A dismounting panel: the store is at a stage of the node's way, the
    avatar is the first node made after [d], and the saved attributes are
    the [style] attribute with value [saved]. *)
Definition dismounting (d : Dom) (n p : nat) (pn pa : option nat)
    (Lp Lb : list nat) (saved : option string) (w : World) : Prop :=
  stage d n p pn pa Lp Lb (dom w) /\
  node (this w) = n /\
  _avatar (this w) = Some (next_node d) /\
  _originalAttributes (this w) = Some [("style", saved)].

(** The panel keeps listeners in the [dismounting] namespace. *)
Definition has_dismounting_listeners (w : World) : Prop :=
  exists ls arr, _listeners (this w) = Some ls /\
                 ls !! LISTENER_NAMESPACES.DISMOUNTING = Some arr.

(** ** DOMService: getOffset, and the kinds of events *)

Module DocOffset.
Record t (num : Type) := mk { top : num; left : num }.
Arguments mk {num}. Arguments top {num}. Arguments left {num}.
End DocOffset.

(** [getOffset(el)]; [el] is given by its layout. *)
Definition getOffset `{JsNum num} (el : Layout num) (s : DOMService num)
    : DocOffset.t num :=
  DocOffset.mk (num_add (rect_top el) (IScroll.y (scroll s)))
               (num_add (rect_left el) (IScroll.x (scroll s))).

(** The events whose handler ends with [this.idleTime = 0]. *)
Definition resets_idleTime {num : Type} (e : @event num) : bool :=
  match e with
  | KeyDown _ | PointerMove _ _ | PointerDown | Scroll _ | Resize _ => true
  | KeyUp _ | PointerUp | Blur | IdleTick => false
  end.

Definition is_IdleTick {num : Type} (e : @event num) : bool :=
  match e with IdleTick => true | _ => false end.



Definition is_PointerMove {num : Type} (e : @event num) : bool :=
  match e with PointerMove _ _ => true | _ => false end.

Definition is_Resize {num : Type} (e : @event num) : bool :=
  match e with Resize _ => true | _ => false end.

Definition is_Scroll {num : Type} (e : @event num) : bool :=
  match e with Scroll _ => true | _ => false end.

(** How many events of a list are of a kind. *)
Definition count {num : Type} (kind : @event num -> bool) (evs : list (@event num)) : Z :=
  Z.of_nat (length (filter (fun e => kind e = true) evs)).

(** No event of a list is of a kind. *)
Definition none_of {num : Type} (kind : @event num -> bool) (evs : list (@event num)) : Prop :=
  Forall (fun e => kind e = false) evs.

(** ** The panel: what further properties are stated with *)

(** [m], started where [P] holds, throws [e], and then [Q] holds. *)
Definition throwing {A} (P : World -> Prop) (m : M A) (e : exn) (Q : World -> Prop) : Prop :=
  forall w, P w -> exists w', m w = (w', Throw e) /\ Q w'.

(** The attributes [setOverflowingAttributes] writes on the node. *)
Definition overflow_attribute (name : string) : Prop :=
  name = "x-direction" \/ name = "y-direction" \/
  exists key, name = "overflowing-" +:+ key.

(** Every [overflowing-<side>] attribute on the node has its side among
    the keys of [this.overflowing]. *)
Definition overflow_recorded (w : World) : Prop :=
  forall key, key <> "calculated" ->
  getAttribute (dom w) (node (this w)) ("overflowing-" +:+ key) <> None ->
  exists o, overflowing (this w) = Some o /\ is_Some (o !! key).

(** [d] has the attributes of [d0], those written by
    [setOverflowingAttributes] on [n] apart. *)
Definition same_but_overflow (n : nat) (d0 d : Dom) : Prop :=
  forall m name, m <> n \/ ~ overflow_attribute name ->
  getAttribute d m name = getAttribute d0 m name.

(** What [setOverflowingAttributes] keeps, for the node [n] and a store
    [d0] to compare with. *)
Definition overflow_kept (n : nat) (d0 : Dom) (w : World) : Prop :=
  node (this w) = n /\ overflow_recorded w /\ same_but_overflow n d0 (dom w).

(** The panel has no array of listeners under [namespace]. *)
Definition no_listeners (namespace : string) (w : World) : Prop :=
  _listeners (this w) = None \/
  exists ls, _listeners (this w) = Some ls /\ ls !! namespace = None.

(** What [close] leaves as it is when it does not mount. *)
Definition closing (n : nat) (B : list (nat * Listener)) (T : list Task) (w : World) : Prop :=
  panel_shows Closed n None w /\ bound w = B /\ timers w = T /\
  no_listeners LISTENER_NAMESPACES.OPENING w.

(** A closed panel whose node [n], a node of the store, has no parent;
    [v] is the node's [open] attribute, [B] the bindings in force and [H]
    the hook calls made. *)
Definition detached_closed (n : nat) (v : option string) (B : list (nat * Listener))
    (H : list string) (w : World) : Prop :=
  state (this w) = Closed /\ node (this w) = n /\ (n < next_node (dom w))%nat /\
  parentNode (dom w) !! n = None /\ getAttribute (dom w) n "open" = v /\
  bound w = B /\ hook_calls w = H.

(** A closed panel that is still dismounted and whose avatar [a] has no
    parent; [pn] is the parent of the node [n], [B] the bindings in
    force. *)
Definition avatar_lost (n a : nat) (pn : option nat) (B : list (nat * Listener))
    (w : World) : Prop :=
  state (this w) = Closed /\ node (this w) = n /\ _avatar (this w) = Some a /\
  _isDismounted (this w) = Some true /\
  parentNode (dom w) !! a = None /\ a <> documentElement (dom w) /\
  parentNode (dom w) !! n = pn /\ bound w = B.




(** What of the world the moves of [dismount] and [mount] depend on:
    the tree, and the panel's own record of the dismounting. *)
Definition skeleton (w : World) :=
  (parentNode (dom w), childNodes (dom w), next_node (dom w),
   documentElement (dom w), body (dom w),
   node (this w), _avatar (this w), _originalAttributes (this w),
   _isDismounted (this w), _listeners (this w)).

(** The fields of the world that attributes and hooks do not touch. *)
Definition bindings (w : World) :=
  (bound w, next_listener w, timers w, _listeners (this w), _isDismounted (this w),
   state (this w), node (this w)).

(** A closed panel at rest: no callback pending, not dismounted, every
    binding numbered below [next_listener], and none of the listeners the
    panel keeps in [this._listeners] bound. *)
Definition at_rest (w : World) : Prop :=
  state (this w) = Closed /\ timers w = [] /\ _isDismounted (this w) <> Some true /\
  (forall b, b ∈ bound w -> (b.1 < next_listener w)%nat) /\
  (forall ls namespace arr l,
     _listeners (this w) = Some ls -> ls !! namespace = Some arr -> l ∈ arr ->
     (l ∉ (bound w).*1) /\ (l < next_listener w)%nat).

(** ** Query strings as they are written *)

(** [l.join(sep)] *)
Fixpoint join (sep : string) (l : list string) : string :=
  match l with
  | [] => EmptyString
  | [x] => x
  | x :: rest => x +:+ sep +:+ join sep rest
  end.

(** [c] does not occur in [s]. *)
Fixpoint lacks (c : ascii) (s : string) : bool :=
  match s with
  | EmptyString => true
  | String c' rest => negb (Ascii.eqb c' c) && lacks c rest
  end.

(** A key or value that needs no escaping to stand in a query string:
    it has none of [&], [=] and [%]. *)
Definition plain (s : string) : bool :=
  lacks "&" s && lacks "=" s && lacks "%" s.

(** A variable of a query string: [key=value], or [key] alone. *)
Definition variable (kv : string * option string) : string :=
  match kv.2 with
  | Some v => kv.1 +:+ "=" +:+ v
  | None => kv.1
  end.

(** What the parser is to do with one more variable: the first value of
    a key is kept as a string, the second makes an array of the two, the
    later ones are appended; a variable without [=] has the value
    [undefined] turned into a string. *)
Definition record_variable (q : gmap string QueryValue) (kv : string * option string)
    : gmap string QueryValue :=
  let v := default "undefined" kv.2 in
  match q !! kv.1 with
  | None => <[kv.1 := QString v]> q
  | Some (QString old) => <[kv.1 := QArray [old; v]]> q
  | Some (QArray items) => <[kv.1 := QArray (items ++ [v])]> q
  end.

(** A key that [{}] does not inherit. *)
Definition own_key (k : string) : Prop := Object_prototype_typeof k = "undefined".

(** A variable the parser reads as it is written. *)
Definition readable (kv : string * option string) : Prop :=
  plain kv.1 = true /\ own_key kv.1 /\
  match kv.2 with Some v => plain v = true | None => True end.

(** ** DOMService: measuring with a temporary element *)

(** [n.style.prop = value], on the store. *)
Definition style_assign (browser : Browser) (n : nat) (prop value : string) (d : Dom) : Dom :=
  match css_set browser prop value (getAttribute d n "style") with
  | Some v => setAttribute n "style" v d
  | None => removeAttribute n "style" d
  end.

(** ASCII whitespace, which separates the tokens of a [class]
    attribute. *)
Definition is_space (c : ascii) : bool :=
  bool_decide (N_of_ascii c ∈ [9; 10; 12; 13; 32]%N).

Fixpoint tokens_go (token : string) (s : string) : list string :=
  match s with
  | EmptyString => if String.eqb token "" then [] else [token]
  | String c rest =>
      if is_space c
      then (if String.eqb token "" then [] else [token]) ++ tokens_go "" rest
      else tokens_go (token +:+ String c "") rest
  end.

(** The first occurrences of the elements of a list. *)
Fixpoint distinct (seen l : list string) : list string :=
  match l with
  | [] => []
  | x :: rest =>
      if bool_decide (x ∈ seen) then distinct seen rest
      else x :: distinct (x :: seen) rest
  end.

(** The token set of [n.classList]. *)
Definition classList (d : Dom) (n : nat) : list string :=
  match getAttribute d n "class" with
  | Some v => distinct [] (tokens_go "" v)
  | None => []
  end.

Fixpoint unwords (l : list string) : string :=
  match l with
  | [] => ""
  | [x] => x
  | x :: rest => x +:+ " " +:+ unwords rest
  end.

(** [n.classList.add(token)]: the attribute becomes the token set with
    [token] in it, written out with single spaces. *)
Definition classList_add (n : nat) (token : string) (d : Dom) : Dom :=
  let tokens := classList d n in
  setAttribute n "class"
    (unwords (if bool_decide (token ∈ tokens) then tokens else tokens ++ [token])) d.

Definition outcome_deref {A} (x : option A) : outcome A :=
  match x with
  | Some a => Ret a
  | None => Throw TypeError
  end.

(** [refreshScrollbarWidth()]: the store it leaves and the value it
    assigns to [this._SCROLLBAR_WIDTH]. *)
Definition refreshScrollbarWidth (browser : Browser) (d : Dom) : outcome (Dom * Z) :=
  let '(d, outer) := createElement ∅ d in
  let d := style_assign browser outer "visibility" "hidden" d in
  let d := style_assign browser outer "width" "100px" d in
  let d := style_assign browser outer "-ms-overflow-style" "scrollbar" d in
  let d := classList_add outer "scroll" d in
  d ← appendChild (body d) outer d;
  let widthNoScroll := offsetWidth (layoutOf browser d outer) in
  let d := style_assign browser outer "overflow" "scroll" d in
  let '(d, inner) := createElement ∅ d in
  let d := style_assign browser inner "width" "100%" d in
  d ← appendChild outer inner d;
  let widthWithScroll := offsetWidth (layoutOf browser d inner) in
  parent ← outcome_deref (parentNode d !! outer);
  d ← removeChild parent outer d;
  Ret (d, widthNoScroll - widthWithScroll).

(** [getScrollbarWidth()]: [_SCROLLBAR_WIDTH] is [None] while it is
    [undefined]; the result is the store, the field and the value
    returned. *)
Definition getScrollbarWidth (browser : Browser) (_SCROLLBAR_WIDTH : option Z) (d : Dom)
    : outcome (Dom * option Z * Z) :=
  match _SCROLLBAR_WIDTH with
  | None =>
      '(d', v) ← refreshScrollbarWidth browser d;
      Ret (d', Some v, v)
  | Some v => Ret (d, Some v, v)
  end.

(** [getCSSRuleValue(cls, prop)]; [computed d elem prop] is what
    [parseFloat(getComputedStyle(elem)[prop])] gives in the browser. *)
Definition getCSSRuleValue {num : Type} (computed : Dom -> nat -> string -> num)
    (cls prop : string) (d : Dom) : outcome (Dom * num) :=
  let '(d, elem) := createElement ∅ d in
  let d := setAttribute elem "class" ("hide " +:+ cls) d in
  d ← appendChild (body d) elem d;
  let result := computed d elem prop in
  d ← removeChild (body d) elem d;
  Ret (d, result).

(** The nodes below [N] are in [d'] as they are in [d]: same parent, same
    children, same attributes. *)
Definition same_nodes (N : nat) (d d' : Dom) : Prop :=
  (forall z, (z < N)%nat ->
     parentNode d' !! z = parentNode d !! z /\
     children_of d' z = children_of d z /\
     attrs_of d' z = attrs_of d z) /\
  documentElement d' = documentElement d /\ body d' = body d.

(** The store [d] has the parent pointers [pm] and the child lists
    [cm], its next node is [N], and the nodes of [d0] have the attributes
    they have in [d0]. *)
Definition shape (d0 : Dom) (pm : gmap nat nat) (cm : gmap nat (list nat)) (N : nat)
    (d : Dom) : Prop :=
  parentNode d = pm /\ childNodes d = cm /\ next_node d = N /\
  documentElement d = documentElement d0 /\ body d = body d0 /\
  forall z, (z < next_node d0)%nat -> attributes d !! z = attributes d0 !! z.

(** ** DOMService: full screen *)





(** * Properties *)

(** ** DOMService: pointer counter, pressed keys, visible rectangle *)

Section ServiceFacts.
Context {num : Type} `{JsNum num}.

Lemma run_snoc (s : DOMService num) (evs : list event) (e : event) :
  run s (evs ++ [e]) = handle (run s evs) e.
Proof. unfold run. apply foldl_snoc. Qed.

Lemma run_cons (s : DOMService num) (evs : list event) (e : event) :
  run s (e :: evs) = run (handle s e) evs.
Proof. reflexivity. Qed.

(** A property kept by every handler holds after every run. *)
Lemma run_invariant (P : DOMService num -> Prop) :
  (forall s e, P s -> P (handle s e)) ->
  forall evs s, P s -> P (run s evs).
Proof.
  intros step evs. induction evs as [|e evs IH]; intros s Hs; [exact Hs|].
  rewrite run_cons. apply IH, step, Hs.
Qed.

Lemma constructor_isPointerPressed (m : Metrics num) :
  isPointerPressed (constructor m) = 0.
Proof. reflexivity. Qed.

Lemma handle_isPointerPressed_nonneg (s : DOMService num) (e : event) :
  0 <= isPointerPressed s -> 0 <= isPointerPressed (handle s e).
Proof. destruct e; simpl; lia. Qed.

Lemma onDocumentPointerDown_increments (s : DOMService num) :
  isPointerPressed (onDocumentPointerDown s) = isPointerPressed s + 1.
Proof. reflexivity. Qed.

Lemma onDocumentPointerUp_min (s : DOMService num) :
  isPointerPressed (onDocumentPointerUp s) = Z.min 0 (isPointerPressed s).
Proof. reflexivity. Qed.

(** C9. From the state the constructor leaves, after any sequence of
    events [isPointerPressed] is not negative, and right after a pointerup
    it is 0. *)
Theorem isPointerPressed_never_negative (m : Metrics num) (evs : list event) :
  0 <= isPointerPressed (run (constructor m) evs) /\
  isPointerPressed (run (constructor m) (evs ++ [PointerUp])) = 0.
Proof.
  assert (Hinv : forall l, 0 <= isPointerPressed (run (constructor m) l)).
  { intros l. apply (run_invariant (fun s => 0 <= isPointerPressed s)).
    - intros s e. apply handle_isPointerPressed_nonneg.
    - rewrite constructor_isPointerPressed. lia. }
  split; [apply Hinv|].
  rewrite run_snoc. simpl. specialize (Hinv evs). lia.
Qed.

Lemma pressedKeys_handle (k : Z) (s : DOMService num) (e : event) :
  k ∈ pressedKeys (handle s e) <->
  e = KeyDown k \/ (k ∈ pressedKeys s /\ e <> KeyUp k /\ e <> Blur).
Proof.
  destruct e as [k'|k'| | | | | | |]; simpl;
    try (split; [intros Hk; right; repeat split; [exact Hk|discriminate..]
                |intros [Hk|(Hk & _)]; [discriminate|exact Hk]]).
  - rewrite elem_of_union, elem_of_singleton. split.
    + intros [->|Hk]; [by left|]. right. repeat split; [exact Hk|discriminate..].
    + intros [[= ->]|(Hk & _)]; [by left|by right].
  - rewrite elem_of_difference, elem_of_singleton. split.
    + intros [Hk Hne]. right. repeat split; [exact Hk| |discriminate].
      intros [= ->]. by apply Hne.
    + intros [Hk|(Hk & Hne & _)]; [discriminate|]. split; [exact Hk|].
      intros ->. by apply Hne.
  - split; [intros Hk; by apply not_elem_of_empty in Hk|].
    intros [Hk|(_ & _ & Hne)]; [discriminate|by destruct Hne].
Qed.

(** C5. [isKeyPressed(k)] is true exactly when the events seen so far
    contain a keydown for [k] that no keyup for [k] and no window blur
    follows. *)
Theorem isKeyPressed_last_event (m : Metrics num) (evs : list event) (k : Z) :
  isKeyPressed k (run (constructor m) evs) = true <->
  exists before after,
    evs = before ++ KeyDown k :: after /\
    Forall (fun e => e <> KeyUp k /\ e <> Blur) after.
Proof.
  unfold isKeyPressed. rewrite bool_decide_eq_true.
  induction evs as [|e evs IH] using rev_ind.
  - split; [intros Hk; by apply not_elem_of_empty in Hk|].
    intros (before & after & Heq & _). by destruct before.
  - rewrite run_snoc, pressedKeys_handle, IH. split.
    + intros [->|((before & after & -> & Hafter) & Hup & Hblur)].
      * exists evs, []. split; [reflexivity|constructor].
      * exists before, (after ++ [e]). split; [by rewrite <- app_assoc|].
        apply Forall_app. split; [exact Hafter|]. by repeat constructor.
    + intros (before & after & Heq & Hafter).
      destruct after as [|a after _] using rev_ind.
      * apply app_inj_tail in Heq as [_ <-]. by left.
      * rewrite app_comm_cons, app_assoc in Heq.
        apply app_inj_tail in Heq as [-> <-].
        apply Forall_app in Hafter as [Hafter Ha].
        apply Forall_singleton in Ha as [Hup Hblur].
        right. split; [|by split]. by exists before, after.
Qed.

Lemma refreshVisible_derived (s : DOMService num) :
  visible_derived (refreshVisible s).
Proof. repeat split. Qed.


Lemma refreshScroll_derived (m : Metrics num) (s : DOMService num) :
  visible_derived (refreshScroll m s).
Proof. repeat split. Qed.

Lemma constructor_derived (m : Metrics num) :
  visible_derived (constructor m).
Proof. apply refreshScroll_derived. Qed.

Lemma handle_derived (s : DOMService num) (e : event) :
  visible_derived s -> visible_derived (handle s e).
Proof. destruct e; simpl; try exact id; intros _; repeat split. Qed.


End ServiceFacts.



(** ** getSelectedTextElement *)

Lemma selection_try_throws_iff (gs : getSelection_api) :
  selection_try_throws gs <-> exists e, selection_try gs = Throw e.
Proof.
  destruct gs as [|e| |[p|]]; simpl; split; try tauto; eauto;
    intros [e' He]; discriminate He.
Qed.

(** C6, as amended. An exception of the [try] block is caught and the
    function answers what the legacy API answers: with
    [document.selection] at hand, its element or [null]. The function
    throws only when the [try] block threw and the fallback throws too,
    and the exception is the fallback's. Without an exception in the [try]
    block it returns [undefined], [null] or a node whatever the legacy
    API is. *)
Theorem getSelectedTextElement_swallows (gs : getSelection_api)
    (ds : legacy_selection_api) :
  (selection_try_throws gs ->
   getSelectedTextElement gs ds = selection_legacy ds) /\
  (forall el, selection_try_throws gs -> ds = LegacyParentElement el ->
   getSelectedTextElement gs ds = Ret (ref_of_nullable el)) /\
  (forall e, getSelectedTextElement gs ds = Throw e ->
   selection_try_throws gs /\ selection_legacy ds = Throw e) /\
  (~ selection_try_throws gs ->
   exists v, getSelectedTextElement gs ds = Ret v /\ selection_try gs = Ret v).
Proof.
  unfold getSelectedTextElement.
  repeat split.
  - destruct gs as [|e| |[p|]]; simpl; tauto.
  - intros el Hgs ->. destruct gs as [|e| |[p|]]; simpl in *; tauto.
  - destruct gs as [|e0| |[p|]]; simpl in *; try exact I; discriminate.
  - destruct gs as [|e0| |[p|]]; simpl in *; try exact H; discriminate.
  - intros Hgs. destruct gs as [|e| |[p|]]; simpl in *; try tauto; eauto.
Qed.

(** The amended C6 where [getSelection] throws and Internet Explorer's
    [document.selection] answers element 7. *)
Lemma getSelectedTextElement_swallows_legacy :
  getSelectedTextElement (GetSelectionThrows (HostError "SecurityError"))
    (LegacyParentElement (Some 7%nat)) = Ret (RefNode 7).
Proof.
  destruct (getSelectedTextElement_swallows
              (GetSelectionThrows (HostError "SecurityError"))
              (LegacyParentElement (Some 7%nat))) as (_ & Hlegacy & _).
  apply (Hlegacy (Some 7%nat)); [exact I|reflexivity].
Defined.

(** C6 as stated fails: [getSelection] throws in a browser without
    [document.selection]; the caller gets a [TypeError], no value. A
    selection anchored in a node without parent gives [null], which is
    neither a node nor [undefined]. *)
Lemma getSelectedTextElement_propagates :
  getSelectedTextElement (GetSelectionThrows (HostError "SecurityError"))
    LegacyMissing = Throw TypeError /\
  ~ (forall gs ds, exists v,
       getSelectedTextElement gs ds = Ret v /\
       (v = RefUndefined \/ exists n, v = RefNode n)) /\
  getSelectedTextElement (GetSelectionReturns (Some None)) LegacyMissing = Ret RefNull.
Proof.
  split; [reflexivity|]. split; [|reflexivity].
  intros Hall.
  destruct (Hall (GetSelectionThrows (HostError "SecurityError")) LegacyMissing)
    as (v & Hv & _).
  discriminate Hv.
Qed.

(** ** convertToFormData *)

Lemma fd_append_app (fd : FormData) (key : string) (val : JsValue) :
  fd_append key val fd = fd ++ [(key, val)].
Proof. reflexivity. Qed.

(** Appending the elements of an array, one call after the other. *)
Lemma foldl_append_items (key : string) (items : list JsValue) (fd : FormData) :
  foldl (fun fd innerVal => fd_append (key +:+ "[]") innerVal fd) fd items =
  fd ++ map (fun innerVal => (key +:+ "[]", innerVal)) items.
Proof.
  revert fd. induction items as [|a l IH]; intros fd; simpl.
  - by rewrite app_nil_r.
  - rewrite IH. unfold fd_append. by rewrite <- app_assoc.
Qed.

Lemma foldl_append_props (key : string) (props : list (string * JsValue)) (fd : FormData) :
  foldl (fun fd '(innerKey, innerVal) =>
           fd_append (key +:+ "[" +:+ innerKey +:+ "]") innerVal fd) fd props =
  fd ++ map (fun '(innerKey, innerVal) => (key +:+ "[" +:+ innerKey +:+ "]", innerVal)) props.
Proof.
  revert fd. induction props as [|[k v] l IH]; intros fd; simpl.
  - by rewrite app_nil_r.
  - rewrite IH. unfold fd_append. by rewrite <- app_assoc.
Qed.

(** What one property of [data] adds to the form data. *)
Lemma convert_property_alone (key : string) (val : JsValue) :
  convert_property [] (key, val) =
  match val with
  | VString _ | VNumber _ | VBoolean true | VFile _ => [(key, val)]
  | VArray items => map (fun innerVal => (key +:+ "[]", innerVal)) items
  | VObject props | VFunction props =>
      map (fun '(innerKey, innerVal) => (key +:+ "[" +:+ innerKey +:+ "]", innerVal)) props
  | VBoolean false | VNull | VUndefined => []
  end.
Proof.
  unfold convert_property.
  destruct val as [| |[|]| | | |items|props|props]; simpl; try reflexivity.
  - apply (foldl_append_items key items []).
  - apply (foldl_append_props key props []).
  - apply (foldl_append_props key props []).
Qed.

Lemma convert_property_app (fd : FormData) (kv : string * JsValue) :
  convert_property fd kv = fd ++ convert_property [] kv.
Proof.
  destruct kv as [key val]. unfold convert_property.
  destruct val as [| |[|]| | | |items|props|props]; simpl; try reflexivity;
    try (by rewrite app_nil_r).
  - by rewrite (foldl_append_items key items fd), (foldl_append_items key items []).
  - by rewrite (foldl_append_props key props fd), (foldl_append_props key props []).
  - by rewrite (foldl_append_props key props fd), (foldl_append_props key props []).
Qed.

Lemma foldl_convert_property (data : list (string * JsValue)) (fd : FormData) :
  foldl convert_property fd data = fd ++ convertToFormData data.
Proof.
  unfold convertToFormData. revert fd.
  induction data as [|kv data IH] using rev_ind; intros fd.
  - by rewrite app_nil_r.
  - rewrite !foldl_snoc, convert_property_app, (IH fd), (convert_property_app (foldl _ _ _)).
    by rewrite app_assoc.
Qed.

Lemma convertToFormData_app (data1 data2 : list (string * JsValue)) :
  convertToFormData (data1 ++ data2) = convertToFormData data1 ++ convertToFormData data2.
Proof.
  unfold convertToFormData at 1. rewrite foldl_app.
  apply foldl_convert_property.
Qed.

Lemma convertToFormData_property (before after : list (string * JsValue))
    (key : string) (val : JsValue) :
  convertToFormData (before ++ (key, val) :: after) =
  convertToFormData before ++ convert_property [] (key, val) ++ convertToFormData after.
Proof.
  rewrite convertToFormData_app. f_equal.
  change ((key, val) :: after) with ([(key, val)] ++ after).
  rewrite convertToFormData_app. reflexivity.
Qed.

(** C8. Whatever comes before and after a property of the input, the
    property adds to the form data, at its place: one entry under its key
    for a string, a number, [true] or a [File]; one entry under
    [key + "[]"] per element of an array, in array order; one entry under
    [key + "[" + innerKey + "]"] per property of a nested object; nothing
    for [false], [null] and [undefined]. *)
Theorem convertToFormData_entries (before after : list (string * JsValue))
    (key : string) (val : JsValue) :
  convertToFormData (before ++ (key, val) :: after) =
  convertToFormData before ++
  match val with
  | VString _ | VNumber _ | VBoolean true | VFile _ => [(key, val)]
  | VArray items => map (fun innerVal => (key +:+ "[]", innerVal)) items
  | VObject props | VFunction props =>
      map (fun '(innerKey, innerVal) => (key +:+ "[" +:+ innerKey +:+ "]", innerVal)) props
  | VBoolean false | VNull | VUndefined => []
  end ++
  convertToFormData after.
Proof.
  rewrite convertToFormData_property. by rewrite convert_property_alone.
Qed.

(** ** parseQueryString *)

(** C7 at its failing input. The value [%2541] encodes the text [%41];
    decoding it once gives that text, but the parser decodes what it has
    decoded once more and stores [A]. *)
Theorem parseQueryString_decodes_twice :
  decodeURIComponent "%2541" = Ret "%41" /\
  parseQueryString "a=%2541" = Ret {[ "a" := QString "A" ]}.
Proof. split; vm_compute; reflexivity. Qed.

(** The second decoding can also fail: [%25] encodes a percent sign, and
    decoding that sign again throws. *)
Lemma parseQueryString_percent_sign :
  decodeURIComponent "%25" = Ret "%" /\
  parseQueryString "a=%25" = Throw URIError.
Proof. split; vm_compute; reflexivity. Qed.

(** A key that names a member of [Object.prototype] is taken for a third
    occurrence, and [push] on the inherited member throws. *)
Lemma parseQueryString_inherited_key :
  parseQueryString "toString=1" = Throw TypeError.
Proof. vm_compute. reflexivity. Qed.

Lemma parseQueryString_example :
  parseQueryString "a=1&b=2&a=3&a=4&c" =
  Ret (<["a" := QArray ["1"; "3"; "4"]]> (<["b" := QString "2"]> {[ "c" := QString "undefined" ]})).
Proof. vm_compute. reflexivity. Qed.

(** ** The DOM: attributes *)

Lemma attrs_of_setAttribute (d : Dom) (n m : nat) (name value : string) :
  attrs_of (setAttribute n name value d) m =
  if decide (n = m) then <[name := value]> (attrs_of d n) else attrs_of d m.
Proof.
  unfold attrs_of, setAttribute. simpl. case_decide as Hnm.
  - subst. by rewrite lookup_insert_eq.
  - by rewrite lookup_insert_ne.
Qed.

Lemma attrs_of_removeAttribute (d : Dom) (n m : nat) (name : string) :
  attrs_of (removeAttribute n name d) m =
  if decide (n = m) then delete name (attrs_of d n) else attrs_of d m.
Proof.
  unfold attrs_of, removeAttribute. simpl. case_decide as Hnm.
  - subst. by rewrite lookup_insert_eq.
  - by rewrite lookup_insert_ne.
Qed.

Lemma getAttribute_setAttribute_eq (d : Dom) (n : nat) (name value : string) :
  getAttribute (setAttribute n name value d) n name = Some value.
Proof.
  unfold getAttribute. rewrite attrs_of_setAttribute, decide_True by done.
  apply lookup_insert_eq.
Qed.

Lemma getAttribute_setAttribute_ne (d : Dom) (n m : nat) (name name' value : string) :
  n <> m \/ name <> name' ->
  getAttribute (setAttribute n name value d) m name' = getAttribute d m name'.
Proof.
  intros Hne. unfold getAttribute. rewrite attrs_of_setAttribute.
  case_decide as Hnm; [|done]. subst.
  destruct Hne as [Hne|Hne]; [done|]. by rewrite lookup_insert_ne.
Qed.

Lemma getAttribute_removeAttribute_eq (d : Dom) (n : nat) (name : string) :
  getAttribute (removeAttribute n name d) n name = None.
Proof.
  unfold getAttribute. rewrite attrs_of_removeAttribute, decide_True by done.
  apply lookup_delete_eq.
Qed.

Lemma getAttribute_removeAttribute_ne (d : Dom) (n m : nat) (name name' : string) :
  n <> m \/ name <> name' ->
  getAttribute (removeAttribute n name d) m name' = getAttribute d m name'.
Proof.
  intros Hne. unfold getAttribute. rewrite attrs_of_removeAttribute.
  case_decide as Hnm; [|done]. subst.
  destruct Hne as [Hne|Hne]; [done|]. by rewrite lookup_delete_ne.
Qed.

Ltac attr_simpl :=
  repeat first
    [ rewrite getAttribute_setAttribute_eq
    | rewrite getAttribute_removeAttribute_eq
    | rewrite getAttribute_setAttribute_ne by (right; discriminate)
    | rewrite getAttribute_removeAttribute_ne by (right; discriminate) ].

(** ** The panel: overflow attributes *)

Section OverflowFacts.
Variable browser : Browser.


(** C2. With [offset] the offset of the node from the visible viewport:
    a negative [left] smaller than [right] sets [x-direction] to [right],
    a negative [right] smaller than [left] sets it to [left]; a negative
    [bottom] smaller than [top] sets [y-direction] to [top], a negative
    [top] smaller than [bottom] sets it to [bottom]; every negative side
    gets its [overflowing-] attribute and is recorded in
    [this.overflowing]; [overflowing-calculated] is [true]. The method
    does not throw. *)
Theorem setOverflowingAttributes_flips (w : World) :
  let n := node (this w) in
  let elem := layoutOf browser (dom w) n in
  let offset := getOffsetFromVisible elem (Some (offsetWidth elem))
                  (Some (offsetHeight elem)) (DOMService_ w) in
  let w' := (Panel.setOverflowingAttributes browser w).1 in
  let attr := getAttribute (dom w') n in
  let recorded side := overflowing (this w') ≫= (.!! side) in
  (Panel.setOverflowingAttributes browser w).2 = Ret tt /\
  (Offset.left offset < 0 -> Offset.left offset < Offset.right offset ->
   attr "x-direction" = Some "right") /\
  (Offset.right offset < 0 -> Offset.left offset > Offset.right offset ->
   attr "x-direction" = Some "left") /\
  (Offset.bottom offset < 0 -> Offset.top offset > Offset.bottom offset ->
   attr "y-direction" = Some "top") /\
  (Offset.top offset < 0 -> Offset.top offset < Offset.bottom offset ->
   attr "y-direction" = Some "bottom") /\
  (Offset.left offset < 0 ->
   attr "overflowing-left" = Some "" /\ recorded "left" = Some (Offset.left offset)) /\
  (Offset.right offset < 0 ->
   attr "overflowing-right" = Some "" /\ recorded "right" = Some (Offset.right offset)) /\
  (Offset.bottom offset < 0 ->
   attr "overflowing-bottom" = Some "" /\ recorded "bottom" = Some (Offset.bottom offset)) /\
  (Offset.top offset < 0 ->
   attr "overflowing-top" = Some "" /\ recorded "top" = Some (Offset.top offset)) /\
  attr "overflowing-calculated" = Some "true".
Proof.
  intros n elem offset w' attr recorded.
  subst w' attr recorded.
  unfold Panel.setOverflowingAttributes.
  cbv [mbind M_bind mret M_ret get Panel.getWidth Panel.getHeight].
  fold n. fold elem. fold offset.
  set (ol := Offset.left offset). set (or := Offset.right offset).
  set (ot := Offset.top offset). set (ob := Offset.bottom offset).
  clearbody ol or ot ob. clear offset.
  destruct (Z.ltb_spec ol 0) as [Hl|Hl]; [destruct (Z.ltb_spec ol or) as [Hlr|Hlr]|];
  (destruct (Z.ltb_spec or 0) as [Hr|Hr]; [destruct (Z.ltb_spec or ol) as [Hrl|Hrl]|]);
  (destruct (Z.ltb_spec ob 0) as [Hb|Hb]; [destruct (Z.ltb_spec ob ot) as [Hbt|Hbt]|]);
  (destruct (Z.ltb_spec ot 0) as [Ht|Ht]; [destruct (Z.ltb_spec ot ob) as [Htb|Htb]|]);
  try lia;
  cbv [when mbind M_bind mret M_ret modify modify_this modify_dom
       Panel.record_overflowing set_this set_dom dom this fst snd
       overflowing set_overflowing node];
  (split; [reflexivity|]);
  repeat split; intros; try lia; attr_simpl; try reflexivity.
  all: destruct (overflowing (this w)); cbn; by simplify_map_eq.
Qed.
End OverflowFacts.

(** C2 on the small page: the node sticks out on the left and at the
    bottom, so it is flipped to the right and to the top. *)
Lemma setOverflowingAttributes_flips_example :
  let w' := (Panel.setOverflowingAttributes example_browser example_world).1 in
  getAttribute (dom w') 3 "x-direction" = Some "right" /\
  getAttribute (dom w') 3 "y-direction" = Some "top" /\
  getAttribute (dom w') 3 "overflowing-left" = Some "" /\
  overflowing (this w') ≫= (.!! "bottom") = Some (-30).
Proof.
  destruct (setOverflowingAttributes_flips example_browser example_world)
    as (_ & Hx & _ & Hy & _ & Hleft & _ & Hbottom & _).
  split; [|split; [|split]].
  - apply Hx; reflexivity.
  - apply Hy; reflexivity.
  - apply Hleft; reflexivity.
  - apply Hbottom; reflexivity.
Defined.

(** ** Running methods *)

Lemma run_bind {A B} (m : M A) (f : A -> M B) (w : World) :
  (m ≫= f) w =
  match m w with
  | (w', Ret a) => f a w'
  | (w', Throw e) => (w', Throw e)
  end.
Proof. reflexivity. Qed.

Lemma run_bind_Ret {A B} (m : M A) (f : A -> M B) (w w' : World) (b : B) :
  (m ≫= f) w = (w', Ret b) ->
  exists a w1, m w = (w1, Ret a) /\ f a w1 = (w', Ret b).
Proof.
  rewrite run_bind. destruct (m w) as [w1 [a|e]]; [eauto|discriminate].
Qed.

Section Preserves.
Context (P : World -> Prop).

Lemma preserves_ret {A} (a : A) : preserves P (mret a).
Proof. intros w Hw. exact Hw. Qed.

Lemma preserves_throw {A} (e : exn) : preserves P (throw e : M A).
Proof. intros w Hw. exact Hw. Qed.

Lemma preserves_bind {A B} (m : M A) (f : A -> M B) :
  preserves P m -> (forall a, preserves P (f a)) -> preserves P (m ≫= f).
Proof.
  intros Hm Hf w Hw. rewrite run_bind. specialize (Hm w Hw).
  destruct (m w) as [w1 [a|e]]; simpl in *; [by apply Hf|done].
Qed.

(** After [get] the continuation may use that [P] held of what it read. *)
Lemma preserves_get {A} (f : World -> M A) :
  (forall w0, P w0 -> preserves P (f w0)) -> preserves P (get ≫= f).
Proof. intros Hf w Hw. by apply (Hf w Hw). Qed.

Lemma preserves_modify (f : World -> World) :
  (forall w, P w -> P (f w)) -> preserves P (modify f).
Proof. intros Hf w Hw. by apply Hf. Qed.

Lemma preserves_dom_call (f : Dom -> outcome Dom) :
  (forall w d, P w -> f (dom w) = Ret d -> P (set_dom d w)) ->
  preserves P (dom_call f).
Proof.
  intros Hf w Hw. unfold dom_call.
  destruct (f (dom w)) as [d|e] eqn:Heq; simpl; [by apply Hf|done].
Qed.

Lemma preserves_deref {A} (x : option A) : preserves P (deref x).
Proof. destruct x; [apply preserves_ret|apply preserves_throw]. Qed.

Lemma preserves_when (b : bool) (m : M unit) :
  preserves P m -> preserves P (when b m).
Proof. destruct b; [done|intros _; apply preserves_ret]. Qed.

Lemma preserves_forEach {A} (f : A -> M unit) (l : list A) :
  Forall (fun a => preserves P (f a)) l -> preserves P (forEach f l).
Proof.
  induction 1 as [|a l Ha _ IH]; [apply preserves_ret|].
  simpl. apply preserves_bind; [exact Ha|intros _; exact IH].
Qed.

End Preserves.

Lemma returns_ret {A} (a : A) : returns (mret a).
Proof. intros w. by exists a. Qed.

Lemma returns_bind {A B} (m : M A) (f : A -> M B) :
  returns m -> (forall a, returns (f a)) -> returns (m ≫= f).
Proof.
  intros Hm Hf w. rewrite run_bind. destruct (Hm w) as [a Ha].
  destruct (m w) as [w1 [a'|e]]; simpl in *; [apply Hf|discriminate].
Qed.

Lemma returns_get : returns get.
Proof. intros w. by exists w. Qed.

Lemma returns_modify (f : World -> World) : returns (modify f).
Proof. intros w. by exists tt. Qed.

Lemma returns_when (b : bool) (m : M unit) : returns m -> returns (when b m).
Proof. destruct b; [done|intros _; apply returns_ret]. Qed.

Lemma returns_forEach {A} (f : A -> M unit) (l : list A) :
  (forall a, returns (f a)) -> returns (forEach f l).
Proof.
  intros Hf. induction l as [|a l IH]; [apply returns_ret|].
  simpl. apply returns_bind; [apply Hf|intros _; exact IH].
Qed.

Lemma returns_unit (m : M unit) (w : World) : returns m -> m w = ((m w).1, Ret tt).
Proof. intros Hm. destruct (Hm w) as [[] Ha]. destruct (m w); simpl in *. by subst. Qed.

(** ** The DOM: moving nodes leaves attributes alone *)

Lemma attributes_detach (n : nat) (d : Dom) : attributes (detach n d) = attributes d.
Proof. unfold detach. by destruct (parentNode d !! n). Qed.

Lemma attributes_insertBefore (parent node : nat) (child : option nat) (d d' : Dom) :
  insertBefore parent node child d = Ret d' -> attributes d' = attributes d.
Proof.
  unfold insertBefore.
  destruct (contains d node parent); [discriminate|].
  destruct (match child with Some c => _ | None => _ end); [discriminate|].
  intros [= <-]. simpl. apply attributes_detach.
Qed.

Lemma attributes_removeChild (parent child : nat) (d d' : Dom) :
  removeChild parent child d = Ret d' -> attributes d' = attributes d.
Proof.
  unfold removeChild. case_match; [|discriminate].
  intros [= <-]. apply attributes_detach.
Qed.

Lemma getAttribute_attributes (d d' : Dom) (n : nat) (name : string) :
  attributes d' = attributes d -> getAttribute d' n name = getAttribute d n name.
Proof. unfold getAttribute, attrs_of. by intros ->. Qed.

(** ** The panel: state and the [open] attribute *)

Lemma overflowing_name_not_open (key : string) : "overflowing-" +:+ key <> "open".
Proof. discriminate. Qed.

Section StateFacts.
Variable cls : PanelClass.
Variable browser : Browser.

Lemma panel_shows_set_dom s n v (w : World) (d : Dom) :
  panel_shows s n v w -> getAttribute d n "open" = getAttribute (dom w) n "open" ->
  panel_shows s n v (set_dom d w).
Proof.
  intros (Hs & Hn & Hv) Hd.
  split; [exact Hs|]. split; [exact Hn|]. simpl. congruence.
Qed.

Lemma preserves_closed_inv {A} (n : nat) (m : M A) :
  preserves (panel_shows Closed n None) m -> preserves saved_style_only m ->
  preserves (closed_inv n) m.
Proof. intros HP HQ w [Hp Hq]. split; [by apply HP|by apply HQ]. Qed.

Lemma preserves_setAttribute_other s n v (m : nat) (name value : string) :
  name <> "open" ->
  preserves (panel_shows s n v) (modify_dom (setAttribute m name value)).
Proof.
  intros Hne. apply preserves_modify. intros w Hw.
  apply panel_shows_set_dom; [done|].
  apply getAttribute_setAttribute_ne. by right.
Qed.

Lemma preserves_removeAttribute_other s n v (m : nat) (name : string) :
  name <> "open" ->
  preserves (panel_shows s n v) (modify_dom (removeAttribute m name)).
Proof.
  intros Hne. apply preserves_modify. intros w Hw.
  apply panel_shows_set_dom; [done|].
  apply getAttribute_removeAttribute_ne. by right.
Qed.

(** A change of [this] that keeps [state] and [node]. *)
Lemma preserves_modify_this s n v (f : PanelComponent -> PanelComponent) :
  (forall p, state (f p) = state p /\ node (f p) = node p) ->
  preserves (panel_shows s n v) (modify_this f).
Proof.
  intros Hf. apply preserves_modify. intros w (Hs & Hn & Hv).
  destruct (Hf (this w)) as (Hs' & Hn').
  split; [simpl; congruence|]. split; [simpl; congruence|exact Hv].
Qed.

(** A change of the world that keeps [this] and the DOM. *)
Lemma preserves_modify_other s n v (f : World -> World) :
  (forall w, this (f w) = this w /\ dom (f w) = dom w) ->
  preserves (panel_shows s n v) (modify f).
Proof.
  intros Hf. apply preserves_modify. intros w (Hs & Hn & Hv).
  destruct (Hf w) as [Ht Hd]. unfold panel_shows. by rewrite Ht, Hd.
Qed.

Lemma preserves_dom_move s n v (f : Dom -> outcome Dom) :
  (forall d d', f d = Ret d' -> attributes d' = attributes d) ->
  preserves (panel_shows s n v) (dom_call f).
Proof.
  intros Hf. apply preserves_dom_call. intros w d Hw Hd.
  apply panel_shows_set_dom; [done|].
  by apply getAttribute_attributes, Hf.
Qed.

(** What [dismount] saved stays as it is, or is forgotten. *)
Lemma saved_modify (f : World -> World) :
  (forall w, _originalAttributes (this (f w)) = _originalAttributes (this w) \/
             _originalAttributes (this (f w)) = None) ->
  preserves saved_style_only (modify f).
Proof.
  intros Hf. apply preserves_modify. intros w Hsaved saved.
  destruct (Hf w) as [-> | ->]; [apply Hsaved|discriminate].
Qed.

Lemma saved_dom_call (f : Dom -> outcome Dom) :
  preserves saved_style_only (dom_call f).
Proof. apply preserves_dom_call. intros w d Hsaved _. exact Hsaved. Qed.

(** One step through a method, by the shape of the method. *)
Ltac leaf :=
  lazymatch goal with
  | |- preserves (panel_shows _ _ _) (modify_dom (setAttribute _ _ _)) =>
      apply preserves_setAttribute_other; discriminate
  | |- preserves (panel_shows _ _ _) (modify_dom (removeAttribute _ _)) =>
      apply preserves_removeAttribute_other; discriminate
  | |- preserves (panel_shows _ _ _) (modify_this _) =>
      apply preserves_modify_this; intros ?; by split
  | |- preserves (panel_shows _ _ _) (modify _) =>
      apply preserves_modify_other; intros ?; by split
  | |- preserves (panel_shows _ _ _) (dom_call _) =>
      apply preserves_dom_move; intros ? ?;
        first [apply attributes_insertBefore | apply attributes_removeChild]
  | |- preserves saved_style_only (dom_call _) => apply saved_dom_call
  | |- preserves saved_style_only _ => apply saved_modify; intros ?; by auto
  | |- preserves (closed_inv _) _ => apply preserves_closed_inv; leaf
  end.

Ltac step :=
  lazymatch goal with
  | |- preserves _ (mbind _ get) => apply preserves_get; intros ? ?
  | |- preserves _ (mbind _ _) => apply preserves_bind; [|intros ?]
  | |- preserves _ (mret _) => apply preserves_ret
  | |- preserves _ (deref _) => apply preserves_deref
  | |- preserves _ (when _ _) => apply preserves_when
  | |- _ => leaf
  end.

Lemma setOverflowingAttributes_preserves s n v :
  preserves (panel_shows s n v) (Panel.setOverflowingAttributes browser).
Proof.
  unfold Panel.setOverflowingAttributes, Panel.getWidth, Panel.getHeight,
    Panel.record_overflowing.
  repeat step.
  all: apply preserves_modify_this; intros p; destruct (overflowing p); by auto.
Qed.

Lemma setOverflowingAttributes_returns :
  returns (Panel.setOverflowingAttributes browser).
Proof.
  unfold Panel.setOverflowingAttributes, Panel.getWidth, Panel.getHeight,
    Panel.record_overflowing.
  repeat lazymatch goal with
         | |- returns (mbind _ _) => apply returns_bind; [|intros ?]
         | |- returns get => apply returns_get
         | |- returns (mret _) => apply returns_ret
         | |- returns (when _ _) => apply returns_when
         | |- returns (modify_dom _) => apply returns_modify
         | |- returns (modify_this _) => apply returns_modify
         end.
Qed.

Lemma unbind_preserves n (l : nat) :
  preserves (closed_inv n) (Panel.unbind l).
Proof. unfold Panel.unbind. step. Qed.

Lemma removeListeners_preserves n (namespace : string) :
  preserves (closed_inv n) (Panel.removeListeners namespace).
Proof.
  unfold Panel.removeListeners. repeat step.
  apply preserves_forEach, Forall_forall. intros l _. apply unbind_preserves.
Qed.

Lemma removeOverflowingAttributes_preserves n :
  preserves (closed_inv n) Panel.removeOverflowingAttributes.
Proof.
  unfold Panel.removeOverflowingAttributes. repeat step.
  apply preserves_forEach, Forall_forall. intros key _.
  apply preserves_closed_inv; [|unfold modify_dom; apply saved_modify; intros ?; by auto].
  apply preserves_removeAttribute_other, overflowing_name_not_open.
Qed.

Lemma mount_preserves n :
  preserves (closed_inv n) Panel.mount.
Proof.
  unfold Panel.mount. apply preserves_get. intros w0 Hw0.
  apply preserves_bind.
  { apply preserves_forEach.
    destruct Hw0 as (_ & Hsaved). unfold saved_style_only in Hsaved.
    destruct (_originalAttributes (this w0)) as [saved|]; [|constructor].
    specialize (Hsaved saved eq_refl). simpl.
    eapply Forall_impl; [exact Hsaved|].
    intros [key [val|]] Hkey; simpl in Hkey; subst key; step. }
  intros _. apply preserves_get. intros w1 Hw1.
  apply preserves_bind.
  { destruct (match _avatar (this w1) with Some a => _ | None => _ end); repeat step. }
  intros _. apply preserves_get. intros w2 Hw2.
  apply preserves_bind.
  { destruct (_avatar (this w2)); repeat step. }
  intros _. apply preserves_bind; [apply removeListeners_preserves|].
  intros _. repeat step.
Qed.

Lemma call_hook_preserves n (name : string) :
  preserves (closed_inv n) (Panel.call_hook name).
Proof. unfold Panel.call_hook. step. Qed.

Lemma open_rest_preserves s n v :
  preserves (panel_shows s n v) (Panel.open_rest browser).
Proof.
  unfold Panel.open_rest. apply preserves_bind;
    [apply setOverflowingAttributes_preserves|intros _].
  unfold Panel.setTimeout. step.
Qed.

Lemma open_rest_returns : returns (Panel.open_rest browser).
Proof.
  unfold Panel.open_rest. apply returns_bind;
    [apply setOverflowingAttributes_returns|intros _; apply returns_modify].
Qed.

(** What [close] does once it has set the state and removed the
    attribute. *)
Lemma close_open (w : World) :
  state (this w) = Open ->
  Panel.close cls w =
  (when (bool_decide (_isDismounted (this w) = Some true)) Panel.mount ;;
   Panel.removeOverflowingAttributes ;;
   when (onClose cls) (Panel.call_hook "onClose") ;;
   Panel.removeListeners LISTENER_NAMESPACES.OPENING)
    (set_dom (removeAttribute (node (this w)) "open" (dom w))
       (set_this (set_state Closed (this w)) w)).
Proof.
  intros Hopen. unfold Panel.close, Panel.isClosed.
  cbv [mbind M_bind get mret M_ret]. rewrite Hopen. reflexivity.
Qed.

Lemma close_closed (w : World) :
  state (this w) = Closed -> Panel.close cls w = (w, Ret tt).
Proof.
  intros Hclosed. unfold Panel.close, Panel.isClosed.
  cbv [mbind M_bind get mret M_ret]. rewrite Hclosed. reflexivity.
Qed.

Lemma open_open (params : option IDismountingParams) (w : World) :
  state (this w) = Open -> Panel.open cls browser params w = (w, Ret tt).
Proof.
  intros Hopen. unfold Panel.open, Panel.isOpen.
  cbv [mbind M_bind get mret M_ret]. rewrite Hopen. reflexivity.
Qed.

Lemma close_leaves_closed (w : World) :
  state (this w) = Open -> saved_style_only w ->
  panel_shows Closed (node (this w)) None (Panel.close cls w).1.
Proof.
  intros Hopen Hsaved. rewrite (close_open w Hopen).
  match goal with |- panel_shows _ _ _ (?m ?w0).1 =>
    cut (preserves (closed_inv (node (this w))) m);
      [intros Hm; apply Hm|] end.
  - split; [|exact Hsaved]. split; [reflexivity|]. split; [reflexivity|].
    apply getAttribute_removeAttribute_eq.
  - apply preserves_bind; [apply preserves_when, mount_preserves|intros _].
    apply preserves_bind; [apply removeOverflowingAttributes_preserves|intros _].
    apply preserves_bind; [apply preserves_when, call_hook_preserves|intros _].
    apply removeListeners_preserves.
Qed.

(** [dismount] does not change which node the panel manages. *)
Lemma dismount_keeps_node (n : nat) (params : IDismountingParams) :
  preserves (fun w => node (this w) = n) (Panel.dismount browser params).
Proof.
  assert (Hmod : forall f : World -> World,
             (forall w, node (this (f w)) = node (this w)) ->
             preserves (fun w => node (this w) = n) (modify f)).
  { intros f Hf. apply preserves_modify. intros w Hw. by rewrite Hf. }
  assert (Hthis : forall f : PanelComponent -> PanelComponent,
             (forall p, node (f p) = node p) ->
             preserves (fun w => node (this w) = n) (modify_this f)).
  { intros f Hf. apply Hmod. intros w. apply Hf. }
  assert (Hdom : forall f : Dom -> Dom,
             preserves (fun w => node (this w) = n) (modify_dom f)).
  { intros f. by apply Hmod. }
  assert (Hcall : forall f : Dom -> outcome Dom,
             preserves (fun w => node (this w) = n) (dom_call f)).
  { intros f. apply preserves_dom_call. by intros w d Hw _. }
  assert (Hadd : forall ns elem type h c,
             preserves (fun w => node (this w) = n) (Panel.addListener ns elem type h c)).
  { intros ns elem type h c. unfold Panel.addListener.
    apply preserves_bind; [apply Hthis; intros p; by destruct (_listeners p)|intros _].
    apply preserves_bind;
      [apply Hthis; intros p; by destruct (default ∅ (_listeners p) !! ns)|intros _].
    apply preserves_bind; [by intros w Hw|intros l]. by apply Hthis. }
  unfold Panel.dismount, Panel.style_set, Panel.getWidth, Panel.getHeight.
  apply preserves_get. intros w0 _.
  apply preserves_bind.
  { destruct (param_avatar params); [apply preserves_ret|].
    intros w Hw. by destruct (cloneNode (dom w) (node (this w0))). }
  intros avatar.
  repeat lazymatch goal with
         | |- preserves _ (mbind _ get) => apply preserves_get; intros ? _
         | |- preserves _ (mbind _ _) => apply preserves_bind; [|intros ?]
         | |- preserves _ (deref _) => apply preserves_deref
         | |- preserves _ (mret _) => apply preserves_ret
         | |- preserves _ (Panel.addListener _ _ _ _ _) => apply Hadd
         | |- preserves _ (modify_dom _) => apply Hdom
         | |- preserves _ (dom_call _) => apply Hcall
         | |- preserves _ (modify_this _) => apply Hthis; by intros ?
         end.
Qed.

Lemma open_rest_run (s : PanelComponentStates) (n : nat) (v : option string)
    (w : World) :
  panel_shows s n v w ->
  exists w', Panel.open_rest browser w = (w', Ret tt) /\ panel_shows s n v w' /\
             exists ts, timers w' = ts ++ [TaskListenOpening].
Proof.
  intros Hw. unfold Panel.open_rest. rewrite run_bind.
  rewrite (returns_unit _ w setOverflowingAttributes_returns).
  eexists. split; [reflexivity|]. split; [|by eexists].
  apply (setOverflowingAttributes_preserves s n v) in Hw.
  destruct Hw as (? & ? & ?). by repeat split.
Qed.

(** A call of [open] on a closed panel that returns: after the optional
    dismounting the panel is open with the attribute set, and the call
    ends with the rest of [open] or with scheduling it. *)
Lemma open_closed_steps (params : option IDismountingParams) (w w' : World) :
  state (this w) = Closed ->
  Panel.open cls browser params w = (w', Ret tt) ->
  exists w3, panel_shows Open (node (this w)) (Some "true") w3 /\
    (if postponeOverflowCalculating cls then Panel.setTimeout TaskResumeOpen
     else Panel.open_rest browser) w3 = (w', Ret tt).
Proof.
  intros Hclosed Hopen. unfold Panel.open, Panel.isOpen in Hopen.
  apply run_bind_Ret in Hopen as (o & w0 & Hget & Hopen).
  injection Hget as <- <-. rewrite Hclosed in Hopen. simpl in Hopen.
  apply run_bind_Ret in Hopen as ([] & w1 & Hdismount & Hopen).
  assert (Hn : node (this w1) = node (this w)).
  { destruct (isDismountingNeeded cls); simpl in Hdismount.
    - change w1 with (w1, Ret tt : outcome unit).1. rewrite <- Hdismount.
      by apply dismount_keeps_node.
    - by injection Hdismount as <-. }
  set (w2 := set_dom (setAttribute (node (this w)) "open" "true" (dom w1))
               (set_this (set_state Open (this w1)) w1)).
  assert (Hw2 : panel_shows Open (node (this w)) (Some "true") w2).
  { split; [reflexivity|]. split; [exact Hn|]. apply getAttribute_setAttribute_eq. }
  exists (when (onOpen cls) (Panel.call_hook "onOpen") w2).1. split.
  - destruct (onOpen cls); [|exact Hw2]. destruct Hw2 as (? & ? & ?). by repeat split.
  - rewrite <- Hopen. cbv [mbind M_bind modify_this modify modify_dom get]. simpl.
    rewrite Hn. fold w2. by destruct (onOpen cls).
Qed.

Lemma open_closed_returns (params : option IDismountingParams) (w : World) :
  state (this w) = Closed -> isDismountingNeeded cls = false ->
  exists w', Panel.open cls browser params w = (w', Ret tt).
Proof.
  intros Hclosed Hno. unfold Panel.open, Panel.isOpen.
  cbv [mbind M_bind get mret M_ret modify_this modify modify_dom].
  rewrite Hclosed, Hno. simpl.
  destruct (onOpen cls); simpl.
  all: destruct (postponeOverflowCalculating cls); [by eexists|].
  all: rewrite (returns_unit _ _ open_rest_returns); by eexists.
Qed.

(** C1. A call of [open] on a closed panel that returns leaves the panel
    open with [open="true"] on its node; without dismounting the call
    always returns; the part of [open] that a postponing subclass runs
    later returns and changes neither the state nor the attribute. [close]
    on an open panel leaves it closed and the node without [open]
    attribute. [open] on an open panel and [close] on a closed one change
    nothing. *)
Theorem open_close_state (params : option IDismountingParams) (w : World) :
  let n := node (this w) in
  (state (this w) = Closed ->
   forall w', Panel.open cls browser params w = (w', Ret tt) ->
   panel_shows Open n (Some "true") w') /\
  (state (this w) = Closed -> isDismountingNeeded cls = false ->
   exists w', Panel.open cls browser params w = (w', Ret tt)) /\
  (exists w', Panel.open_rest browser w = (w', Ret tt) /\
     state (this w') = state (this w) /\ node (this w') = n /\
     getAttribute (dom w') n "open" = getAttribute (dom w) n "open") /\
  (state (this w) = Open -> saved_style_only w ->
   panel_shows Closed n None (Panel.close cls w).1) /\
  (state (this w) = Open -> Panel.open cls browser params w = (w, Ret tt)) /\
  (state (this w) = Closed -> Panel.close cls w = (w, Ret tt)).
Proof.
  intros n.
  split; [|split; [|split; [|split; [|split]]]].
  - intros Hclosed w' Hopen.
    destruct (open_closed_steps params w w' Hclosed Hopen) as (w3 & Hw3 & Hend).
    destruct (postponeOverflowCalculating cls).
    + injection Hend as <-. destruct Hw3 as (? & ? & ?). by repeat split.
    + destruct (open_rest_run _ _ _ w3 Hw3) as (w'' & Hrun & Hshows & _).
      rewrite Hrun in Hend. injection Hend as <-. exact Hshows.
  - apply open_closed_returns.
  - destruct (open_rest_run (state (this w)) n (getAttribute (dom w) n "open") w)
      as (w' & Hrun & (Hs & Hn & Hv) & _); [by repeat split|]. eauto.
  - apply close_leaves_closed.
  - apply open_open.
  - apply close_closed.
Qed.

End StateFacts.

(** C1 on the small page: [open] then [close] of the plain panel. *)
Lemma open_close_state_example :
  let w1 := (Panel.open base_class example_browser None example_world).1 in
  panel_shows Open 3 (Some "true") w1 /\
  panel_shows Closed 3 None (Panel.close base_class w1).1.
Proof.
  intros w1. split.
  - destruct (open_close_state base_class example_browser None example_world)
      as (Hopen & _).
    apply Hopen; [reflexivity|]. subst w1. vm_compute. reflexivity.
  - destruct (open_close_state base_class example_browser None w1)
      as (_ & _ & _ & Hclose & _).
    apply Hclose; [reflexivity|].
    intros saved Hsaved. vm_compute in Hsaved. discriminate Hsaved.
Defined.

(** ** The panel: dismissal by pointerup *)

Lemma forEach_unbind (arr : list nat) (w : World) :
  (forEach Panel.unbind arr w).2 = Ret tt /\
  (forall b, b ∈ bound (forEach Panel.unbind arr w).1 <-> (b.1 ∉ arr) /\ (b ∈ bound w)) /\
  this (forEach Panel.unbind arr w).1 = this w /\
  dom (forEach Panel.unbind arr w).1 = dom w.
Proof.
  revert w. induction arr as [|l arr IH]; intros w.
  - split; [reflexivity|]. split; [|by split].
    intros b. simpl. split; [intros Hb; split; [apply not_elem_of_nil|exact Hb]|by intros [_ Hb]].
  - simpl. rewrite run_bind. unfold Panel.unbind at 1 3 5 7, modify. 
    destruct (IH (set_bound (filter (λ b, b.1 ≠ l) (bound w)) w)) as (Hret & Hbound & Hthis & Hdom).
    split; [exact Hret|]. split; [|by split].
    intros b. rewrite Hbound. simpl. rewrite list_elem_of_filter, not_elem_of_cons.
    tauto.
Qed.

(** A field of the world that a step does not write. *)
Lemma field_modify {T} (proj : World -> T) (X : T) (f : World -> World) :
  (forall w, proj (f w) = proj w) -> preserves (fun w => proj w = X) (modify f).
Proof. intros Hf. apply preserves_modify. intros w Hw. by rewrite Hf. Qed.

Lemma field_dom_call {T} (proj : World -> T) (X : T) (f : Dom -> outcome Dom) :
  (forall w d, proj (set_dom d w) = proj w) ->
  preserves (fun w => proj w = X) (dom_call f).
Proof. intros Hf. apply preserves_dom_call. intros w d Hw _. by rewrite Hf. Qed.

Ltac field_step :=
  lazymatch goal with
  | |- preserves _ (mbind _ get) => apply preserves_get; intros ? _
  | |- preserves _ (mbind _ _) => apply preserves_bind; [|intros ?]
  | |- preserves _ (mret _) => apply preserves_ret
  | |- preserves _ (deref _) => apply preserves_deref
  | |- preserves _ (when _ _) => apply preserves_when
  | |- preserves _ (forEach _ _) => apply preserves_forEach, Forall_forall; intros ? _
  | |- preserves _ (dom_call _) => apply field_dom_call; reflexivity
  | |- preserves _ (modify_dom _) => apply field_modify; reflexivity
  | |- preserves _ (modify_this _) => apply field_modify; reflexivity
  | |- preserves _ (modify _) => apply field_modify; reflexivity
  | |- preserves _ (match ?x with _ => _ end) => destruct x
  end.

Lemma preserves_run {A} (P : World -> Prop) (m : M A) (w w' : World) (r : outcome A) :
  preserves P m -> m w = (w', r) -> P w -> P w'.
Proof. intros Hm Hrun Hw. apply Hm in Hw. by rewrite Hrun in Hw. Qed.

Section DismissalFacts.
Variable cls : PanelClass.
Variable browser : Browser.



Lemma removeOverflowingAttributes_returns : returns Panel.removeOverflowingAttributes.
Proof.
  unfold Panel.removeOverflowingAttributes.
  repeat lazymatch goal with
         | |- returns (mbind _ _) => apply returns_bind; [|intros ?]
         | |- returns get => apply returns_get
         | |- returns (forEach _ _) => apply returns_forEach; intros ?
         | |- returns (modify_dom _) => apply returns_modify
         end.
Qed.

Lemma removeListeners_run (namespace : string) (w : World)
    (ls : gmap string (list nat)) (arr : list nat) :
  _listeners (this w) = Some ls -> ls !! namespace = Some arr ->
  Panel.removeListeners namespace w = forEach Panel.unbind arr w.
Proof.
  intros Hls Harr. unfold Panel.removeListeners.
  cbv [mbind M_bind get]. rewrite Hls. simpl. by rewrite Harr.
Qed.












End DismissalFacts.



(** ** Lists of children *)

Lemma after_middle (n : nat) (l1 l2 : list nat) :
  n ∉ l1 -> after n (l1 ++ n :: l2) = head l2.
Proof.
  induction l1 as [|x l1 IH]; intros Hn; simpl.
  - by rewrite decide_True.
  - apply not_elem_of_cons in Hn as [Hne Hn].
    rewrite decide_False by done. by apply IH.
Qed.

Lemma filter_absent (n : nat) (l : list nat) :
  n ∉ l -> filter (λ x, x ≠ n) l = l.
Proof.
  induction l as [|x l IH]; intros Hn; [reflexivity|].
  apply not_elem_of_cons in Hn as [Hne Hn].
  rewrite filter_cons_True by congruence. f_equal. by apply IH.
Qed.

Lemma filter_middle (n : nat) (l1 l2 : list nat) :
  n ∉ l1 -> n ∉ l2 -> filter (λ x, x ≠ n) (l1 ++ n :: l2) = l1 ++ l2.
Proof.
  intros H1 H2. rewrite filter_app, filter_cons_False by (intros H; by apply H).
  by rewrite !filter_absent.
Qed.

Lemma insert_before_end (n : nat) (ref : option nat) (l : list nat) :
  (forall h, ref = Some h -> h ∉ l) -> insert_before n ref l = l ++ [n].
Proof.
  intros Href. induction l as [|x l IH]; [reflexivity|]. simpl.
  rewrite decide_False.
  - f_equal. apply IH. intros h Hh. specialize (Href h Hh).
    by apply not_elem_of_cons in Href as [_ ?].
  - intros Hx. apply (Href x Hx). by left.
Qed.

Lemma insert_before_middle (n h : nat) (l1 l2 : list nat) :
  h ∉ l1 -> insert_before n (Some h) (l1 ++ h :: l2) = l1 ++ n :: h :: l2.
Proof.
  induction l1 as [|x l1 IH]; intros Hh; simpl.
  - by rewrite decide_True.
  - apply not_elem_of_cons in Hh as [Hne Hh].
    rewrite decide_False by congruence. f_equal. by apply IH.
Qed.

(** Putting [n] before the head of [l2], after [l1]. *)
Lemma insert_before_head (n : nat) (l1 l2 : list nat) :
  NoDup (l1 ++ l2) -> insert_before n (head l2) (l1 ++ l2) = l1 ++ n :: l2.
Proof.
  intros Hnd. destruct l2 as [|h l2]; simpl.
  - rewrite app_nil_r. by apply insert_before_end.
  - apply insert_before_middle. apply NoDup_app in Hnd as (_ & Hnd & _).
    intros Hh. apply (Hnd h Hh). by left.
Qed.

(** ** Ancestors *)

Lemma inclusive_ancestors_agree (fuel : nat) (d d' : Dom) (y : nat) :
  (forall z, z ∈ inclusive_ancestors fuel d y -> parentNode d' !! z = parentNode d !! z) ->
  inclusive_ancestors fuel d' y = inclusive_ancestors fuel d y.
Proof.
  revert y. induction fuel as [|fuel IH]; intros y Hagree; [reflexivity|].
  simpl in *. rewrite (Hagree y) by by left.
  destruct (parentNode d !! y) as [q|]; [|reflexivity].
  f_equal. apply IH. intros z Hz. apply Hagree. by right.
Qed.

(** A chain that reaches a node without parent is complete: more fuel
    does not lengthen it. *)
Lemma inclusive_ancestors_complete (fuel k : nat) (d : Dom) (r y : nat) :
  r ∈ inclusive_ancestors fuel d y -> parentNode d !! r = None ->
  inclusive_ancestors (fuel + k) d y = inclusive_ancestors fuel d y.
Proof.
  revert y. induction fuel as [|fuel IH]; intros y Hr Hroot; simpl in *.
  - apply list_elem_of_singleton in Hr as ->.
    destruct k; simpl; [reflexivity|]. by rewrite Hroot.
  - destruct (parentNode d !! y) as [q|] eqn:Hq; [|reflexivity].
    apply elem_of_cons in Hr as [->|Hr]; [congruence|].
    f_equal. by apply IH.
Qed.

Lemma inclusive_ancestors_bounded (fuel N : nat) (d : Dom) (y : nat) :
  (y < N)%nat ->
  map_Forall (λ z q, (q < N)%nat) (parentNode d) ->
  Forall (λ x, (x < N)%nat) (inclusive_ancestors fuel d y).
Proof.
  intros Hy Hd. revert y Hy. induction fuel as [|fuel IH]; intros y Hy; simpl.
  - by repeat constructor.
  - constructor; [exact Hy|].
    destruct (parentNode d !! y) as [q|] eqn:Hq; [|constructor].
    apply IH. by apply (Hd y q).
Qed.

(** ** cloneNode *)

Lemma agree_below_refl (N : nat) (d : Dom) : agree_below N d d.
Proof. by repeat split. Qed.

Lemma agree_below_trans (N N' : nat) (d d' d'' : Dom) :
  (N <= N')%nat -> agree_below N d d' -> agree_below N' d' d'' -> agree_below N d d''.
Proof.
  intros Hle [H1 (Hr1 & Hb1)] [H2 (Hr2 & Hb2)]. split; [|split; congruence].
  intros z Hz. destruct (H1 z Hz) as (? & ? & ?).
  destruct (H2 z ltac:(lia)) as (? & ? & ?). repeat split; congruence.
Qed.

(** The copy is the first unused node; the nodes that were there are
    untouched, the copy has no new parent, and it has the attributes of
    the original. *)
Lemma cloneNode_deep_spec (fuel : nat) (d : Dom) (n : nat) :
  let d' := (cloneNode_deep fuel d n).1 in
  (cloneNode_deep fuel d n).2 = next_node d /\
  (next_node d < next_node d')%nat /\
  agree_below (next_node d) d d' /\
  parentNode d' !! next_node d = parentNode d !! next_node d /\
  attributes d' !! next_node d = Some (attrs_of d n).
Proof.
  revert d n. induction fuel as [|fuel IH]; intros d n.
  - simpl. split; [reflexivity|]. split; [lia|]. split; [|split; [reflexivity|]].
    + split; [|by split]. intros z Hz. simpl. split; [reflexivity|].
      split; [reflexivity|]. apply lookup_insert_ne. lia.
    + simpl. apply lookup_insert_eq.
  - simpl.
    set (c := next_node d).
    set (d1 := mkDom (parentNode d) (childNodes d)
                 (<[c := attrs_of d n]> (attributes d)) (S c)
                 (documentElement d) (body d)).
    set (step := fun '(d', acc) k =>
                   let '(d'', k') := cloneNode_deep fuel d' k in
                   (set_parentNode (<[k' := c]>) d'', acc ++ [k'])).
    assert (Hfold : forall kids d0 acc,
              (next_node d1 <= next_node d0)%nat -> agree_below (next_node d1) d1 d0 ->
              let r := foldl step (d0, acc) kids in
              (next_node d1 <= next_node r.1)%nat /\ agree_below (next_node d1) d1 r.1).
    { induction kids as [|k kids IHk]; intros d0 acc Hle Hagree; [by split|].
      simpl. destruct (IH d0 k) as (Hc & Hlt & Hag & _).
      destruct (cloneNode_deep fuel d0 k) as [d'' k'] eqn:Hclone. simpl in *. subst k'.
      apply IHk.
      - simpl. lia.
      - eapply agree_below_trans; [exact Hle|exact Hagree|].
        destruct Hag as [Hag Hrb]. split; [|exact Hrb].
        intros z Hz. destruct (Hag z Hz) as (Hp & Hrest). split; [|exact Hrest].
        simpl. rewrite lookup_insert_ne by lia. exact Hp. }
    specialize (Hfold (children_of d n) d1 [] (le_n _) (agree_below_refl _ _)).
    destruct (foldl step (d1, []) (children_of d n)) as [d2 kids] eqn:Hd2.
    simpl in Hfold. destruct Hfold as [Hle [Hag (Hr & Hb)]].
    simpl. split; [reflexivity|]. split; [lia|].
    assert (Hc : forall z, (z <= c)%nat ->
              parentNode d2 !! z = parentNode d !! z /\
              attributes d2 !! z = attributes d1 !! z).
    { intros z Hz. destruct (Hag z ltac:(simpl; lia)) as (? & _ & ?). by split. }
    split; [|split].
    + split; [|split; simpl; [by rewrite Hr|by rewrite Hb]].
      intros z Hz. destruct (Hag z ltac:(simpl; lia)) as (Hp & Hk & Ha).
      simpl in *. split; [exact Hp|]. split.
      * rewrite lookup_insert_ne by (unfold c; lia). exact Hk.
      * rewrite Ha. apply lookup_insert_ne. unfold c. lia.
    + apply (Hc c (le_n _)).
    + simpl. destruct (Hc c (le_n _)) as [_ ->]. simpl. apply lookup_insert_eq.
Qed.

(** ** Moving nodes: what [detach], [insertBefore] and [removeChild] do *)

Lemma children_of_insert (d : Dom) (k z : nat) (l : list nat) :
  children_of (set_childNodes (<[k := l]>) d) z =
  if decide (z = k) then l else children_of d z.
Proof.
  unfold children_of. simpl. case_decide as Hz.
  - subst. by rewrite lookup_insert_eq.
  - by rewrite lookup_insert_ne.
Qed.

Lemma children_of_detach (node : nat) (d : Dom) (z : nat) :
  children_of (detach node d) z =
  match parentNode d !! node with
  | Some q => if decide (z = q) then filter (λ x, x ≠ node) (children_of d q)
              else children_of d z
  | None => children_of d z
  end.
Proof.
  unfold detach. destruct (parentNode d !! node) as [q|]; [|reflexivity].
  apply (children_of_insert d q z).
Qed.

Lemma parentNode_detach (node : nat) (d : Dom) (z : nat) :
  parentNode (detach node d) !! z =
  if decide (z = node) then None else parentNode d !! z.
Proof.
  unfold detach. destruct (parentNode d !! node) as [q|] eqn:Hq; simpl.
  - case_decide as Hz; [subst; apply lookup_delete_eq|by apply lookup_delete_ne].
  - case_decide as Hz; [by subst|reflexivity].
Qed.

Lemma detach_constants (node : nat) (d : Dom) :
  next_node (detach node d) = next_node d /\
  documentElement (detach node d) = documentElement d /\
  body (detach node d) = body d.
Proof. unfold detach. by destruct (parentNode d !! node). Qed.

(** [insertBefore] when its two checks pass. *)
Lemma insertBefore_checked (parent node : nat) (child : option nat) (d : Dom) :
  contains d node parent = false ->
  (forall c, child = Some c -> c ∈ children_of d parent) ->
  exists d', insertBefore parent node child d = Ret d' /\
    next_node d' = next_node d /\ documentElement d' = documentElement d /\
    body d' = body d /\
    (forall z, parentNode d' !! z =
               if decide (z = node) then Some parent else parentNode d !! z) /\
    (forall z, children_of d' z =
               if decide (z = parent)
               then insert_before node
                      (if decide (child = Some node) then nextSibling d node else child)
                      (children_of (detach node d) parent)
               else children_of (detach node d) z).
Proof.
  intros Hanc Hchild. unfold insertBefore. rewrite Hanc.
  replace (match child with Some c => _ | None => false end) with false.
  2: { destruct child as [c|]; [|reflexivity]. symmetry.
       apply bool_decide_eq_false_2. intros Hc. by apply Hc, Hchild. }
  eexists. split; [reflexivity|].
  destruct (detach_constants node d) as (HN & Hr & Hb).
  split; [exact HN|]. split; [exact Hr|]. split; [exact Hb|]. split.
  - intros z. simpl. case_decide as Hz.
    + subst. apply lookup_insert_eq.
    + rewrite lookup_insert_ne by done. rewrite parentNode_detach.
      by rewrite decide_False.
  - intros z. apply (children_of_insert (detach node d) parent z).
Qed.

Lemma removeChild_checked (parent child : nat) (d : Dom) :
  parentNode d !! child = Some parent ->
  exists d', removeChild parent child d = Ret d' /\
    next_node d' = next_node d /\ documentElement d' = documentElement d /\
    body d' = body d /\
    (forall z, parentNode d' !! z =
               if decide (z = child) then None else parentNode d !! z) /\
    (forall z, children_of d' z =
               if decide (z = parent)
               then filter (λ x, x ≠ child) (children_of d parent)
               else children_of d z).
Proof.
  intros Hparent. unfold removeChild.
  rewrite bool_decide_eq_true_2 by done.
  eexists. split; [reflexivity|].
  destruct (detach_constants child d) as (HN & Hr & Hb).
  split; [exact HN|]. split; [exact Hr|]. split; [exact Hb|]. split.
  - apply parentNode_detach.
  - intros z. rewrite children_of_detach, Hparent. by case_decide; subst.
Qed.

(** ** Dismount and mount: the node's way through the tree *)

Lemma stage_same_structure (d : Dom) (n p : nat) (pn pa : option nat)
    (Lp Lb : list nat) (d1 d2 : Dom) :
  parentNode d2 = parentNode d1 -> childNodes d2 = childNodes d1 ->
  next_node d2 = next_node d1 -> documentElement d2 = documentElement d1 ->
  body d2 = body d1 ->
  stage d n p pn pa Lp Lb d1 -> stage d n p pn pa Lp Lb d2.
Proof.
  intros Hpm Hcm HN Hr Hb. unfold stage, children_of.
  by rewrite Hpm, Hcm, HN, Hr, Hb.
Qed.

Section Roundtrip.
Variables (d : Dom) (n p : nat) (l1 l2 : list nat).
Hypothesis Hwf : dom_wf d.
Hypothesis Hp : parentNode d !! n = Some p.
Hypothesis Hkids : children_of d p = l1 ++ n :: l2.
Hypothesis Hatt : contains d (documentElement d) p = true.
Hypothesis Hbody : contains d n (body d) = false.

Local Abbreviation a := (next_node d).
Local Abbreviation b := (body d).
Local Abbreviation lb := (children_of d (body d)).

Lemma children_facts (q : nat) (l : list nat) :
  children_of d q = l -> l <> [] ->
  NoDup l /\ Forall (λ c, (c < a)%nat /\ parentNode d !! c = Some q) l.
Proof.
  intros Hl Hne. unfold children_of in Hl.
  destruct (childNodes d !! q) as [l'|] eqn:Hq; simpl in Hl; [subst l'|congruence].
  destruct Hwf as ((_ & Hbounded & _) & (_ & Hlinked) & _).
  destruct (Hbounded q l Hq) as [_ Hlt]. destruct (Hlinked q l Hq) as [Hnd Hpar].
  split; [exact Hnd|]. apply Forall_and. by split.
Qed.

Lemma node_facts :
  (n < a)%nat /\ (p < a)%nat /\ (b < a)%nat /\ (documentElement d < a)%nat /\
  a <> n /\ a <> p /\ a <> b /\
  (n ∉ l1) /\ (n ∉ l2) /\ (a ∉ l1) /\ (a ∉ l2) /\ NoDup (l1 ++ l2) /\
  NoDup lb /\ (a ∉ lb) /\ (p <> b -> n ∉ lb) /\
  parentNode d !! a = None /\
  map_Forall (λ z q, (q < a)%nat) (parentNode d).
Proof.
  pose proof Hwf as ((Hpar & _ & _ & Hr & Hb) & _).
  destruct (Hpar n p Hp) as [Hn Hpa].
  destruct (children_facts p (l1 ++ n :: l2) Hkids) as [Hnd Hall];
    [by destruct l1|].
  apply NoDup_app in Hnd as (Hnd1 & Hdisj & Hnd2).
  apply NoDup_cons in Hnd2 as [Hn2 Hnd2].
  apply Forall_app in Hall as [Hall1 Hall2].
  apply Forall_cons in Hall2 as [_ Hall2].
  assert (Hfresh : forall l, Forall (λ c, (c < a)%nat /\ parentNode d !! c = Some p) l -> a ∉ l).
  { intros l Hl Ha. eapply Forall_forall in Hl as [Hlt _]; [|exact Ha]. lia. }
  assert (Hlb : NoDup lb /\ (a ∉ lb) /\ (p <> b -> n ∉ lb)).
  { destruct (decide (lb = [])) as [->|Hne].
    - split; [constructor|]. split; [apply not_elem_of_nil|intros _; apply not_elem_of_nil].
    - destruct (children_facts b lb eq_refl Hne) as [Hndb Hallb].
      split; [exact Hndb|]. split.
      + intros Ha. eapply Forall_forall in Hallb as [Hlt _]; [|exact Ha]. lia.
      + intros Hpb Hin. eapply Forall_forall in Hallb as [_ Hpar']; [|exact Hin].
        congruence. }
  destruct Hlb as (Hlb1 & Hlb2 & Hlb3).
  repeat split; try lia; try done.
  - intros H1. apply (Hdisj n H1). by left.
  - by apply Hfresh.
  - by apply Hfresh.
  - apply NoDup_app. split; [exact Hnd1|]. split; [|exact Hnd2].
    intros x Hx1 Hx2. apply (Hdisj x Hx1). by right.
  - destruct (parentNode d !! a) as [q|] eqn:Hq; [|reflexivity].
    destruct (Hpar a q Hq). lia.
  - intros z q Hq. by destruct (Hpar z q Hq).
Qed.

Ltac node_facts_as :=
  destruct node_facts as (Hn_lt & Hp_lt & Hb_lt & Hr_lt & Han & Hap & Hab & Hn1 & Hn2
                          & Ha1 & Ha2 & Hnd & Hndb & Halb & Hnlb & Hpa & Hlt).

(** The chain above a node of the document that is not below the panel's
    node is the same in every store the node's way leads through. *)
Lemma chain_kept (y : nat) (d' : Dom) (fuel : nat) :
  (y < a)%nat ->
  contains d (documentElement d) y = true ->
  contains d n y = false ->
  (a <= fuel)%nat ->
  (forall z, (z < a)%nat -> z <> n -> parentNode d' !! z = parentNode d !! z) ->
  inclusive_ancestors fuel d' y = inclusive_ancestors a d y.
Proof.
  intros Hy Hroot Hn Hfuel Hagree.
  unfold contains in Hroot, Hn.
  apply bool_decide_eq_true_1 in Hroot. apply bool_decide_eq_false_1 in Hn.
  destruct Hwf as (_ & _ & _ & Hnoparent & _).
  assert (Hcomplete : inclusive_ancestors fuel d y = inclusive_ancestors a d y).
  { replace fuel with (a + (fuel - a))%nat by lia.
    by apply (inclusive_ancestors_complete a _ d (documentElement d)). }
  rewrite <- Hcomplete. apply inclusive_ancestors_agree.
  rewrite Hcomplete. intros z Hz. apply Hagree.
  - node_facts_as.
    pose proof (inclusive_ancestors_bounded a a d y Hy Hlt) as Hbound.
    eapply Forall_forall in Hbound; [exact Hbound|exact Hz].
  - intros ->. by apply Hn.
Qed.

Lemma stage_clone :
  (cloneNode d n).2 = a /\
  stage d n p (Some p) None (l1 ++ n :: l2) lb (cloneNode d n).1.
Proof.
  node_facts_as. unfold cloneNode.
  destruct (cloneNode_deep_spec (next_node d) d n)
    as (Hc & HN & (Hagree & Hr & Hb) & Hparent & _).
  split; [exact Hc|].
  assert (Hkids' : forall z, (z < a)%nat ->
            children_of (cloneNode_deep (next_node d) d n).1 z = children_of d z).
  { intros z Hz. unfold children_of. by destruct (Hagree z Hz) as (_ & -> & _). }
  repeat split; try done.
  - by destruct (Hagree n Hn_lt) as (-> & _).
  - by rewrite Hparent.
  - by rewrite Hkids'.
  - by rewrite Hkids'.
  - intros z Hz _. by destruct (Hagree z Hz) as (-> & _).
  - intros z Hz _ _. by apply Hkids'.
Qed.

Lemma stage_insert_avatar (d' : Dom) :
  stage d n p (Some p) None (l1 ++ n :: l2) lb d' ->
  nextSibling d' n = head l2 /\
  exists d'', insertBefore p a (head l2) d' = Ret d'' /\
    attributes d'' = attributes d' /\
    stage d n p (Some p) (Some p) (l1 ++ n :: a :: l2)
      (if decide (p = b) then l1 ++ n :: a :: l2 else lb) d''.
Proof.
  intros (HN & Hr & Hb & Hpn & Hpa' & HLp & HLb & Hpar & Hch). node_facts_as.
  assert (Hnext : nextSibling d' n = head l2).
  { unfold nextSibling. rewrite Hpn, HLp. by apply after_middle. }
  split; [exact Hnext|].
  destruct (insertBefore_checked p a (head l2) d') as (d'' & Hrun & HN' & Hr' & Hb' & Hpar' & Hch').
  { apply bool_decide_eq_false_2.
    rewrite (chain_kept p d' (next_node d')) by (try done; try lia;
      destruct Hwf as (_ & _ & Hacyc & _); by apply (Hacyc n p)).
    intros Hin.
    pose proof (inclusive_ancestors_bounded a a d p Hp_lt Hlt) as Hbound.
    eapply Forall_forall in Hbound; [|exact Hin]. lia. }
  { intros c Hc. rewrite HLp. apply elem_of_app. right. right.
    destruct l2; [discriminate|]. injection Hc as ->. by left. }
  exists d''. split; [exact Hrun|]. split; [by eapply attributes_insertBefore|].
  assert (Href : head l2 <> Some a).
  { intros Ha. apply Ha2. destruct l2; [discriminate|]. injection Ha as ->. by left. }
  assert (Hdet : forall z, children_of (detach a d') z = children_of d' z).
  { intros z. rewrite children_of_detach. by rewrite Hpa'. }
  assert (HLp' : children_of d'' p = l1 ++ n :: a :: l2).
  { rewrite Hch', decide_True, decide_False, Hdet, HLp by done.
    replace (l1 ++ n :: l2) with ((l1 ++ [n]) ++ l2) by by rewrite <- app_assoc.
    rewrite insert_before_head; [by rewrite <- app_assoc|].
    rewrite <- app_assoc. simpl. apply NoDup_app in Hnd as (Hnd1 & Hdisj & Hnd2).
    apply NoDup_app. split; [exact Hnd1|]. split.
    - intros x Hx1 Hx2. apply elem_of_cons in Hx2 as [->|Hx2]; [done|by apply (Hdisj x)].
    - by constructor. }
  repeat split.
  - lia.
  - congruence.
  - congruence.
  - rewrite Hpar', decide_False by done. exact Hpn.
  - by rewrite Hpar', decide_True.
  - exact HLp'.
  - destruct (decide (p = b)) as [Hpb|Hpb]; [rewrite <- Hpb; exact HLp'|].
    rewrite Hch', decide_False, Hdet by done. exact HLb.
  - intros z Hz Hzn. rewrite Hpar', decide_False by lia. by apply Hpar.
  - intros z Hz Hzp Hzb. rewrite Hch', decide_False, Hdet by done. by apply Hch.
Qed.

Lemma body_chain (d' : Dom) (fuel : nat) :
  (a <= fuel)%nat ->
  (forall z, (z < a)%nat -> z <> n -> parentNode d' !! z = parentNode d !! z) ->
  n ∉ inclusive_ancestors fuel d' b.
Proof.
  intros Hfuel Hpar. node_facts_as.
  rewrite (chain_kept b d' fuel); try done.
  - by apply bool_decide_eq_false_1 in Hbody.
  - by destruct Hwf as (_ & _ & _ & _ & ?).
Qed.

Lemma parent_chain (d' : Dom) (fuel : nat) :
  (a <= fuel)%nat ->
  (forall z, (z < a)%nat -> z <> n -> parentNode d' !! z = parentNode d !! z) ->
  inclusive_ancestors fuel d' p = inclusive_ancestors a d p /\
  (n ∉ inclusive_ancestors a d p) /\ (a ∉ inclusive_ancestors a d p) /\
  documentElement d ∈ inclusive_ancestors a d p.
Proof.
  intros Hfuel Hpar. node_facts_as.
  assert (Hacyc : contains d n p = false)
    by (destruct Hwf as (_ & _ & Hacyc & _); by apply (Hacyc n p)).
  split; [by apply chain_kept|]. split; [|split].
  - by apply bool_decide_eq_false_1 in Hacyc.
  - intros Hin.
    pose proof (inclusive_ancestors_bounded a a d p Hp_lt Hlt) as Hbound.
    eapply Forall_forall in Hbound; [|exact Hin]. lia.
  - by apply bool_decide_eq_true_1 in Hatt.
Qed.

Lemma stage_append_body (d' : Dom) :
  stage d n p (Some p) (Some p) (l1 ++ n :: a :: l2)
    (if decide (p = b) then l1 ++ n :: a :: l2 else lb) d' ->
  exists d'', appendChild b n d' = Ret d'' /\
    attributes d'' = attributes d' /\
    stage d n p (Some b) (Some p)
      (if decide (p = b) then (l1 ++ a :: l2) ++ [n] else l1 ++ a :: l2)
      (if decide (p = b) then (l1 ++ a :: l2) ++ [n] else lb ++ [n]) d''.
Proof.
  intros (HN & Hr & Hb & Hpn & Hpa' & HLp & HLb & Hpar & Hch). node_facts_as.
  unfold appendChild.
  destruct (insertBefore_checked b n None d')
    as (d'' & Hrun & HN' & Hr' & Hb' & Hpar' & Hch').
  { apply bool_decide_eq_false_2. apply body_chain; [lia|exact Hpar]. }
  { discriminate. }
  exists d''. split; [exact Hrun|]. split; [by eapply attributes_insertBefore|].
  assert (Hdet : forall z, children_of (detach n d') z =
            if decide (z = p) then l1 ++ a :: l2 else children_of d' z).
  { intros z. rewrite children_of_detach, Hpn, HLp.
    destruct (decide (z = p)); [|reflexivity]. apply filter_middle; [exact Hn1|].
    apply not_elem_of_cons. by split. }
  assert (Hins : forall l, insert_before n None l = l ++ [n]).
  { intros l. by apply insert_before_end. }
  repeat split.
  - lia.
  - congruence.
  - congruence.
  - by rewrite Hpar', decide_True.
  - rewrite Hpar', decide_False by done. exact Hpa'.
  - rewrite Hch'. destruct (decide (p = b)) as [Hpb|Hpb].
    + by rewrite Hins, Hdet, decide_True.
    + by rewrite Hdet, decide_True.
  - rewrite Hch', decide_True, Hins, Hdet by done.
    destruct (decide (p = b)) as [Hpb|Hpb].
    + by rewrite decide_True.
    + rewrite decide_False by done. f_equal. exact HLb.
  - intros z Hz Hzn. rewrite Hpar', decide_False by done. by apply Hpar.
  - intros z Hz Hzp Hzb. rewrite Hch', decide_False, Hdet, decide_False by done.
    by apply Hch.
Qed.

Lemma stage_reinsert (d' : Dom) :
  stage d n p (Some b) (Some p)
    (if decide (p = b) then (l1 ++ a :: l2) ++ [n] else l1 ++ a :: l2)
    (if decide (p = b) then (l1 ++ a :: l2) ++ [n] else lb ++ [n]) d' ->
  contains d' (documentElement d') a = true /\
  exists d'', insertBefore p n (nextSibling d' a) d' = Ret d'' /\
    attributes d'' = attributes d' /\
    stage d n p (Some p) (Some p) (l1 ++ a :: n :: l2)
      (if decide (p = b) then l1 ++ a :: n :: l2 else lb) d''.
Proof.
  intros (HN & Hr & Hb & Hpn & Hpa' & HLp & HLb & Hpar & Hch). node_facts_as.
  split.
  { apply bool_decide_eq_true_2. rewrite Hr.
    destruct (next_node d') as [|fuel] eqn:Hfuel; [lia|].
    simpl. rewrite Hpa'. right.
    destruct (parent_chain d' fuel) as (-> & _ & _ & Hroot); [lia|exact Hpar|exact Hroot]. }
  set (T := if decide (p = b) then l2 ++ [n] else l2).
  assert (HLpT : children_of d' p = l1 ++ a :: T).
  { rewrite HLp. unfold T. destruct (decide (p = b)); [by rewrite <- app_assoc|reflexivity]. }
  assert (Hnext : nextSibling d' a = head T).
  { unfold nextSibling. rewrite Hpa', HLpT. by apply after_middle. }
  rewrite Hnext.
  destruct (insertBefore_checked p n (head T) d')
    as (d'' & Hrun & HN' & Hr' & Hb' & Hpar' & Hch').
  { apply bool_decide_eq_false_2.
    destruct (parent_chain d' (next_node d')) as (-> & Hnot & _); [lia|exact Hpar|exact Hnot]. }
  { intros c Hc. rewrite HLpT. apply elem_of_app. right. right.
    destruct T; [discriminate|]. injection Hc as ->. by left. }
  exists d''. split; [exact Hrun|]. split; [by eapply attributes_insertBefore|].
  assert (Href : (if decide (head T = Some n) then nextSibling d' n else head T) = head l2).
  { unfold T. destruct (decide (p = b)) as [Hpb|Hpb].
    - destruct l2 as [|h l2']; simpl.
      + rewrite decide_True by done. unfold nextSibling. rewrite Hpn.
        rewrite HLb. simpl.
        rewrite <- app_assoc. rewrite (app_assoc l1 [a] [n]).
        rewrite after_middle; [reflexivity|].
        intros Hin. apply elem_of_app in Hin as [Hin|Hin]; [done|].
        apply list_elem_of_singleton in Hin. congruence.
      + rewrite decide_False; [reflexivity|]. intros [= ->]. apply Hn2. by left.
    - rewrite decide_False; [reflexivity|]. intros Hh. apply Hn2.
      destruct l2; [discriminate|]. injection Hh as ->. by left. }
  assert (Hdet : forall z, children_of (detach n d') z =
            if decide (z = b) then (if decide (p = b) then l1 ++ a :: l2 else lb)
            else children_of d' z).
  { intros z. rewrite children_of_detach, Hpn, HLb.
    destruct (decide (z = b)); [|reflexivity].
    destruct (decide (p = b)) as [Hpb|Hpb].
    - rewrite filter_middle, app_nil_r; [reflexivity| |apply not_elem_of_nil].
      intros Hin. apply elem_of_app in Hin as [Hin|Hin]; [done|].
      apply elem_of_cons in Hin as [Hin|Hin]; [congruence|done].
    - rewrite filter_middle, app_nil_r; [reflexivity|by apply Hnlb|apply not_elem_of_nil]. }
  assert (HLp' : children_of d'' p = l1 ++ a :: n :: l2).
  { rewrite Hch', decide_True, Href, Hdet by done.
    replace (if decide (p = b) then
               (if decide (p = b) then l1 ++ a :: l2 else lb) else children_of d' p)
      with ((l1 ++ [a]) ++ l2).
    2: { rewrite <- app_assoc. simpl. destruct (decide (p = b)); [reflexivity|].
         rewrite HLp. reflexivity. }
    rewrite insert_before_head; [by rewrite <- app_assoc|].
    rewrite <- app_assoc. simpl. apply NoDup_app in Hnd as (Hnd1 & Hdisj & Hnd2).
    apply NoDup_app. split; [exact Hnd1|]. split.
    - intros x Hx1 Hx2. apply elem_of_cons in Hx2 as [->|Hx2]; [done|by apply (Hdisj x)].
    - by constructor. }
  repeat split.
  - lia.
  - congruence.
  - congruence.
  - by rewrite Hpar', decide_True.
  - rewrite Hpar', decide_False by done. exact Hpa'.
  - exact HLp'.
  - destruct (decide (p = b)) as [Hpb|Hpb]; [rewrite <- Hpb; exact HLp'|].
    rewrite Hch', decide_False, Hdet, decide_True by done. reflexivity.
  - intros z Hz Hzn. rewrite Hpar', decide_False by done. by apply Hpar.
  - intros z Hz Hzp Hzb. rewrite Hch', decide_False, Hdet, decide_False by done.
    by apply Hch.
Qed.

Lemma stage_remove_avatar (d' : Dom) :
  stage d n p (Some p) (Some p) (l1 ++ a :: n :: l2)
    (if decide (p = b) then l1 ++ a :: n :: l2 else lb) d' ->
  exists d'', removeChild p a d' = Ret d'' /\
    attributes d'' = attributes d' /\
    stage d n p (Some p) None (l1 ++ n :: l2) lb d''.
Proof.
  intros (HN & Hr & Hb & Hpn & Hpa' & HLp & HLb & Hpar & Hch). node_facts_as.
  destruct (removeChild_checked p a d' Hpa')
    as (d'' & Hrun & HN' & Hr' & Hb' & Hpar' & Hch').
  exists d''. split; [exact Hrun|]. split; [by eapply attributes_removeChild|].
  assert (HLp' : children_of d'' p = l1 ++ n :: l2).
  { rewrite Hch', decide_True, HLp by done. apply filter_middle; [exact Ha1|].
    apply not_elem_of_cons. split; [exact Han|exact Ha2]. }
  repeat split.
  - lia.
  - congruence.
  - congruence.
  - rewrite Hpar', decide_False by done. exact Hpn.
  - by rewrite Hpar', decide_True.
  - exact HLp'.
  - destruct (decide (p = b)) as [Hpb|Hpb].
    + rewrite <- Hpb, Hkids. exact HLp'.
    + rewrite Hch', decide_False by done. exact HLb.
  - intros z Hz Hzn. rewrite Hpar', decide_False by lia. by apply Hpar.
  - intros z Hz Hzp Hzb. rewrite Hch', decide_False by done. by apply Hch.
Qed.

End Roundtrip.

(** ** Methods that return: pre- and postconditions *)

Lemma triple_bind {A B} (P : World -> Prop) (Q : A -> World -> Prop)
    (R : B -> World -> Prop) (m : M A) (f : A -> M B) :
  triple P m Q -> (forall a, triple (Q a) (f a) R) -> triple P (m ≫= f) R.
Proof.
  intros Hm Hf w Hw. destruct (Hm w Hw) as (a & w1 & Hrun & Hq).
  rewrite run_bind, Hrun. by apply Hf.
Qed.

Lemma triple_conseq {A} (P P' : World -> Prop) (Q Q' : A -> World -> Prop) (m : M A) :
  triple P' m Q' -> (forall w, P w -> P' w) -> (forall a w, Q' a w -> Q a w) ->
  triple P m Q.
Proof.
  intros Hm HP HQ w Hw. destruct (Hm w (HP w Hw)) as (a & w' & Hrun & Hq). eauto.
Qed.

Lemma triple_ret {A} (P : World -> Prop) (a : A) :
  triple P (mret a) (fun a' w => a' = a /\ P w).
Proof. intros w Hw. by exists a, w. Qed.

(** The continuation of [get] knows that [P] held of the world read. *)
Lemma triple_get {A} (P : World -> Prop) (R : A -> World -> Prop) (f : World -> M A) :
  (forall w0, P w0 -> triple P (f w0) R) -> triple P (get ≫= f) R.
Proof. intros Hf w Hw. by apply (Hf w Hw). Qed.

Lemma triple_ret_bind {A B} (P : World -> Prop) (R : B -> World -> Prop)
    (a : A) (f : A -> M B) :
  triple P (f a) R -> triple P (mret a ≫= f) R.
Proof. intros Hf w Hw. by apply Hf. Qed.

(** A step that returns and keeps [P], then the rest. *)
Lemma triple_seq {A B} (P : World -> Prop) (R : B -> World -> Prop)
    (m : M A) (f : A -> M B) :
  triple P m (fun _ => P) -> (forall a, triple P (f a) R) -> triple P (m ≫= f) R.
Proof. intros Hm Hf. by apply (triple_bind P (fun _ => P)). Qed.

Lemma triple_modify (P : World -> Prop) (Q : unit -> World -> Prop) (f : World -> World) :
  (forall w, P w -> Q tt (f w)) -> triple P (modify f) Q.
Proof. intros Hf w Hw. exists tt, (f w). split; [reflexivity|by apply Hf]. Qed.

Lemma triple_dom_call (P : World -> Prop) (Q : unit -> World -> Prop)
    (f : Dom -> outcome Dom) :
  (forall w, P w -> exists d', f (dom w) = Ret d' /\ Q tt (set_dom d' w)) ->
  triple P (dom_call f) Q.
Proof.
  intros Hf w Hw. destruct (Hf w Hw) as (d' & Hrun & Hq).
  exists tt, (set_dom d' w). unfold dom_call. by rewrite Hrun.
Qed.

Lemma triple_deref {A} (P : World -> Prop) (x : option A) (a : A) :
  x = Some a -> triple P (deref x) (fun a' w => a' = a /\ P w).
Proof. intros -> w Hw. by exists a, w. Qed.

(** A method that returns and keeps [P]. *)
Lemma triple_preserved {A} (P : World -> Prop) (m : M A) :
  returns m -> preserves P m -> triple P m (fun _ w => P w).
Proof.
  intros Hret Hpres w Hw. destruct (Hret w) as [a Ha].
  exists a, (m w).1. split; [|by apply Hpres].
  by apply injective_projections.
Qed.

(** ** Dismount and mount: the methods *)

Lemma dismounting_set_dom (d : Dom) (n p : nat) (pn pa : option nat)
    (Lp Lb : list nat) (saved : option string) (w : World) (d' : Dom) :
  dismounting d n p pn pa Lp Lb saved w ->
  parentNode d' = parentNode (dom w) -> childNodes d' = childNodes (dom w) ->
  next_node d' = next_node (dom w) -> documentElement d' = documentElement (dom w) ->
  body d' = body (dom w) ->
  dismounting d n p pn pa Lp Lb saved (set_dom d' w).
Proof.
  intros (Hstage & Hrest) Hpm Hcm HN Hr Hb. split; [|exact Hrest].
  by apply (stage_same_structure d n p pn pa Lp Lb (dom w) d').
Qed.

Section DismountFacts.
Variable browser : Browser.

Lemma style_set_dismounting (d : Dom) (n p : nat) (pn pa : option nat)
    (Lp Lb : list nat) (saved : option string) (k : nat) (prop value : string) :
  triple (dismounting d n p pn pa Lp Lb saved)
    (Panel.style_set browser k prop value)
    (fun _ => dismounting d n p pn pa Lp Lb saved).
Proof.
  apply triple_modify. intros w Hw.
  apply (dismounting_set_dom _ _ _ _ _ _ _ _ w); [exact Hw|..];
    by destruct (css_set browser prop value (getAttribute (dom w) k "style")).
Qed.

(** A change of [this] that keeps the fields [dismounting] speaks of. *)
Lemma modify_this_dismounting (d : Dom) (n p : nat) (pn pa : option nat)
    (Lp Lb : list nat) (saved : option string) (f : PanelComponent -> PanelComponent) :
  (forall t, node (f t) = node t /\ _avatar (f t) = _avatar t /\
             _originalAttributes (f t) = _originalAttributes t) ->
  triple (dismounting d n p pn pa Lp Lb saved) (modify_this f)
    (fun _ => dismounting d n p pn pa Lp Lb saved).
Proof.
  intros Hf. apply triple_modify. intros w (Hstage & Hn & Ha & Ho).
  destruct (Hf (this w)) as (Hn' & Ha' & Ho').
  split; [exact Hstage|]. simpl. by rewrite Hn', Ha', Ho'.
Qed.

Lemma measure_dismounting (P : World -> Prop) (f : World -> Z) :
  triple P (w ← get; mret (f w)) (fun _ => P).
Proof. intros w Hw. by exists (f w), w. Qed.

Lemma addListener_dismounting (d : Dom) (n p : nat) (pn pa : option nat)
    (Lp Lb : list nat) (saved : option string) (elem : EventTarget) (type : string)
    (h : Handler) (c : bool) :
  triple (dismounting d n p pn pa Lp Lb saved)
    (Panel.addListener LISTENER_NAMESPACES.DISMOUNTING elem type h c)
    (fun _ w => dismounting d n p pn pa Lp Lb saved w /\ has_dismounting_listeners w).
Proof.
  intros w (Hstage & Hn & Ha & Ho).
  unfold Panel.addListener, Panel.listen.
  cbv [mbind M_bind modify_this modify]. eexists _, _. split; [reflexivity|].
  split.
  - split; [exact Hstage|]. simpl.
    repeat case_match; simpl; by rewrite ?Hn, ?Ha, ?Ho.
  - eexists _, _. simpl. split; [reflexivity|]. apply lookup_insert_eq.
Qed.

Lemma dismount_run (w : World) (params : IDismountingParams) (p : nat)
    (l1 l2 : list nat) :
  let d := dom w in
  let n := node (this w) in
  dom_wf d -> parentNode d !! n = Some p -> children_of d p = l1 ++ n :: l2 ->
  contains d (documentElement d) p = true -> contains d n (body d) = false ->
  param_avatar params = None ->
  exists w1, Panel.dismount browser params w = (w1, Ret tt) /\
    dismounting d n p (Some (body d)) (Some p)
      (if decide (p = body d) then (l1 ++ next_node d :: l2) ++ [n]
       else l1 ++ next_node d :: l2)
      (if decide (p = body d) then (l1 ++ next_node d :: l2) ++ [n]
       else children_of d (body d) ++ [n])
      (getAttribute d n "style") w1 /\
    has_dismounting_listeners w1 /\ _isDismounted (this w1) = Some true.
Proof.
  intros d n Hwf Hp Hkids Hatt Hbody Havatar.
  set (saved := getAttribute d n "style").
  set (S1 := dismounting d n p (Some p) None (l1 ++ n :: l2) (children_of d (body d)) saved).
  set (S3 := dismounting d n p (Some p) (Some p) (l1 ++ n :: next_node d :: l2)
               (if decide (p = body d) then l1 ++ n :: next_node d :: l2
                else children_of d (body d)) saved).
  set (S4 := dismounting d n p (Some (body d)) (Some p)
      (if decide (p = body d) then (l1 ++ next_node d :: l2) ++ [n]
       else l1 ++ next_node d :: l2)
      (if decide (p = body d) then (l1 ++ next_node d :: l2) ++ [n]
       else children_of d (body d) ++ [n]) saved).
  cut (triple (fun w' => w' = w) (Panel.dismount browser params)
         (fun _ w1 => S4 w1 /\ has_dismounting_listeners w1 /\
                      _isDismounted (this w1) = Some true)).
  { intros H. destruct (H w eq_refl) as ([] & w1 & Hrun & Hpost). eauto. }
  unfold Panel.dismount. apply triple_get. intros w0 ->. rewrite Havatar.
  fold d n.
  apply (triple_bind _ (fun avatar w' =>
           avatar = next_node d /\
           stage d n p (Some p) None (l1 ++ n :: l2) (children_of d (body d)) (dom w') /\
           node (this w') = n /\ getAttribute (dom w') n "style" = saved)).
  { intros w' ->. fold d.
    destruct (stage_clone d n p l1 l2 Hwf Hp Hkids) as [Hc Hstage].
    destruct (cloneNode_deep_spec (next_node d) d n) as (_ & _ & (Hagree & _) & _).
    destruct (node_facts d n p l1 l2 Hwf Hp Hkids) as (Hn_lt & _).
    destruct (cloneNode d n) as [d1 c] eqn:Hclone. simpl in *.
    exists c, (set_dom d1 w). split; [reflexivity|]. split; [exact Hc|].
    split; [exact Hstage|]. split; [reflexivity|].
    unfold saved, getAttribute, attrs_of. simpl.
    unfold cloneNode in Hclone. rewrite Hclone in Hagree. simpl in Hagree.
    by destruct (Hagree n Hn_lt) as (_ & _ & ->). }
  intros avatar.
  apply (triple_bind _ (fun _ w' =>
           avatar = next_node d /\
           stage d n p (Some p) None (l1 ++ n :: l2) (children_of d (body d)) (dom w') /\
           node (this w') = n /\ getAttribute (dom w') n "style" = saved /\
           _avatar (this w') = Some (next_node d))).
  { apply triple_modify. intros w' (-> & Hstage & Hn & Hsaved).
    split; [reflexivity|]. split; [exact Hstage|]. split; [exact Hn|].
    split; [exact Hsaved|reflexivity]. }
  intros _. apply triple_get. intros w1 (-> & _ & _ & Hsaved1 & _).
  apply (triple_bind _ (fun _ => S1)).
  { apply triple_modify. intros w' (_ & Hstage & Hn & Hsaved & Ha).
    split; [exact Hstage|]. split; [exact Hn|]. split; [exact Ha|].
    simpl. by rewrite Hsaved1. }
  intros _.
  apply triple_seq; [apply modify_this_dismounting; by intros ?|intros _].
  apply triple_seq; [apply style_set_dismounting|intros _].
  apply triple_seq; [apply measure_dismounting|intros width].
  apply triple_seq; [apply style_set_dismounting|intros _].
  apply triple_seq; [apply measure_dismounting|intros height].
  do 5 (apply triple_seq; [apply style_set_dismounting|intros _]).
  apply triple_get. intros w2 (Hstage2 & Hn2 & _).
  destruct (stage_insert_avatar d n p l1 l2 Hwf Hp Hkids Hatt (dom w2) Hstage2)
    as (Hnext & _).
  rewrite Hnext.
  replace (parentNode (dom w2) !! n) with (Some p)
    by (by destruct Hstage2 as (_ & _ & _ & -> & _)).
  apply triple_ret_bind.
  apply (triple_bind _ (fun _ => S3)).
  { apply triple_dom_call. intros w' (Hstage & Hn & Ha & Ho).
    destruct (stage_insert_avatar d n p l1 l2 Hwf Hp Hkids Hatt (dom w') Hstage)
      as (_ & d'' & Hrun & _ & Hstage'').
    exists d''. split; [exact Hrun|]. split; [exact Hstage''|].
    split; [exact Hn|]. split; [exact Ha|exact Ho]. }
  intros _. apply triple_get. intros w3 (Hstage3 & _).
  replace (body (dom w3)) with (body d)
    by (by destruct Hstage3 as (_ & _ & -> & _)).
  apply (triple_bind _ (fun _ => S4)).
  { apply triple_dom_call. intros w' (Hstage & Hn & Ha & Ho).
    destruct (stage_append_body d n p l1 l2 Hwf Hp Hkids Hbody (dom w') Hstage)
      as (d'' & Hrun & _ & Hstage'').
    exists d''. split; [exact Hrun|]. split; [exact Hstage''|].
    split; [exact Hn|]. split; [exact Ha|exact Ho]. }
  intros _.
  apply (triple_bind _ (fun _ w' => S4 w' /\ has_dismounting_listeners w'));
    [apply addListener_dismounting|intros _].
  apply (triple_bind _ (fun _ w' => S4 w' /\ has_dismounting_listeners w')).
  { eapply triple_conseq; [apply addListener_dismounting|by intros w' [? _]|done]. }
  intros _. apply triple_modify. intros w' ((Hstage & Hn & Ha & Ho) & Hls).
  split; [|split; [exact Hls|reflexivity]].
  split; [exact Hstage|]. split; [exact Hn|]. split; [exact Ha|exact Ho].
Qed.

Lemma mount_run (w1 : World) (d : Dom) (n p : nat) (l1 l2 : list nat)
    (saved : option string) :
  dom_wf d -> parentNode d !! n = Some p -> children_of d p = l1 ++ n :: l2 ->
  contains d (documentElement d) p = true ->
  dismounting d n p (Some (body d)) (Some p)
    (if decide (p = body d) then (l1 ++ next_node d :: l2) ++ [n]
     else l1 ++ next_node d :: l2)
    (if decide (p = body d) then (l1 ++ next_node d :: l2) ++ [n]
     else children_of d (body d) ++ [n]) saved w1 ->
  has_dismounting_listeners w1 ->
  exists w2, Panel.mount w1 = (w2, Ret tt) /\
    stage d n p (Some p) None (l1 ++ n :: l2) (children_of d (body d)) (dom w2) /\
    getAttribute (dom w2) n "style" = saved /\
    node (this w2) = n /\ _avatar (this w2) = None /\
    _isDismounted (this w2) = Some false.
Proof.
  intros Hwf Hp Hkids Hatt Hw1 Hls1.
  set (keeps := fun w => has_dismounting_listeners w /\
                         getAttribute (dom w) n "style" = saved).
  set (S4 := dismounting d n p (Some (body d)) (Some p)
      (if decide (p = body d) then (l1 ++ next_node d :: l2) ++ [n]
       else l1 ++ next_node d :: l2)
      (if decide (p = body d) then (l1 ++ next_node d :: l2) ++ [n]
       else children_of d (body d) ++ [n]) saved).
  set (S6 := dismounting d n p (Some p) (Some p) (l1 ++ next_node d :: n :: l2)
               (if decide (p = body d) then l1 ++ next_node d :: n :: l2
                else children_of d (body d)) saved).
  set (S7 := dismounting d n p (Some p) None (l1 ++ n :: l2)
               (children_of d (body d)) saved).
  cut (triple (fun w => S4 w /\ has_dismounting_listeners w) Panel.mount
         (fun _ w2 =>
            stage d n p (Some p) None (l1 ++ n :: l2) (children_of d (body d)) (dom w2) /\
            getAttribute (dom w2) n "style" = saved /\
            node (this w2) = n /\ _avatar (this w2) = None /\
            _isDismounted (this w2) = Some false)).
  { intros H. destruct (H w1 (conj Hw1 Hls1)) as ([] & w2 & Hrun & Hpost).
    exists w2. by split. }
  unfold Panel.mount. apply triple_get. intros w0 ((_ & Hn0 & _ & Ho0) & _).
  rewrite Ho0, Hn0. simpl.
  apply (triple_bind _ (fun _ w => S4 w /\ keeps w)).
  { apply (triple_bind _ (fun _ w => S4 w /\ keeps w)).
    - destruct saved as [v|]; apply triple_modify; intros w (Hw & Hls).
      + split; [by apply dismounting_set_dom|]. split; [exact Hls|].
        apply getAttribute_setAttribute_eq.
      + split; [by apply dismounting_set_dom|]. split; [exact Hls|].
        apply getAttribute_removeAttribute_eq.
    - intros _ w Hw. by exists tt, w. }
  intros _. apply triple_get. intros w2 ((Hstage2 & _ & Ha2 & _) & _).
  rewrite Ha2.
  destruct (stage_reinsert d n p l1 l2 Hwf Hp Hkids Hatt (dom w2) Hstage2)
    as (Hin & _).
  rewrite Hin.
  apply (triple_bind _ (fun _ w => S6 w /\ keeps w)).
  { apply triple_ret_bind.
    replace (parentNode (dom w2) !! next_node d) with (Some p)
      by (by destruct Hstage2 as (_ & _ & _ & _ & -> & _)).
    apply triple_ret_bind.
    apply triple_dom_call. intros w ((Hstage & Hn & Ha & Ho) & Hls & Hsaved).
    destruct (stage_reinsert d n p l1 l2 Hwf Hp Hkids Hatt (dom w) Hstage)
      as (_ & d'' & Hrun & Hattrs & Hstage'').
    assert (Hnext : nextSibling (dom w) (next_node d) = nextSibling (dom w2) (next_node d)).
    { unfold nextSibling.
      destruct Hstage as (_ & _ & _ & _ & -> & -> & _).
      by destruct Hstage2 as (_ & _ & _ & _ & -> & -> & _). }
    rewrite <- Hnext. exists d''. split; [exact Hrun|].
    split; [split; [exact Hstage''|]; split; [exact Hn|]; split; [exact Ha|exact Ho]|].
    split; [exact Hls|]. simpl. rewrite <- Hsaved.
    by apply getAttribute_attributes. }
  intros _. apply triple_get. intros w3 ((Hstage3 & _ & Ha3 & _) & _).
  rewrite Ha3.
  replace (parentNode (dom w3) !! next_node d) with (Some p)
    by (by destruct Hstage3 as (_ & _ & _ & _ & -> & _)).
  apply (triple_bind _ (fun _ w => S7 w /\ keeps w)).
  { apply triple_ret_bind.
    apply triple_dom_call. intros w ((Hstage & Hn & Ha & Ho) & Hls & Hsaved).
    destruct (stage_remove_avatar d n p l1 l2 Hwf Hp Hkids (dom w) Hstage)
      as (d'' & Hrun & Hattrs & Hstage'').
    exists d''. split; [exact Hrun|].
    split; [split; [exact Hstage''|]; split; [exact Hn|]; split; [exact Ha|exact Ho]|].
    split; [exact Hls|]. simpl. rewrite <- Hsaved.
    by apply getAttribute_attributes. }
  intros _.
  apply (triple_bind _ (fun _ w => S7 w /\ keeps w)).
  { intros w (Hw & (ls & arr & Hls & Harr) & Hsaved).
    rewrite (removeListeners_run _ w ls arr Hls Harr).
    destruct (forEach_unbind arr w) as (Hret & _ & Hthis & Hdom).
    exists tt, (forEach Panel.unbind arr w).1.
    split; [by apply injective_projections|].
    unfold S7, keeps, dismounting, has_dismounting_listeners.
    rewrite Hthis, Hdom. split; [exact Hw|]. split; [by exists ls, arr|exact Hsaved]. }
  intros _.
  apply (triple_bind _ (fun _ w => (stage d n p (Some p) None (l1 ++ n :: l2)
           (children_of d (body d)) (dom w) /\ node (this w) = n /\
           getAttribute (dom w) n "style" = saved) /\ _avatar (this w) = None)).
  { apply triple_modify. intros w ((Hstage & Hn & _) & _ & Hsaved).
    split; [|reflexivity]. split; [exact Hstage|]. split; [exact Hn|exact Hsaved]. }
  intros _.
  apply (triple_bind _ (fun _ w => (stage d n p (Some p) None (l1 ++ n :: l2)
           (children_of d (body d)) (dom w) /\ node (this w) = n /\
           getAttribute (dom w) n "style" = saved) /\ _avatar (this w) = None)).
  { apply triple_modify. intros w Hw. exact Hw. }
  intros _.
  apply (triple_bind _ (fun _ w => (stage d n p (Some p) None (l1 ++ n :: l2)
           (children_of d (body d)) (dom w) /\ node (this w) = n /\
           getAttribute (dom w) n "style" = saved) /\ _avatar (this w) = None)).
  { apply triple_modify. intros w Hw. exact Hw. }
  intros _.
  apply triple_modify. intros w ((Hstage & Hn & Hsaved) & Ha).
  split; [exact Hstage|]. split; [exact Hsaved|]. split; [exact Hn|].
  split; [exact Ha|reflexivity].
Qed.



End DismountFacts.



(** Nor can a node that holds [body] be dismounted: appending it to
    [body] is refused. *)
Lemma dismount_body_throws :
  let w := set_this (new_PanelComponent 1) example_world in
  parentNode (dom w) !! 1%nat = Some 0%nat /\
  (Panel.dismount example_browser (mkParams None None None) w).2 =
    Throw HierarchyRequestError.
Proof. vm_compute. repeat split. Qed.

(** ** DOMService: idle time, pointer counter, tracked geometry *)

Section ServiceExtras.
Context {num : Type} `{JsNum num}.

Lemma count_nil (kind : @event num -> bool) : count kind [] = 0.
Proof. reflexivity. Qed.

Lemma count_snoc (kind : @event num -> bool) (evs : list event) (e : event) :
  count kind (evs ++ [e]) = count kind evs + (if kind e then 1 else 0).
Proof.
  unfold count. rewrite filter_app, length_app, Nat2Z.inj_add. f_equal.
  destruct (kind e) eqn:He.
  - by rewrite filter_cons_True.
  - rewrite filter_cons_False; [reflexivity|]. by rewrite He.
Qed.

Lemma none_of_snoc (kind : @event num -> bool) (evs : list event) (e : event) :
  none_of kind (evs ++ [e]) <-> none_of kind evs /\ kind e = false.
Proof. unfold none_of. by rewrite Forall_app, Forall_singleton. Qed.

Lemma run_app (s : DOMService num) (evs1 evs2 : list event) :
  run s (evs1 ++ evs2) = run (run s evs1) evs2.
Proof. unfold run. apply foldl_app. Qed.

(** Events that do not reset the idle time add one interval per tick. *)
Lemma idleTime_quiet (s : DOMService num) (evs : list event) :
  none_of resets_idleTime evs ->
  idleTime (run s evs) = idleTime s + IDLE_INTERVAL * count is_IdleTick evs.
Proof.
  induction evs as [|e evs IH] using rev_ind; intros Hq.
  - rewrite count_nil. simpl. lia.
  - apply none_of_snoc in Hq as [Hq He].
    rewrite run_snoc, count_snoc, Z.mul_add_distr_l, Z.add_assoc, <- (IH Hq).
    destruct e; try discriminate He; simpl; lia.
Qed.

Lemma idleTime_reset (s : DOMService num) (e : event) :
  resets_idleTime e = true -> idleTime (handle s e) = 0.
Proof. destruct e; try discriminate; reflexivity. Qed.

(** X1. [idleTime] is the idle interval times the number of ticks of the
    interval timer since the last keydown, pointermove, pointerdown,
    scroll or resize, or since the constructor when there was none. The
    other events (keyup, pointerup, blur) leave it alone. *)
Theorem idleTime_counts_ticks (m : Metrics num) (before after : list event)
    (e : event) :
  (none_of resets_idleTime after ->
   idleTime (run (constructor m) after) = IDLE_INTERVAL * count is_IdleTick after) /\
  (resets_idleTime e = true -> none_of resets_idleTime after ->
   idleTime (run (constructor m) (before ++ e :: after))
   = IDLE_INTERVAL * count is_IdleTick after).
Proof.
  split.
  - intros Hq. by rewrite idleTime_quiet.
  - intros He Hq.
    rewrite (run_app _ before (e :: after)), run_cons, idleTime_quiet by done.
    by rewrite idleTime_reset.
Qed.




(** What [refreshViewport] and [refreshScroll] store. *)
Lemma viewport_refreshViewport (m : Metrics num) (s : DOMService num) :
  viewport (refreshViewport m s) = viewport (refreshViewport m fields_init).
Proof. reflexivity. Qed.

Lemma scroll_refreshScroll (m : Metrics num) (s : DOMService num) :
  scroll (refreshScroll m s) = scroll (refreshScroll m fields_init).
Proof. reflexivity. Qed.

Lemma viewport_kept (s : DOMService num) (evs : list event) :
  none_of is_Resize evs -> viewport (run s evs) = viewport s.
Proof.
  induction evs as [|e evs IH] using rev_ind; intros Hq; [reflexivity|].
  apply none_of_snoc in Hq as [Hq He]. rewrite run_snoc, <- (IH Hq).
  destruct e; try discriminate He; reflexivity.
Qed.

Lemma scroll_kept (s : DOMService num) (evs : list event) :
  none_of is_Scroll evs -> scroll (run s evs) = scroll s.
Proof.
  induction evs as [|e evs IH] using rev_ind; intros Hq; [reflexivity|].
  apply none_of_snoc in Hq as [Hq He]. rewrite run_snoc, <- (IH Hq).
  destruct e; try discriminate He; reflexivity.
Qed.

Lemma pointerCoords_kept (s : DOMService num) (evs : list event) :
  none_of is_PointerMove evs -> pointerCoords (run s evs) = pointerCoords s.
Proof.
  induction evs as [|e evs IH] using rev_ind; intros Hq; [reflexivity|].
  apply none_of_snoc in Hq as [Hq He]. rewrite run_snoc, <- (IH Hq).
  destruct e; try discriminate He; reflexivity.
Qed.

(** X3. The tracked geometry is that of the last event of its kind: the
    viewport is what the last resize measured, the scroll offset what the
    last scroll measured, the pointer position that of the last
    pointermove; events of other kinds change none of them. The viewport
    is the larger of the root element's client size and the window's
    inner size; the scroll offset is the first of [pageXOffset],
    [docElement.scrollLeft] and [body.scrollLeft] that is not zero. *)
Theorem geometry_of_last_event (m m' : Metrics num) (cx cy : num)
    (before after : list event) :
  (none_of is_Resize after ->
   viewport (run (constructor m) (before ++ Resize m' :: after))
   = IViewport.mk (num_max (clientWidth m') (js_or (innerWidth m') num_zero))
                  (num_max (clientHeight m') (js_or (innerHeight m') num_zero))) /\
  (none_of is_Scroll after ->
   scroll (run (constructor m) (before ++ Scroll m' :: after))
   = IScroll.mk
       (js_or (pageXOffset m') (js_or (doc_scrollLeft m') (body_scrollLeft m')))
       (js_or (pageYOffset m') (js_or (doc_scrollTop m') (body_scrollTop m')))) /\
  (none_of is_PointerMove after ->
   pointerCoords (run (constructor m) (before ++ PointerMove cx cy :: after))
   = (cx, cy)) /\
  (none_of is_Resize after ->
   viewport (run (constructor m) after) = viewport (constructor m)) /\
  (none_of is_Scroll after ->
   scroll (run (constructor m) after) = scroll (constructor m)) /\
  (none_of is_PointerMove after ->
   pointerCoords (run (constructor m) after) = (num_zero, num_zero)).
Proof.
  repeat split; intros Hq.
  - by rewrite (run_app _ before (_ :: after)), run_cons, viewport_kept.
  - by rewrite (run_app _ before (_ :: after)), run_cons, scroll_kept.
  - by rewrite (run_app _ before (_ :: after)), run_cons, pointerCoords_kept.
  - by apply viewport_kept.
  - by apply scroll_kept.
  - by rewrite pointerCoords_kept.
Qed.

End ServiceExtras.

(** X1 on a run: a keydown, then two ticks around a keyup. *)
Lemma idleTime_counts_ticks_example :
  let m := mkMetrics 800 600 (Some 800) (Some 600) (Some 0) (Some 0) (Some 0) (Some 0) 0 0 in
  idleTime (run (constructor m) [IdleTick; KeyDown 65; IdleTick; KeyUp 65; IdleTick])
  = 20000.
Proof.
  intros m.
  destruct (idleTime_counts_ticks (num := Z) m [IdleTick] [IdleTick; KeyUp 65; IdleTick]
              (KeyDown 65)) as [_ Hlast].
  apply Hlast; [reflexivity|].
  repeat constructor.
Defined.


(** X3 on a run: the resize is the last of its kind. *)
Lemma geometry_of_last_event_example :
  let m := mkMetrics 800 600 (Some 800) (Some 600) (Some 0) (Some 0) (Some 0) (Some 0) 0 0 in
  let m' := mkMetrics 1280 700 None (Some 715) (Some 0) (Some 40) (Some 0) (Some 40) 0 0 in
  viewport (run (constructor m) [Scroll m'; Resize m'; KeyDown 65; Scroll m])
  = IViewport.mk 1280 715.
Proof.
  intros m m'.
  destruct (geometry_of_last_event (num := Z) m m' 0 0 [Scroll m'] [KeyDown 65; Scroll m])
    as [Hlast _].
  apply Hlast. repeat constructor.
Defined.

(** ** DOMService: offsets and the visible rectangle *)

(** X4. On whole pixels, for the service after any events:
    [getOffsetFromVisible] measures the element against the visible
    rectangle, taking the element's position in the document from
    [getOffset]; its four sides are not negative exactly when the element
    lies inside the visible rectangle; and the width missing from
    [params] is the element's [offsetWidth] (and so for the height). *)
Theorem getOffsetFromVisible_in_document (m : Metrics Z) (evs : list event)
    (el : Layout Z) (width height : option Z) :
  let s := run (constructor m) evs in
  let o := getOffsetFromVisible el width height s in
  let p := getOffset el s in
  let v := visible s in
  let wd := default (offsetWidth el) width in
  let hg := default (offsetHeight el) height in
  Offset.left o = DocOffset.left p - IVisible.x1 v /\
  Offset.top o = DocOffset.top p - IVisible.y1 v /\
  Offset.right o = IVisible.x2 v - (DocOffset.left p + wd) /\
  Offset.bottom o = IVisible.y2 v - (DocOffset.top p + hg) /\
  (0 <= Offset.left o /\ 0 <= Offset.right o /\
   0 <= Offset.top o /\ 0 <= Offset.bottom o <->
   IVisible.x1 v <= DocOffset.left p /\ DocOffset.left p + wd <= IVisible.x2 v /\
   IVisible.y1 v <= DocOffset.top p /\ DocOffset.top p + hg <= IVisible.y2 v).
Proof.
  intros s o p v wd hg.
  assert (Hs : visible_derived s).
  { apply run_invariant; [apply handle_derived|apply constructor_derived]. }
  destruct Hs as (Hx1 & Hy1 & Hx2 & Hy2).
  subst o p v wd hg. unfold getOffsetFromVisible, getOffset. simpl in *.
  rewrite Hx1, Hy1, Hx2, Hy2. lia.
Qed.

(** ** The panel: taking the overflow attributes off again *)

Lemma triple_when (P : World -> Prop) (b : bool) (m : M unit) :
  triple P m (fun _ => P) -> triple P (when b m) (fun _ => P).
Proof. destruct b; [done|]. intros _ w Hw. by exists tt, w. Qed.

(** Reading the world changes nothing. *)
Lemma triple_read {A} (P : World -> Prop) (g : World -> A) :
  triple P (w ← get; mret (g w)) (fun _ => P).
Proof. intros w Hw. by exists (g w), w. Qed.

Lemma triple_run {A} (P : World -> Prop) (Q : A -> World -> Prop) (m : M A) (w : World) :
  triple P m Q -> P w -> exists a w', m w = (w', Ret a) /\ Q a w'.
Proof. intros Hm. apply Hm. Qed.

Lemma getAttribute_removeAttribute (d : Dom) (n m : nat) (a name : string) :
  getAttribute (removeAttribute n a d) m name =
  if decide (n = m /\ a = name) then None else getAttribute d m name.
Proof.
  case_decide as Heq.
  - destruct Heq as [-> ->]. apply getAttribute_removeAttribute_eq.
  - apply getAttribute_removeAttribute_ne.
    destruct (decide (n = m)); [right|by left]. naive_solver.
Qed.

Lemma getAttribute_setAttribute (d : Dom) (n m : nat) (a v name : string) :
  getAttribute (setAttribute n a v d) m name =
  if decide (n = m /\ a = name) then Some v else getAttribute d m name.
Proof.
  case_decide as Heq.
  - destruct Heq as [-> ->]. apply getAttribute_setAttribute_eq.
  - apply getAttribute_setAttribute_ne.
    destruct (decide (n = m)); [right|by left]. naive_solver.
Qed.

Lemma overflowing_name_inj (k1 k2 : string) :
  "overflowing-" +:+ k1 = "overflowing-" +:+ k2 -> k1 = k2.
Proof. intros Heq. cbv [String.append] in Heq. congruence. Qed.

(** Removing a list of attributes, one after the other. *)
Lemma forEach_removeAttribute (n : nat) (names : list string) (w : World) :
  exists d', forEach (fun name => modify_dom (removeAttribute n name)) names w
             = (set_dom d' w, Ret tt) /\
    forall m name, getAttribute d' m name =
      if decide (n = m /\ name ∈ names) then None else getAttribute (dom w) m name.
Proof.
  revert w. induction names as [|a names IH]; intros w.
  - exists (dom w). split; [by destruct w|].
    intros m name. rewrite decide_False; [done|]. intros [_ Hin]. by apply elem_of_nil in Hin.
  - destruct (IH (set_dom (removeAttribute n a (dom w)) w)) as (d' & Hrun & Hattr).
    exists d'. split.
    + simpl. rewrite run_bind. cbn [modify_dom modify]. rewrite Hrun. reflexivity.
    + intros m name. rewrite Hattr. simpl. rewrite getAttribute_removeAttribute.
      destruct (decide (n = m /\ name ∈ a :: names)) as [[Hnm Hin]|Hno].
      * apply elem_of_cons in Hin as [->|Hin].
        -- destruct (decide (n = m /\ a ∈ names)); [reflexivity|].
           by rewrite decide_True.
        -- by rewrite decide_True.
      * destruct (decide (n = m /\ name ∈ names)) as [[Hnm Hin]|_].
        { exfalso. apply Hno. split; [exact Hnm|by right]. }
        destruct (decide (n = m /\ a = name)) as [[Hnm <-]|_]; [|reflexivity].
        exfalso. apply Hno. split; [exact Hnm|by left].
Qed.

Section OverflowRoundTrip.
Variable browser : Browser.

Lemma overflow_kept_record (n : nat) (d0 : Dom) (side : string) (value : Z) (w : World) :
  overflow_kept n d0 w ->
  overflow_kept n d0 (set_this (set_overflowing
     (Some (<[side := value]> (default ∅ (overflowing (this w))))) (this w)) w) /\
  exists o, overflowing (this (set_this (set_overflowing
     (Some (<[side := value]> (default ∅ (overflowing (this w))))) (this w)) w)) = Some o /\
     is_Some (o !! side).
Proof.
  intros (Hn & Hrec & Hsame). split; [split; [exact Hn|split; [|exact Hsame]]|].
  - intros key Hkey Hattr. simpl in *.
    eexists. split; [reflexivity|].
    destruct (decide (side = key)) as [->|Hne]; [by rewrite lookup_insert_eq|].
    rewrite lookup_insert_ne by done.
    destruct (Hrec key Hkey Hattr) as (o & -> & Ho). exact Ho.
  - simpl. eexists. split; [reflexivity|]. by rewrite lookup_insert_eq.
Qed.

(** One of the four blocks: record the side, mark it, and perhaps flip. *)
Lemma overflow_block (n : nat) (d0 : Dom) (side dir towards : string)
    (value : Z) (c : bool) :
  side <> "calculated" -> dir = "x-direction" \/ dir = "y-direction" ->
  triple (overflow_kept n d0)
    (Panel.record_overflowing side value ;;
     modify_dom (setAttribute n ("overflowing-" +:+ side) "") ;;
     when c (modify_dom (setAttribute n dir towards)))
    (fun _ => overflow_kept n d0).
Proof.
  intros Hside Hdir w Hw.
  destruct (overflow_kept_record n d0 side value w Hw) as [(Hn & Hrec & Hsame) (o & Ho & Hos)].
  set (w1 := set_this _ w) in *.
  set (w2 := set_dom (setAttribute n ("overflowing-" +:+ side) "" (dom w1)) w1).
  assert (Hw2 : overflow_kept n d0 w2).
  { split; [exact Hn|]. split.
    - intros key Hkey Hattr. unfold w2 in Hattr. cbn [dom set_dom this] in Hattr.
      change (this w2) with (this w1).
      rewrite Hn, getAttribute_setAttribute in Hattr. case_decide as Heq.
      + destruct Heq as [_ Heq]. apply overflowing_name_inj in Heq as <-. eauto.
      + apply Hrec; [exact Hkey|]. by rewrite Hn.
    - intros m name Hm. unfold w2. cbn [dom set_dom].
      rewrite getAttribute_setAttribute, decide_False; [by apply Hsame|].
      intros [<- <-]. destruct Hm as [Hm|Hm]; [done|].
      apply Hm. right. right. by eexists. }
  exists tt, (if c then set_dom (setAttribute n dir towards (dom w2)) w2 else w2).
  split; [by destruct c|].
  destruct c; [|exact Hw2].
  destruct Hw2 as (Hn2 & Hrec2 & Hsame2).
  split; [exact Hn2|]. split.
  - intros key Hkey Hattr. cbn [dom set_dom this] in *.
    rewrite Hn2, getAttribute_setAttribute, decide_False in Hattr.
    + apply Hrec2; [exact Hkey|]. by rewrite Hn2.
    + intros [_ Heq]. destruct Hdir as [-> | ->]; discriminate Heq.
  - intros m name Hm. cbn [dom set_dom].
    rewrite getAttribute_setAttribute, decide_False; [by apply Hsame2|].
    intros [<- <-]. destruct Hm as [Hm|Hm]; [done|].
    apply Hm. destruct Hdir as [-> | ->]; [by left|by right; left].
Qed.

Lemma setOverflowingAttributes_kept (n : nat) (d0 : Dom) :
  triple (overflow_kept n d0) (Panel.setOverflowingAttributes browser)
    (fun _ => overflow_kept n d0).
Proof.
  unfold Panel.setOverflowingAttributes.
  apply triple_get. intros w0 (Hn0 & _). rewrite Hn0.
  unfold Panel.getWidth, Panel.getHeight.
  apply triple_seq; [apply triple_read|intros width].
  apply triple_seq; [apply triple_read|intros height].
  apply triple_seq.
  { apply triple_modify. intros w (Hn & Hrec & Hsame).
    destruct (overflowing (this w)) as [o|] eqn:Ho.
    - replace (set_this (this w) w) with w by (by destruct w). by split.
    - split; [exact Hn|]. split; [|exact Hsame].
      intros key Hkey Hattr. destruct (Hrec key Hkey Hattr) as (o & Ho' & _).
      simpl in Ho'. congruence. }
  intros _. apply triple_seq; [apply triple_when, overflow_block; [discriminate|by left]|].
  intros _. apply triple_seq; [apply triple_when, overflow_block; [discriminate|by left]|].
  intros _. apply triple_seq; [apply triple_when, overflow_block; [discriminate|by right]|].
  intros _. apply triple_seq; [apply triple_when, overflow_block; [discriminate|by right]|].
  intros _. apply triple_modify. intros w (Hn & Hrec & Hsame).
  split; [exact Hn|]. split.
  - intros key Hkey Hattr. cbn [dom set_dom this] in *.
    rewrite Hn, getAttribute_setAttribute, decide_False in Hattr.
    + apply Hrec; [exact Hkey|]. by rewrite Hn.
    + intros [_ Heq]. apply (overflowing_name_inj "calculated" key) in Heq. by subst.
  - intros m name Hm. cbn [dom set_dom].
    rewrite getAttribute_setAttribute, decide_False; [by apply Hsame|].
    intros [<- <-]. destruct Hm as [Hm|Hm]; [done|].
    apply Hm. right. right. by exists "calculated".
Qed.

(** [removeOverflowingAttributes] on a node whose overflow attributes
    are recorded: none is left, everything else stays. *)
Lemma removeOverflowingAttributes_run (w : World) :
  overflow_recorded w ->
  exists d', Panel.removeOverflowingAttributes w = (set_dom d' w, Ret tt) /\
    (forall name, overflow_attribute name ->
       getAttribute d' (node (this w)) name = None) /\
    same_but_overflow (node (this w)) (dom w) d'.
Proof.
  intros Hrec. unfold Panel.removeOverflowingAttributes.
  set (n := node (this w)).
  set (keys := match overflowing (this w) with
               | Some o => (map_to_list o).*1
               | None => []
               end).
  set (w1 := set_dom (removeAttribute n "y-direction"
                        (removeAttribute n "x-direction" (dom w))) w).
  destruct (forEach_removeAttribute n ((String.append "overflowing-") <$> keys) w1)
    as (d2 & Hrun & Hattr).
  exists (removeAttribute n "overflowing-calculated" d2).
  assert (Hmap : forall (l : list string) (w' : World),
            forEach (fun key => modify_dom (removeAttribute n ("overflowing-" +:+ key))) l w'
            = forEach (fun name => modify_dom (removeAttribute n name))
                ((String.append "overflowing-") <$> l) w').
  { induction l as [|k l IH]; intros w'; [reflexivity|].
    simpl. rewrite !run_bind. cbn [modify_dom modify]. apply IH. }
  split; [|split].
  - rewrite run_bind. cbn [get]. fold n. fold keys.
    rewrite run_bind. cbn [modify_dom modify].
    rewrite run_bind. cbn [modify_dom modify].
    rewrite run_bind. fold w1.
    change (set_dom (removeAttribute n "y-direction" _) _) with w1.
    rewrite Hmap, Hrun. reflexivity.
  - intros name Hname. fold n.
    rewrite getAttribute_removeAttribute. case_decide as Hcalc; [reflexivity|].
    rewrite Hattr. case_decide as Hin; [reflexivity|].
    unfold w1. cbn [dom set_dom]. rewrite !getAttribute_removeAttribute.
    destruct Hname as [->|[->|[key ->]]].
    + rewrite decide_False by (intros [_ Heq]; discriminate Heq).
      by rewrite decide_True.
    + by rewrite decide_True.
    + rewrite !decide_False by (intros [_ Heq]; discriminate Heq).
      destruct (getAttribute (dom w) n ("overflowing-" +:+ key)) eqn:Hattr0; [|reflexivity].
      exfalso.
      assert (Hkey : key <> "calculated") by (intros ->; by apply Hcalc).
      destruct (Hrec key Hkey) as (o & Ho & [v Hv]); [fold n; congruence|].
      apply Hin. split; [reflexivity|].
      apply list_elem_of_fmap. exists key. split; [reflexivity|].
      unfold keys. rewrite Ho. apply list_elem_of_fmap. exists (key, v).
      split; [reflexivity|]. by apply elem_of_map_to_list.
  - intros m name Hm. fold n in Hm.
    assert (Hno : ~ (n = m /\ overflow_attribute name)).
    { intros [Hnm Hattr']. destruct Hm as [Hm|Hm]; [by apply Hm|by apply Hm]. }
    rewrite getAttribute_removeAttribute, decide_False.
    2:{ intros [Hnm <-]. apply Hno. split; [exact Hnm|].
        right. right. by exists "calculated". }
    rewrite Hattr, decide_False.
    2:{ intros [Hnm Hin]. apply Hno. split; [exact Hnm|].
        apply list_elem_of_fmap in Hin as (key & -> & _). right. right. by exists key. }
    unfold w1. cbn [dom set_dom]. rewrite !getAttribute_removeAttribute.
    rewrite !decide_False; [reflexivity|..].
    + intros [Hnm <-]. apply Hno. split; [exact Hnm|by left].
    + intros [Hnm <-]. apply Hno. split; [exact Hnm|by right; left].
Qed.

(** X5. Taking the overflow attributes off undoes putting them on. For a
    node whose [overflowing-<side>] attributes are all recorded in
    [this.overflowing] (as on a node that has none), after
    [setOverflowingAttributes] and then [removeOverflowingAttributes]
    the node has no [x-direction], no [y-direction] and no attribute
    whose name begins with [overflowing-]; every other attribute of every
    node is what it was; and the same holds of the next round. *)
Theorem overflow_attributes_round_trip (w : World) :
  overflow_recorded w ->
  exists w1 w2,
    Panel.setOverflowingAttributes browser w = (w1, Ret tt) /\
    Panel.removeOverflowingAttributes w1 = (w2, Ret tt) /\
    (forall name, overflow_attribute name ->
       getAttribute (dom w2) (node (this w)) name = None) /\
    same_but_overflow (node (this w)) (dom w) (dom w2) /\
    overflow_recorded w2.
Proof.
  intros Hrec.
  destruct (setOverflowingAttributes_kept (node (this w)) (dom w) w)
    as ([] & w1 & Hset & Hn1 & Hrec1 & Hsame1).
  { split; [reflexivity|]. split; [exact Hrec|]. by intros m name _. }
  destruct (removeOverflowingAttributes_run w1 Hrec1) as (d2 & Hrem & Hnone & Hsame2).
  rewrite Hn1 in Hnone, Hsame2.
  exists w1, (set_dom d2 w1). split; [exact Hset|]. split; [exact Hrem|].
  split; [exact Hnone|]. split.
  - intros m name Hm. cbn [dom set_dom]. rewrite Hsame2 by exact Hm. by apply Hsame1.
  - intros key _ Hattr. exfalso. apply Hattr. cbn [dom set_dom this].
    rewrite Hn1. apply Hnone. right. right. by exists key.
Qed.

End OverflowRoundTrip.

(** X5 on the small page: the node sticks out on the left and at the
    bottom; afterwards the marks are gone and its [style] is untouched. *)
Lemma overflow_attributes_round_trip_example :
  exists w1 w2,
    Panel.setOverflowingAttributes example_browser example_world = (w1, Ret tt) /\
    getAttribute (dom w1) 3 "overflowing-left" = Some "" /\
    Panel.removeOverflowingAttributes w1 = (w2, Ret tt) /\
    getAttribute (dom w2) 3 "overflowing-left" = None /\
    getAttribute (dom w2) 3 "x-direction" = None /\
    getAttribute (dom w2) 3 "style" = Some "color: red".
Proof.
  destruct (overflow_attributes_round_trip example_browser example_world)
    as (w1 & w2 & Hset & Hrem & Hnone & Hsame & _).
  - intros key _ Hattr. exfalso. apply Hattr. reflexivity.
  - exists w1, w2. split; [exact Hset|].
    split; [injection Hset as <-; reflexivity|].
    split; [exact Hrem|].
    split; [apply Hnone; right; right; by exists "left"|].
    split; [apply Hnone; by left|].
    rewrite Hsame; [reflexivity|]. right.
    intros [Heq|[Heq|[key Heq]]]; discriminate Heq.
Defined.

(** ** Methods that throw *)

Lemma throwing_bind_l {A B} (P Q : World -> Prop) (e : exn) (m : M A) (f : A -> M B) :
  throwing P m e Q -> throwing P (m ≫= f) e Q.
Proof.
  intros Hm w Hw. destruct (Hm w Hw) as (w' & Hrun & Hq).
  exists w'. by rewrite run_bind, Hrun.
Qed.

Lemma throwing_bind_r {A B} (P Q : World -> Prop) (R : A -> World -> Prop) (e : exn)
    (m : M A) (f : A -> M B) :
  triple P m R -> (forall a, throwing (R a) (f a) e Q) -> throwing P (m ≫= f) e Q.
Proof.
  intros Hm Hf w Hw. destruct (Hm w Hw) as (a & w1 & Hrun & Hr).
  rewrite run_bind, Hrun. by apply Hf.
Qed.

Lemma throwing_seq {A B} (P Q : World -> Prop) (e : exn) (m : M A) (f : A -> M B) :
  triple P m (fun _ => P) -> (forall a, throwing P (f a) e Q) -> throwing P (m ≫= f) e Q.
Proof. intros Hm Hf. by apply (throwing_bind_r P Q (fun _ => P)). Qed.

Lemma throwing_get {A} (P Q : World -> Prop) (e : exn) (f : World -> M A) :
  (forall w0, P w0 -> throwing P (f w0) e Q) -> throwing P (get ≫= f) e Q.
Proof. intros Hf w Hw. by apply (Hf w Hw). Qed.

Lemma throwing_deref {A} (P : World -> Prop) :
  throwing P (deref (None : option A)) TypeError P.
Proof. intros w Hw. by exists w. Qed.

Lemma throwing_conseq {A} (P P' Q Q' : World -> Prop) (e : exn) (m : M A) :
  throwing P' m e Q' -> (forall w, P w -> P' w) -> (forall w, Q' w -> Q w) ->
  throwing P m e Q.
Proof.
  intros Hm HP HQ w Hw. destruct (Hm w (HP w Hw)) as (w' & Hrun & Hq). eauto.
Qed.

Lemma triple_forEach {A} (P : World -> Prop) (f : A -> M unit) (l : list A) :
  (forall a, triple P (f a) (fun _ => P)) -> triple P (forEach f l) (fun _ => P).
Proof.
  intros Hf. induction l as [|a l IH]; [intros w Hw; by exists tt, w|].
  simpl. apply triple_seq; [apply Hf|intros _; exact IH].
Qed.

(** ** The panel: closing before the pointerup listener exists *)

Section CloseEdges.
Variable cls : PanelClass.
Variable browser : Browser.

Lemma removeListeners_throws (namespace : string) (P : World -> Prop) :
  (forall w, P w -> no_listeners namespace w) ->
  throwing P (Panel.removeListeners namespace) TypeError P.
Proof.
  intros Hno w Hw. exists w. split; [|exact Hw].
  unfold Panel.removeListeners. rewrite run_bind. cbn [get].
  destruct (Hno w Hw) as [Hnone|(ls & Hls & Hns)].
  - by rewrite Hnone.
  - rewrite Hls. cbn [deref]. rewrite run_bind. cbn [mret M_ret].
    rewrite run_bind. by rewrite Hns.
Qed.

Lemma closing_set_dom (n : nat) B T (w : World) (d : Dom) :
  closing n B T w -> getAttribute d n "open" = getAttribute (dom w) n "open" ->
  closing n B T (set_dom d w).
Proof.
  intros ((Hs & Hn & Hv) & Hrest) Hattr. split; [|exact Hrest].
  split; [exact Hs|]. split; [exact Hn|]. cbn [dom set_dom]. congruence.
Qed.

Lemma removeOverflowingAttributes_closing (n : nat) B T :
  triple (closing n B T) Panel.removeOverflowingAttributes (fun _ => closing n B T).
Proof.
  assert (Hrm : forall m name, name <> "open" ->
            triple (closing n B T) (modify_dom (removeAttribute m name))
              (fun _ => closing n B T)).
  { intros m name Hname. apply triple_modify. intros w Hw.
    apply closing_set_dom; [exact Hw|].
    apply getAttribute_removeAttribute_ne. by right. }
  unfold Panel.removeOverflowingAttributes.
  apply triple_get. intros w0 _.
  apply triple_seq; [by apply Hrm|intros _].
  apply triple_seq; [by apply Hrm|intros _].
  apply triple_seq; [|intros _; by apply Hrm].
  apply triple_forEach. intros key. apply Hrm, overflowing_name_not_open.
Qed.

(** A class that does not dismount leaves the listeners and the
    dismounted flag alone in [open]. *)
Lemma open_plain_fields {T} (proj : PanelComponent -> T) (X : T)
    (params : option IDismountingParams) :
  (forall p v, proj (set_state v p) = proj p) ->
  (forall p v, proj (set_overflowing v p) = proj p) ->
  isDismountingNeeded cls = false ->
  preserves (fun w => proj (this w) = X) (Panel.open cls browser params).
Proof.
  intros Hstate Hover Hdis. unfold Panel.open. rewrite Hdis.
  assert (Hthis : forall f : PanelComponent -> PanelComponent,
            (forall p, proj (f p) = proj p) ->
            preserves (fun w => proj (this w) = X) (modify_this f)).
  { intros f Hf w Hw. cbn. by rewrite Hf. }
  assert (Hset : preserves (fun w => proj (this w) = X)
                   (Panel.setOverflowingAttributes browser)).
  { unfold Panel.setOverflowingAttributes, Panel.getWidth, Panel.getHeight,
      Panel.record_overflowing.
    repeat first
      [ apply Hthis; intros p; first [by destruct (overflowing p); rewrite ?Hover | apply Hover]
      | field_step ]. }
  apply preserves_bind; [unfold Panel.isOpen; repeat field_step|intros o].
  destruct o; [apply preserves_ret|].
  apply preserves_bind; [intros w0 Hw0; exact Hw0|intros _].
  apply preserves_bind; [apply Hthis; intros p; apply Hstate|intros _].
  apply preserves_get. intros w0 _.
  apply preserves_bind; [field_step|intros _].
  apply preserves_bind; [unfold Panel.call_hook; repeat field_step|intros _].
  destruct (postponeOverflowCalculating cls).
  - unfold Panel.setTimeout. field_step.
  - unfold Panel.open_rest, Panel.setTimeout.
    apply preserves_bind; [exact Hset|intros _]. field_step.
Qed.

(** X6. [close] throws when no pointerup listener was registered yet.
    On an open panel that is not dismounted and has no listeners in the
    [opening] namespace, [close] does its work (state, attribute,
    [onClose]) and then throws [TypeError] from [removeListeners]; no
    binding and no pending callback is touched. A panel fresh from its
    constructor is in that situation after [open], until the callback
    that [open] schedules has run: [open] followed at once by [close]
    throws. The callback registers the pointerup listener whatever the
    state of the panel is by then. *)
Theorem close_before_listening_throws (w : World) :
  let n := node (this w) in
  (state (this w) = Open -> _isDismounted (this w) <> Some true ->
   no_listeners LISTENER_NAMESPACES.OPENING w ->
   exists w', Panel.close cls w = (w', Throw TypeError) /\
     panel_shows Closed n None w' /\ bound w' = bound w /\ timers w' = timers w /\
     hook_calls w' = hook_calls w ++ (if onClose cls then ["onClose"] else [])) /\
  (this w = new_PanelComponent n -> isDismountingNeeded cls = false ->
   forall params, exists w1 w2,
     Panel.open cls browser params w = (w1, Ret tt) /\
     Panel.close cls w1 = (w2, Throw TypeError) /\ state (this w2) = Closed) /\
  bound (Panel.run_task browser TaskListenOpening w).1 =
    bound w ++ [(next_listener w,
                 mkListener (TargetElement (documentElement (dom w))) "pointerup"
                   OpeningPointerUp false)].
Proof.
  intros n.
  assert (Hclose : forall w0 : World,
    state (this w0) = Open -> _isDismounted (this w0) <> Some true ->
    no_listeners LISTENER_NAMESPACES.OPENING w0 ->
    exists w', Panel.close cls w0 = (w', Throw TypeError) /\
      panel_shows Closed (node (this w0)) None w' /\ bound w' = bound w0 /\
      timers w' = timers w0 /\
      hook_calls w' = hook_calls w0 ++ (if onClose cls then ["onClose"] else [])).
  { clear w n. intros w Hopen Hdis Hno.
    rewrite (close_open cls w Hopen).
    rewrite bool_decide_eq_false_2 by exact Hdis.
    set (w1 := set_dom _ _).
    set (P := fun w' : World => closing (node (this w)) (bound w) (timers w) w' /\
                hook_calls w' = hook_calls w).
    set (Q := fun w' : World => closing (node (this w)) (bound w) (timers w) w' /\
                hook_calls w' = hook_calls w ++ (if onClose cls then ["onClose"] else [])).
    cut (throwing P
           (when false Panel.mount ;;
            Panel.removeOverflowingAttributes ;;
            when (onClose cls) (Panel.call_hook "onClose") ;;
            Panel.removeListeners LISTENER_NAMESPACES.OPENING) TypeError Q).
    { intros Hthrow. destruct (Hthrow w1) as (w' & Hrun & (Hs & HB & HT & _) & Hh).
      - split; [|reflexivity]. split; [|by repeat split].
        split; [reflexivity|]. split; [reflexivity|].
        apply getAttribute_removeAttribute_eq.
      - exists w'. split; [exact Hrun|]. split; [exact Hs|]. split; [exact HB|].
        split; [exact HT|exact Hh]. }
    apply (throwing_bind_r P Q (fun _ => P)).
    { intros w0 Hw0. by exists tt, w0. }
    intros _.
    apply (throwing_bind_r P Q (fun _ => P)).
    { intros w0 [Hw0 Hh].
      destruct (removeOverflowingAttributes_closing _ _ _ w0 Hw0) as ([] & w' & Hrun & Hw').
      exists tt, w'. split; [exact Hrun|]. split; [exact Hw'|].
      rewrite <- Hh.
      apply (preserves_run (fun w => hook_calls w = hook_calls w0)
               Panel.removeOverflowingAttributes w0 w' (Ret tt));
        [unfold Panel.removeOverflowingAttributes; repeat field_step|exact Hrun|reflexivity]. }
    intros _.
    apply (throwing_bind_r P Q (fun _ => Q)).
    { intros w0 [Hw0 Hh]. unfold Q. destruct (onClose cls).
      - eexists tt, _. split; [reflexivity|]. split; [exact Hw0|].
        cbn. by rewrite Hh.
      - exists tt, w0. split; [reflexivity|]. split; [exact Hw0|].
        by rewrite app_nil_r. }
    intros _. apply removeListeners_throws. intros w0 [(_ & _ & _ & Hno0) _]. exact Hno0. }
  split; [apply Hclose|]. split; [|reflexivity].
  intros Hnew Hdis params.
  assert (Hclosed : state (this w) = Closed) by (by rewrite Hnew).
  destruct (open_closed_returns cls browser params w Hclosed Hdis) as (w1 & Hopen).
  destruct (open_closed_steps cls browser params w w1 Hclosed Hopen) as (w3 & Hw3 & Hend).
  assert (Hs1 : state (this w1) = Open).
  { destruct (postponeOverflowCalculating cls).
    - injection Hend as <-. by destruct Hw3.
    - destruct (open_rest_run browser _ _ _ w3 Hw3) as (w'' & Hrun & (Hs & _) & _).
      rewrite Hrun in Hend. by injection Hend as <-. }
  assert (Hl1 : _listeners (this w1) = None).
  { apply (preserves_run _ _ w w1 (Ret tt)
             (open_plain_fields _listeners None params
                ltac:(reflexivity) ltac:(reflexivity) Hdis) Hopen).
    by rewrite Hnew. }
  assert (Hd1 : _isDismounted (this w1) = None).
  { apply (preserves_run _ _ w w1 (Ret tt)
             (open_plain_fields _isDismounted None params
                ltac:(reflexivity) ltac:(reflexivity) Hdis) Hopen).
    by rewrite Hnew. }
  destruct (Hclose w1 Hs1) as (w2 & Hrun & (Hs2 & _) & _).
  - by rewrite Hd1.
  - by left.
  - exists w1, w2. by repeat split.
Qed.

End CloseEdges.

(** X6 on the small page: [open] and at once [close]. *)
Lemma close_before_listening_throws_example :
  exists w1 w2,
    Panel.open base_class example_browser None example_world = (w1, Ret tt) /\
    Panel.close base_class w1 = (w2, Throw TypeError) /\ state (this w2) = Closed.
Proof.
  destruct (close_before_listening_throws base_class example_browser example_world)
    as (_ & Hfresh & _).
  apply Hfresh; reflexivity.
Defined.

(** ** The panel: toggle *)

Section ToggleFacts.
Variable cls : PanelClass.
Variable browser : Browser.




End ToggleFacts.


(** ** The panel: dismounting a node that has no parent *)

Section DetachedFacts.
Variable cls : PanelClass.
Variable browser : Browser.

Lemma detached_closed_set_this (n : nat) v B H (w : World) (p : PanelComponent) :
  detached_closed n v B H w -> state p = state (this w) -> node p = node (this w) ->
  detached_closed n v B H (set_this p w).
Proof.
  intros (Hs & Hn & Hlt & Hp & Hv & HB & HH) Hs' Hn'.
  split; [cbn; congruence|]. split; [cbn; congruence|]. by repeat split.
Qed.

Lemma detached_closed_style (n : nat) v B H (w : World) (k : nat) (prop value : string) :
  detached_closed n v B H w ->
  detached_closed n v B H (Panel.style_set browser k prop value w).1.
Proof.
  intros (Hs & Hn & Hlt & Hp & Hv & HB & HH).
  unfold Panel.style_set. cbn [modify_dom modify fst].
  destruct (css_set browser prop value (getAttribute (dom w) k "style")).
  - repeat split; try assumption. cbn [dom set_dom].
    rewrite getAttribute_setAttribute_ne by (by right). exact Hv.
  - repeat split; try assumption. cbn [dom set_dom].
    rewrite getAttribute_removeAttribute_ne by (by right). exact Hv.
Qed.

Lemma style_set_detached (n : nat) v B H (k : nat) (prop value : string) :
  triple (detached_closed n v B H) (Panel.style_set browser k prop value)
    (fun _ => detached_closed n v B H).
Proof.
  intros w Hw. exists tt, (Panel.style_set browser k prop value w).1.
  split; [reflexivity|]. by apply detached_closed_style.
Qed.

Lemma modify_this_detached (n : nat) v B H (f : PanelComponent -> PanelComponent) :
  (forall p, state (f p) = state p /\ node (f p) = node p) ->
  triple (detached_closed n v B H) (modify_this f) (fun _ => detached_closed n v B H).
Proof.
  intros Hf. apply triple_modify. intros w Hw.
  apply detached_closed_set_this; [exact Hw|apply Hf..].
Qed.



End DetachedFacts.


(** ** The panel: closing when the avatar was taken away *)

Section AvatarLostFacts.
Variable cls : PanelClass.

Lemma contains_parentless (d : Dom) (a b : nat) :
  parentNode d !! b = None -> a <> b -> contains d a b = false.
Proof.
  intros Hb Hne. unfold contains. apply bool_decide_eq_false_2.
  destruct (next_node d); simpl; rewrite ?Hb; by intros ->%list_elem_of_singleton.
Qed.

Lemma mount_avatar_lost (n a pn : nat) B :
  throwing (avatar_lost n a (Some pn) B) Panel.mount TypeError
    (avatar_lost n a None B).
Proof.
  unfold Panel.mount.
  apply throwing_get. intros w0 (_ & Hn0 & _). rewrite Hn0.
  apply throwing_seq.
  { apply triple_forEach. intros [key val].
    assert (Hkeep : forall f : Dom -> Dom,
              (forall d, parentNode (f d) = parentNode d /\
                         documentElement (f d) = documentElement d) ->
              triple (avatar_lost n a (Some pn) B) (modify_dom f)
                (fun _ => avatar_lost n a (Some pn) B)).
    { intros f Hf. apply triple_modify.
      intros w (Hs & Hn & Ha & Hd & Hpa & Hroot & Hpn & HB).
      destruct (Hf (dom w)) as [Hpar Hr].
      repeat split; try assumption; cbn [dom set_dom]; by rewrite ?Hpar, ?Hr. }
    destruct val; apply Hkeep; by intros d. }
  intros _.
  apply throwing_get. intros w1 (_ & _ & Ha1 & _ & Hpa1 & Hroot1 & Hpn1 & _).
  rewrite Ha1, (contains_parentless _ _ _ Hpa1) by done. rewrite Hpn1.
  apply (throwing_bind_r _ _ (fun _ => avatar_lost n a None B)).
  { apply triple_ret_bind. apply triple_dom_call.
    intros w (Hs & Hn & Ha & Hd & Hpa & Hroot & Hpn & HB).
    exists (detach n (dom w)). split.
    - unfold removeChild. by rewrite bool_decide_eq_true_2.
    - assert (Hna : a <> n) by congruence.
      unfold detach. rewrite Hpn.
      repeat split; try assumption; cbn [dom set_dom set_parentNode set_childNodes parentNode].
      + by rewrite lookup_delete_ne.
      + by rewrite lookup_delete_eq. }
  intros _.
  apply throwing_get. intros w2 (_ & _ & Ha2 & _ & Hpa2 & _).
  rewrite Ha2. apply throwing_bind_l, throwing_bind_l. rewrite Hpa2.
  apply throwing_deref.
Qed.

(** X9. [close] of a dismounted panel whose avatar was taken out of
    its parent throws [TypeError] from [mount], at
    [this._avatar.parentElement.removeChild]. By then the panel is marked
    closed and the node has been removed from the tree; the panel stays
    marked dismounted and all its bindings stay in force, and since the
    panel is closed a later [close] does nothing about that. *)
Theorem close_avatar_lost_throws (w : World) (a pn : nat) :
  let n := node (this w) in
  state (this w) = Open -> _isDismounted (this w) = Some true ->
  _avatar (this w) = Some a ->
  parentNode (dom w) !! a = None -> a <> documentElement (dom w) ->
  parentNode (dom w) !! n = Some pn ->
  exists w', Panel.close cls w = (w', Throw TypeError) /\
    state (this w') = Closed /\ parentNode (dom w') !! n = None /\
    _isDismounted (this w') = Some true /\ bound w' = bound w /\
    Panel.close cls w' = (w', Ret tt).
Proof.
  intros n Hopen Hdis Ha Hpa Hroot Hpn.
  rewrite (close_open cls w Hopen), Hdis.
  rewrite bool_decide_eq_true_2 by reflexivity. cbn [when].
  set (w1 := set_dom _ _).
  destruct (mount_avatar_lost n a pn (bound w) w1)
    as (w' & Hrun & Hs & Hn & _ & Hd & _ & _ & Hpn' & HB); [by repeat split|].
  exists w'. rewrite run_bind, Hrun.
  split; [reflexivity|]. split; [exact Hs|]. split; [exact Hpn'|].
  split; [exact Hd|]. split; [exact HB|]. by apply close_closed.
Qed.

End AvatarLostFacts.

(** X9 on the small page: the panel is dismounted by [open], then the
    avatar (6) is removed from the container, then [close] is called. *)
Lemma close_avatar_lost_throws_example :
  let w1 := (Panel.open dismounting_class example_browser None example_world).1 in
  let w2 := set_dom (detach 6 (dom w1)) w1 in
  exists w', Panel.close dismounting_class w2 = (w', Throw TypeError) /\
    state (this w') = Closed /\ parentNode (dom w') !! 3%nat = None.
Proof.
  intros w1 w2.
  pose proof (close_avatar_lost_throws dismounting_class w2 6 1) as H.
  cbv zeta in H.
  assert (H1 : state (this w2) = Open) by (vm_compute; reflexivity).
  assert (H2 : _isDismounted (this w2) = Some true) by (vm_compute; reflexivity).
  assert (H3 : _avatar (this w2) = Some 6%nat) by (vm_compute; reflexivity).
  assert (H4 : parentNode (dom w2) !! 6%nat = None) by (vm_compute; reflexivity).
  assert (H5 : 6%nat <> documentElement (dom w2)) by (vm_compute; discriminate).
  assert (H6 : parentNode (dom w2) !! node (this w2) = Some 1%nat)
    by (vm_compute; reflexivity).
  destruct (H H1 H2 H3 H4 H5 H6) as (w' & Hrun & Hs & Hp & _).
  exists w'. split; [exact Hrun|]. split; [exact Hs|exact Hp].
Defined.

(** ** Methods that may throw: what holds when they return *)





(** ** The panel: dismissal while dismounted *)

Section DismountedDismissal.
Variable cls : PanelClass.
Variable browser : Browser.











End DismountedDismissal.


(** ** The panel: opening and closing a panel that dismounts *)

Lemma preserves_conj {A} (P Q : World -> Prop) (m : M A) :
  preserves P m -> preserves Q m -> preserves (fun w => P w /\ Q w) m.
Proof. intros HP HQ w [Hp Hq]. split; [by apply HP|by apply HQ]. Qed.

Lemma dismounting_skeleton (d : Dom) (n p : nat) (pn pa : option nat)
    (Lp Lb : list nat) (saved : option string) (w w' : World) :
  skeleton w' = skeleton w ->
  dismounting d n p pn pa Lp Lb saved w /\ has_dismounting_listeners w ->
  dismounting d n p pn pa Lp Lb saved w' /\ has_dismounting_listeners w'.
Proof.
  intros [= Hpm Hcm HN Hr Hb Hn Ha Ho _ Hl] [(Hstage & Hnode & Hav & Hsaved) Hls].
  split; [split; [|by rewrite Hn, Ha, Ho]|].
  - by apply (stage_same_structure d n p pn pa Lp Lb (dom w) (dom w')).
  - unfold has_dismounting_listeners. by rewrite Hl.
Qed.

Section DismountingCycle.
Variable cls : PanelClass.
Variable browser : Browser.

Lemma skeleton_this {X} (x : X) (proj : World -> X) (f : PanelComponent -> PanelComponent) :
  (forall w, proj (set_this (f (this w)) w) = proj w) ->
  preserves (fun w => proj w = x) (modify_this f).
Proof. intros Hf w Hw. cbn. by rewrite Hf. Qed.

Lemma setOverflowingAttributes_skeleton X :
  preserves (fun w => skeleton w = X) (Panel.setOverflowingAttributes browser).
Proof.
  unfold Panel.setOverflowingAttributes, Panel.getWidth, Panel.getHeight,
    Panel.record_overflowing.
  repeat first
    [ apply skeleton_this; intros w; by destruct (overflowing (this w))
    | field_step ].
Qed.

Lemma dismount_keeps_state (params : IDismountingParams) (s : PanelComponentStates) :
  preserves (fun w => state (this w) = s) (Panel.dismount browser params).
Proof.
  assert (Hthis : forall f : PanelComponent -> PanelComponent,
             (forall p, state (f p) = state p) ->
             preserves (fun w => state (this w) = s) (modify_this f)).
  { intros f Hf w Hw. cbn. by rewrite Hf. }
  assert (Hadd : forall ns elem type h c,
             preserves (fun w => state (this w) = s) (Panel.addListener ns elem type h c)).
  { intros ns elem type h c. unfold Panel.addListener.
    apply preserves_bind; [apply Hthis; intros p; by destruct (_listeners p)|intros _].
    apply preserves_bind;
      [apply Hthis; intros p; by destruct (default ∅ (_listeners p) !! ns)|intros _].
    apply preserves_bind; [by intros w Hw|intros l]. by apply Hthis. }
  unfold Panel.dismount, Panel.style_set, Panel.getWidth, Panel.getHeight.
  apply preserves_get. intros w0 _.
  apply preserves_bind.
  { destruct (param_avatar params); [apply preserves_ret|].
    intros w Hw. by destruct (cloneNode (dom w) (node (this w0))). }
  intros avatar.
  repeat lazymatch goal with
         | |- preserves _ (Panel.addListener _ _ _ _ _) => apply Hadd
         | |- preserves _ (modify_this _) => apply Hthis; by intros ?
         | |- _ => field_step
         end.
Qed.

(** The rest of [open] after [dismount]: the panel is open, and still
    dismounted as [dismount] left it. *)
Lemma open_after_dismount (n : nat) (X : World) :
  triple (fun w => skeleton w = skeleton X /\ node (this w) = n)
    (modify_this (set_state Open) ;;
     w ← get;
     modify_dom (setAttribute (node (this w)) "open" "true") ;;
     when (onOpen cls) (Panel.call_hook "onOpen") ;;
     if postponeOverflowCalculating cls then Panel.setTimeout TaskResumeOpen
     else Panel.open_rest browser)
    (fun _ w => skeleton w = skeleton X /\ panel_shows Open n (Some "true") w).
Proof.
  set (Q := fun w => skeleton w = skeleton X /\ panel_shows Open n (Some "true") w).
  apply (triple_bind _ (fun _ w => skeleton w = skeleton X /\ node (this w) = n /\
                                   state (this w) = Open)).
  { apply triple_modify. intros w [Hsk Hn]. by repeat split. }
  intros _. apply triple_get. intros w0 (_ & Hn0 & _). rewrite Hn0.
  apply (triple_bind _ (fun _ => Q)).
  { apply triple_modify. intros w (Hsk & Hn & Hs). split; [exact Hsk|].
    split; [exact Hs|]. split; [exact Hn|]. apply getAttribute_setAttribute_eq. }
  intros _.
  apply (triple_bind _ (fun _ => Q)).
  { destruct (onOpen cls); [|intros w Hw; by exists tt, w].
    apply triple_modify. by intros w Hw. }
  intros _.
  destruct (postponeOverflowCalculating cls).
  - apply triple_modify. by intros w Hw.
  - apply triple_preserved; [apply open_rest_returns|].
    apply preserves_conj; [|apply open_rest_preserves].
    unfold Panel.open_rest, Panel.setTimeout.
    apply preserves_bind; [apply setOverflowingAttributes_skeleton|intros _].
    field_step.
Qed.

(** The end of [close] after [mount]: attributes other than the
    panel's own and the tree are left alone. *)
Lemma close_after_mount (n : nat) (saved : option string) X :
  preserves (fun w => (parentNode (dom w), childNodes (dom w), next_node (dom w),
                       documentElement (dom w), body (dom w), node (this w),
                       _isDismounted (this w)) = X /\
                      getAttribute (dom w) n "style" = saved)
    (Panel.removeOverflowingAttributes ;;
     when (onClose cls) (Panel.call_hook "onClose") ;;
     Panel.removeListeners LISTENER_NAMESPACES.OPENING).
Proof.
  apply preserves_conj.
  - unfold Panel.removeOverflowingAttributes, Panel.call_hook, Panel.removeListeners,
      Panel.unbind.
    repeat field_step.
  - assert (Hrm : forall m name, name <> "style" ->
              preserves (fun w => getAttribute (dom w) n "style" = saved)
                (modify_dom (removeAttribute m name))).
    { intros m name Hname w Hw. cbn.
      rewrite getAttribute_removeAttribute_ne by (by right). exact Hw. }
    unfold Panel.removeOverflowingAttributes, Panel.call_hook, Panel.removeListeners,
      Panel.unbind.
    repeat lazymatch goal with
           | |- preserves _ (modify_dom (removeAttribute _ _)) => apply Hrm; discriminate
           | |- preserves _ (modify _) => by intros ? ?
           | |- _ => field_step
           end.
Qed.

(** X11. Opening and closing a panel that dismounts puts the node
    back. For a closed panel of a class that dismounts, with the node
    [n] under a parent [p] in the document and [body] not inside the
    node, [open] (default avatar) returns: the panel is open with
    [open="true"], dismounted, and the node is a child of [body]. A
    [close] after that, also one that comes before the pointerup listener
    is registered and so ends in an exception, leaves the panel closed
    and not dismounted, the node without [open] attribute and with the
    [style] attribute it had at first, under its parent again, and every
    node of the original tree with the parent and the children it had. *)
Theorem open_close_dismounting (w : World) (params : option IDismountingParams)
    (p : nat) :
  let d := dom w in
  let n := node (this w) in
  isDismountingNeeded cls = true -> state (this w) = Closed ->
  dom_wf d -> parentNode d !! n = Some p ->
  contains d (documentElement d) p = true -> contains d n (body d) = false ->
  param_avatar (default (mkParams None None None) params) = None ->
  exists w1, Panel.open cls browser params w = (w1, Ret tt) /\
    panel_shows Open n (Some "true") w1 /\
    parentNode (dom w1) !! n = Some (body d) /\
    _isDismounted (this w1) = Some true /\
    let w2 := (Panel.close cls w1).1 in
    panel_shows Closed n None w2 /\ _isDismounted (this w2) = Some false /\
    getAttribute (dom w2) n "style" = getAttribute d n "style" /\
    (forall z, (z < next_node d)%nat ->
       parentNode (dom w2) !! z = parentNode d !! z /\
       children_of (dom w2) z = children_of d z).
Proof.
  intros d n Hdis Hclosed Hwf Hp Hatt Hbody Havatar.
  assert (Hin : n ∈ children_of d p).
  { destruct Hwf as (_ & (Hlinked & _) & _). by apply (Hlinked n p). }
  apply list_elem_of_split in Hin as (l1 & l2 & Hkids).
  destruct (dismount_run browser w _ p l1 l2 Hwf Hp Hkids Hatt Hbody Havatar)
    as (wd & Hdismount & HD & Hls & Hd).
  fold d n in HD.
  assert (Hsd : state (this wd) = Closed).
  { by apply (preserves_run _ _ w wd (Ret tt) (dismount_keeps_state _ Closed) Hdismount). }
  assert (Hnd : node (this wd) = n) by (by destruct HD as (_ & ? & _)).
  destruct (open_after_dismount n wd wd) as ([] & w1 & Htail & Hsk1 & Hshows1);
    [by split|].
  assert (Hopen : Panel.open cls browser params w = (w1, Ret tt)).
  { unfold Panel.open, Panel.isOpen.
    cbv [mbind M_bind get mret M_ret]. rewrite Hclosed, Hdis.
    rewrite bool_decide_eq_false_2 by discriminate. cbn [when].
    rewrite Hdismount. exact Htail. }
  destruct (dismounting_skeleton _ _ _ _ _ _ _ _ wd w1 Hsk1 (conj HD Hls)) as [HD1 Hls1].
  assert (Hd1 : _isDismounted (this w1) = Some true).
  { injection Hsk1 as _ _ _ _ _ _ _ _ Hd1 _. congruence. }
  exists w1. split; [exact Hopen|]. split; [exact Hshows1|].
  split; [by destruct HD1 as ((_ & _ & _ & ? & _) & _)|].
  split; [exact Hd1|].
  intros w2.
  destruct Hshows1 as (Hs1 & Hn1 & _).
  assert (Hsaved1 : saved_style_only w1).
  { intros saved Hsaved. destruct HD1 as (_ & _ & _ & Ho). rewrite Ho in Hsaved.
    injection Hsaved as <-. by repeat constructor. }
  split; [unfold w2; rewrite <- Hn1; by apply close_leaves_closed|].
  set (wc := set_dom (removeAttribute (node (this w1)) "open" (dom w1))
               (set_this (set_state Closed (this w1)) w1)).
  destruct (dismounting_skeleton _ _ _ _ _ _ _ _ w1 wc eq_refl (conj HD1 Hls1)) as [HDc Hlsc].
  destruct (mount_run wc d n p l1 l2 _ Hwf Hp Hkids Hatt HDc Hlsc)
    as (wm & Hmount & Hstage & Hstyle & Hnm & _ & Hdm).
  assert (Hclose : w2 = ((Panel.removeOverflowingAttributes ;;
                          when (onClose cls) (Panel.call_hook "onClose") ;;
                          Panel.removeListeners LISTENER_NAMESPACES.OPENING) wm).1).
  { unfold w2. rewrite (close_open cls w1 Hs1), Hd1.
    rewrite bool_decide_eq_true_2 by reflexivity. cbn [when].
    fold wc. by rewrite run_bind, Hmount. }
  clearbody w2. subst w2.
  pose proof (close_after_mount n (getAttribute d n "style") _ wm (conj eq_refl Hstyle))
    as [Hsk2 Hstyle2].
  set (w2 := (_ wm).1) in *.
  injection Hsk2 as Hpm Hcm HN Hr Hb _ Hd2.
  split; [congruence|]. split; [exact Hstyle2|].
  apply (stage_same_structure d n p _ _ _ _ (dom wm) (dom w2)) in Hstage; try done.
  destruct Hstage as (_ & _ & _ & Hpn2 & _ & HLp2 & HLb2 & Hpar2 & Hch2).
  intros z Hz. split.
  - destruct (decide (z = n)) as [->|Hzn]; [by rewrite Hpn2|by apply Hpar2].
  - destruct (decide (z = p)) as [->|Hzp]; [by rewrite HLp2|].
    destruct (decide (z = body d)) as [->|Hzb]; [exact HLb2|by apply Hch2].
Qed.

End DismountingCycle.

(** X11 on the small page, with a class that dismounts. *)
Lemma open_close_dismounting_example :
  exists w1, Panel.open dismounting_class example_browser None example_world = (w1, Ret tt) /\
    parentNode (dom w1) !! 3%nat = Some 1%nat /\
    let w2 := (Panel.close dismounting_class w1).1 in
    state (this w2) = Closed /\
    parentNode (dom w2) !! 3%nat = Some 2%nat /\
    children_of (dom w2) 2 = [3; 4]%nat /\
    getAttribute (dom w2) 3 "style" = Some "color: red".
Proof.
  destruct (open_close_dismounting dismounting_class example_browser example_world None 2)
    as (w1 & Hopen & _ & Hbody & _ & (Hs & _) & _ & Hstyle & Htree).
  - reflexivity.
  - reflexivity.
  - apply (bool_decide_unpack (dom_wf (dom example_world))). vm_compute. exact I.
  - reflexivity.
  - vm_compute. reflexivity.
  - vm_compute. reflexivity.
  - reflexivity.
  - exists w1. split; [exact Hopen|]. split; [exact Hbody|].
    intros w2. split; [exact Hs|].
    destruct (Htree 3%nat) as [Hp3 _]; [simpl; lia|].
    destruct (Htree 2%nat) as [_ Hc2]; [simpl; lia|].
    split; [exact Hp3|]. split; [exact Hc2|exact Hstyle].
Defined.

(** ** The panel: a whole cycle leaves no binding behind *)

Lemma filter_all {A} (P : A -> Prop) `{forall x, Decision (P x)} (l : list A) :
  Forall P l -> filter P l = l.
Proof.
  induction 1 as [|x l Hx _ IH]; [reflexivity|].
  rewrite filter_cons_True by exact Hx. by rewrite IH.
Qed.

Lemma filter_none {A} (P : A -> Prop) `{forall x, Decision (P x)} (l : list A) :
  Forall (fun x => ~ P x) l -> filter P l = [].
Proof.
  induction 1 as [|x l Hx _ IH]; [reflexivity|].
  by rewrite filter_cons_False.
Qed.

Lemma forEach_unbind_run (arr : list nat) (w : World) :
  forEach Panel.unbind arr w
  = (set_bound (filter (λ b, b.1 ∉ arr) (bound w)) w, Ret tt).
Proof.
  revert w. induction arr as [|l arr IH]; intros w.
  - simpl. rewrite filter_all; [by destruct w|].
    apply Forall_forall. intros b _. apply not_elem_of_nil.
  - simpl. rewrite run_bind. unfold Panel.unbind at 1, modify.
    rewrite IH. cbn [bound set_bound]. f_equal.
    rewrite list_filter_filter.
    replace (filter (λ b : nat * Listener, b.1 ∉ l :: arr) (bound w))
      with (filter (λ b : nat * Listener, (b.1 ∉ arr) /\ (b.1 ≠ l)) (bound w));
      [by destruct w|].
    apply list_filter_iff. intros b. rewrite not_elem_of_cons. tauto.
Qed.

Section Cycle.
Variable cls : PanelClass.
Variable browser : Browser.

Lemma bindings_this X (f : PanelComponent -> PanelComponent) :
  (forall p, (_listeners (f p), _isDismounted (f p), state (f p), node (f p))
             = (_listeners p, _isDismounted p, state p, node p)) ->
  preserves (fun w => bindings w = X) (modify_this f).
Proof.
  intros Hf w Hw. unfold bindings in *. cbn.
  specialize (Hf (this w)). injection Hf as -> -> -> ->. exact Hw.
Qed.

Lemma setOverflowingAttributes_bindings X :
  preserves (fun w => bindings w = X) (Panel.setOverflowingAttributes browser).
Proof.
  unfold Panel.setOverflowingAttributes, Panel.getWidth, Panel.getHeight,
    Panel.record_overflowing.
  repeat first
    [ apply bindings_this; intros p; by destruct (overflowing p)
    | field_step ].
Qed.

Lemma removeOverflowingAttributes_bindings X :
  preserves (fun w => bindings w = X) Panel.removeOverflowingAttributes.
Proof. unfold Panel.removeOverflowingAttributes. repeat field_step. Qed.

Lemma run_seq (m : M unit) {B} (f : unit -> M B) (w : World) :
  returns m -> (m ≫= f) w = f tt (m w).1.
Proof. intros Hm. rewrite run_bind, (returns_unit m w Hm). reflexivity. Qed.

(** [open] of a class that does not dismount, on a closed panel: it
    returns, the panel is open, and one callback more is pending. *)
Lemma open_plain_run (params : option IDismountingParams) (w : World) :
  isDismountingNeeded cls = false -> state (this w) = Closed ->
  exists w1, Panel.open cls browser params w = (w1, Ret tt) /\
    bindings w1 = (bound w, next_listener w,
                   timers w ++ [if postponeOverflowCalculating cls then TaskResumeOpen
                                else TaskListenOpening],
                   _listeners (this w), _isDismounted (this w), Open, node (this w)).
Proof.
  intros Hdis Hclosed. unfold Panel.open, Panel.isOpen.
  cbv [mbind M_bind get mret M_ret]. rewrite Hclosed, Hdis.
  rewrite bool_decide_eq_false_2 by discriminate.
  cbv [when modify_this modify modify_dom mret M_ret].
  set (w0 := set_dom _ _).
  assert (H0 : bindings w0 = (bound w, next_listener w, timers w,
                              _listeners (this w), _isDismounted (this w), Open,
                              node (this w))) by reflexivity.
  clearbody w0.
  set (wh := (if onOpen cls then Panel.call_hook "onOpen" else fun w => (w, Ret tt)) w0).
  assert (Hh : exists w', wh = (w', Ret tt) /\ bindings w' = bindings w0).
  { unfold wh. destruct (onOpen cls); eexists; split; reflexivity. }
  destruct Hh as (w' & -> & Hw'). rewrite H0 in Hw'. clear H0 w0.
  destruct (postponeOverflowCalculating cls).
  - eexists. split; [reflexivity|]. unfold bindings in *. cbn.
    injection Hw' as E1 E2 E3 E4 E5 E6 E7. by rewrite E1, E2, E3, E4, E5, E6, E7.
  - unfold Panel.open_rest.
    fold (mbind (M := M) (fun _ : unit => Panel.setTimeout TaskListenOpening)
            (Panel.setOverflowingAttributes browser)).
    rewrite run_seq by apply setOverflowingAttributes_returns.
    pose proof (setOverflowingAttributes_bindings _ w' Hw') as Hs.
    eexists. split; [reflexivity|]. unfold bindings in *. cbn.
    injection Hs as E1 E2 E3 E4 E5 E6 E7. by rewrite E1, E2, E3, E4, E5, E6, E7.
Qed.

(** The callbacks [open] left, run until none is pending: the pointerup
    listener is bound under the next free number. *)
Lemma timers_run (w1 : World) (B : list (nat * Listener)) (L : nat)
    (ls : option (gmap string (list nat))) (dis : option bool) (n : nat) :
  bindings w1 = (B, L, [if postponeOverflowCalculating cls then TaskResumeOpen
                        else TaskListenOpening], ls, dis, Open, n) ->
  let w2 := Panel.runTimer browser (Panel.runTimer browser w1) in
  bindings w2 =
    (B ++ [(L, mkListener (TargetElement (documentElement (dom w2))) "pointerup"
                 OpeningPointerUp false)],
     S L, [],
     Some (<[LISTENER_NAMESPACES.OPENING :=
               default [] (default ∅ ls !! LISTENER_NAMESPACES.OPENING) ++ [L]]>
             (default ∅ ls)),
     dis, Open, n).
Proof.
  assert (Hlisten : forall w : World,
            bindings w = (B, L, [TaskListenOpening], ls, dis, Open, n) ->
            let w' := Panel.runTimer browser w in
            documentElement (dom w') = documentElement (dom w) /\
            bindings w' =
              (B ++ [(L, mkListener (TargetElement (documentElement (dom w))) "pointerup"
                           OpeningPointerUp false)],
               S L, [],
               Some (<[LISTENER_NAMESPACES.OPENING :=
                         default [] (default ∅ ls !! LISTENER_NAMESPACES.OPENING) ++ [L]]>
                       (default ∅ ls)),
               dis, Open, n)).
  { intros w Hw. unfold bindings in Hw. injection Hw as HB HL HT Hls Hd Hs Hn.
    unfold Panel.runTimer. rewrite HT.
    unfold Panel.run_task, Panel.addListener, Panel.listen.
    cbv [mbind M_bind get modify_this modify]. simpl.
    split; [by repeat case_match|].
    unfold bindings. simpl. rewrite HB, HL.
    destruct ls as [ls0|];
      [destruct (ls0 !! LISTENER_NAMESPACES.OPENING) as [arr|] eqn:Harr|];
      repeat (first [ rewrite Hls | rewrite Harr | rewrite lookup_empty
                    | rewrite lookup_insert_eq | rewrite insert_insert_eq ]; simpl);
      by rewrite ?Hd, ?Hs, ?Hn. }
  intros Hw1. destruct (postponeOverflowCalculating cls).
  - assert (Hresume : bindings (Panel.runTimer browser w1)
                      = (B, L, [TaskListenOpening], ls, dis, Open, n)).
    { unfold bindings in Hw1. injection Hw1 as HB HL HT Hls Hd Hs Hn.
      unfold Panel.runTimer. rewrite HT. unfold Panel.run_task, Panel.open_rest.
      rewrite run_seq by apply setOverflowingAttributes_returns.
      pose proof (setOverflowingAttributes_bindings
                    (B, L, [], ls, dis, Open, n) (set_timers [] w1)) as Hs'.
      unfold bindings in Hs'. cbn in Hs'. rewrite HB, HL, Hls, Hd, Hs, Hn in Hs'.
      specialize (Hs' eq_refl). unfold bindings. cbn.
      injection Hs' as E1 E2 E3 E4 E5 E6 E7. by rewrite E1, E2, E3, E4, E5, E6, E7. }
    destruct (Hlisten _ Hresume) as [Hroot Hb]. intros w2. subst w2.
    rewrite Hroot. exact Hb.
  - destruct (Hlisten _ Hw1) as [Hroot Hb].
    intros w2. subst w2.
    assert (Hnone : timers (Panel.runTimer browser w1) = []).
    { unfold bindings in Hb. by injection Hb as _ _ -> _. }
    assert (Heq : Panel.runTimer browser (Panel.runTimer browser w1)
                  = Panel.runTimer browser w1).
    { unfold Panel.runTimer at 1. by rewrite Hnone. }
    rewrite Heq, Hroot. exact Hb.
Qed.

(** X16. A whole cycle leaves no binding behind. For a class that does
    not dismount and a closed panel at rest (nothing pending, none of
    the listeners it keeps bound): [open] returns; once the callbacks it
    left have run the panel is open and its pointerup listener is bound;
    [close] then returns, the bindings in force are those from before
    [open], and the panel is at rest again, so the same holds of the next
    cycle. *)
Theorem cycle_leaves_no_binding (params : option IDismountingParams) (w : World) :
  isDismountingNeeded cls = false -> at_rest w ->
  exists w1 w3,
    Panel.open cls browser params w = (w1, Ret tt) /\
    let w2 := Panel.runTimer browser (Panel.runTimer browser w1) in
    state (this w2) = Open /\ length (bound w2) = S (length (bound w)) /\
    Panel.close cls w2 = (w3, Ret tt) /\
    bound w3 = bound w /\ at_rest w3.
Proof.
  intros Hdis (Hclosed & Htimers & Hnd & Hnum & Hkept).
  destruct (open_plain_run params w Hdis Hclosed) as (w1 & Hopen & Hw1).
  rewrite Htimers in Hw1. cbn [app] in Hw1.
  exists w1. pose proof (timers_run w1 _ _ _ _ _ Hw1) as Hw2. cbv zeta in Hw2.
  set (w2 := Panel.runTimer browser (Panel.runTimer browser w1)) in *.
  set (l := mkListener (TargetElement (documentElement (dom w2))) "pointerup"
              OpeningPointerUp false) in *.
  set (ls0 := default ∅ (_listeners (this w))) in *.
  set (arr := default [] (ls0 !! LISTENER_NAMESPACES.OPENING) ++ [next_listener w]) in *.
  unfold bindings in Hw2. injection Hw2 as HB2 HL2 HT2 Hls2 Hd2 Hs2 Hn2.
  assert (Hold : forall namespace arr' l',
            ls0 !! namespace = Some arr' -> l' ∈ arr' ->
            (l' ∉ (bound w).*1) /\ (l' < next_listener w)%nat).
  { intros namespace arr' l' Harr Hin. unfold ls0 in Harr.
    destruct (_listeners (this w)) as [ls|] eqn:Hls; simpl in Harr.
    - by apply (Hkept ls namespace arr' l' eq_refl).
    - by rewrite lookup_empty in Harr. }
  assert (Hopening : forall l', l' ∈ default [] (ls0 !! LISTENER_NAMESPACES.OPENING) ->
            (l' ∉ (bound w).*1) /\ (l' < next_listener w)%nat).
  { intros l' Hin. destruct (ls0 !! LISTENER_NAMESPACES.OPENING) as [arr0|] eqn:Harr.
    - by apply (Hold LISTENER_NAMESPACES.OPENING arr0).
    - by apply elem_of_nil in Hin. }
  (* the steps of [close] *)
  assert (Hclose : exists w3, Panel.close cls w2 = (w3, Ret tt) /\
            bindings w3 = (filter (λ b, b.1 ∉ arr) (bound w2), S (next_listener w), [],
                           _listeners (this w2), _isDismounted (this w), Closed,
                           node (this w))).
  { rewrite (close_open cls w2 Hs2), Hd2.
    rewrite bool_decide_eq_false_2 by exact Hnd. cbn [when].
    set (wa := set_dom _ _).
    assert (Ha : bindings wa = (bound w2, S (next_listener w), [], _listeners (this w2),
                                _isDismounted (this w), Closed, node (this w))).
    { unfold bindings, wa. cbn. by rewrite HL2, HT2, Hd2, Hn2. }
    clearbody wa.
    rewrite run_bind. cbn [mret M_ret].
    rewrite run_seq by apply removeOverflowingAttributes_returns.
    apply removeOverflowingAttributes_bindings in Ha.
    set (wb := (Panel.removeOverflowingAttributes wa).1) in *. clearbody wb.
    assert (Hc : exists wc, (when (onClose cls) (Panel.call_hook "onClose")) wb = (wc, Ret tt)
                            /\ bindings wc = bindings wb).
    { destruct (onClose cls); eexists; split; reflexivity. }
    destruct Hc as (wc & Hrun & Hc). rewrite Ha in Hc.
    rewrite run_bind, Hrun.
    unfold bindings in Hc. injection Hc as HBc HLc HTc Hlsc Hdc Hsc Hnc.
    rewrite (removeListeners_run LISTENER_NAMESPACES.OPENING wc
               (<[LISTENER_NAMESPACES.OPENING := arr]> ls0) arr);
      [|by rewrite Hlsc, Hls2|by rewrite lookup_insert_eq].
    rewrite forEach_unbind_run. eexists. split; [reflexivity|].
    unfold bindings. cbn. by rewrite HBc, HLc, HTc, Hlsc, Hdc, Hsc, Hnc. }
  destruct Hclose as (w3 & Hclose & Hw3). exists w3.
  split; [exact Hopen|]. cbv zeta. fold w2.
  split; [exact Hs2|].
  split; [rewrite HB2, length_app; simpl; lia|].
  split; [exact Hclose|].
  unfold bindings in Hw3. injection Hw3 as HB3 HL3 HT3 Hls3 Hd3 Hs3 Hn3.
  assert (Hbound : bound w3 = bound w).
  { rewrite HB3, HB2, filter_app.
    rewrite filter_all, filter_none; [apply app_nil_r| |].
    - apply Forall_singleton. intros Hl. apply Hl. unfold arr. simpl.
      apply elem_of_app. right. by left.
    - apply Forall_forall. intros b Hb Hin. unfold arr in Hin.
      apply elem_of_app in Hin as [Hin|Hin].
      + destruct (Hopening _ Hin) as [Hnot _].
        apply Hnot, list_elem_of_fmap. by exists b.
      + apply list_elem_of_singleton in Hin. apply Hnum in Hb. lia. }
  split; [exact Hbound|].
  split; [exact Hs3|]. split; [exact HT3|]. split; [by rewrite Hd3|].
  rewrite Hbound, HL3. split.
  - intros b Hb. apply Hnum in Hb. lia.
  - intros ls namespace arr' l' Hls Harr Hin.
    rewrite Hls3, Hls2 in Hls. injection Hls as <-.
    destruct (decide (namespace = LISTENER_NAMESPACES.OPENING)) as [->|Hns].
    + rewrite lookup_insert_eq in Harr. injection Harr as <-.
      unfold arr in Hin. apply elem_of_app in Hin as [Hin|Hin].
      * destruct (Hopening _ Hin) as [Hnot Hlt]. split; [exact Hnot|lia].
      * apply list_elem_of_singleton in Hin as ->. split; [|lia].
        intros Hin. apply list_elem_of_fmap in Hin as (b & Hb1 & Hb).
        apply Hnum in Hb. lia.
    + rewrite lookup_insert_ne in Harr by done.
      destruct (Hold _ _ _ Harr Hin) as [Hnot Hlt]. split; [exact Hnot|lia].
Qed.

End Cycle.

(** X16 on the small page: the plain panel, opened, the callback run,
    closed. *)
Lemma cycle_leaves_no_binding_example :
  exists w1 w3,
    Panel.open base_class example_browser None example_world = (w1, Ret tt) /\
    Panel.close base_class
      (Panel.runTimer example_browser (Panel.runTimer example_browser w1)) = (w3, Ret tt) /\
    bound w3 = [].
Proof.
  destruct (cycle_leaves_no_binding base_class example_browser None example_world)
    as (w1 & w3 & Hopen & _ & _ & Hclose & Hbound & _).
  - reflexivity.
  - split; [reflexivity|]. split; [reflexivity|]. split; [discriminate|].
    split; [by intros b ?%elem_of_nil|]. intros ls namespace arr l Hls. discriminate Hls.
  - by exists w1, w3.
Defined.

(** ** parseQueryString on text that needs no escaping *)

Lemma append_cons (c : ascii) (s t : string) : String c s +:+ t = String c (s +:+ t).
Proof. reflexivity. Qed.

Lemma append_nil_l (t : string) : "" +:+ t = t.
Proof. reflexivity. Qed.

Lemma append_nil_r (s : string) : s +:+ "" = s.
Proof. induction s as [|c s IH]; [reflexivity|]. by rewrite append_cons, IH. Qed.

Lemma append_assoc (s1 s2 s3 : string) : (s1 +:+ s2) +:+ s3 = s1 +:+ s2 +:+ s3.
Proof. induction s1 as [|c s1 IH]; [reflexivity|]. by rewrite !append_cons, IH. Qed.

Lemma lacks_append (c : ascii) (s1 s2 : string) :
  lacks c (s1 +:+ s2) = lacks c s1 && lacks c s2.
Proof.
  induction s1 as [|c' s1 IH]; [reflexivity|].
  rewrite append_cons. cbn [lacks]. rewrite IH. by rewrite andb_assoc.
Qed.

(** A piece without separator is not cut. *)
Lemma split_go_lacks (sep : ascii) (piece s : string) :
  lacks sep s = true -> split_go sep piece s = [piece +:+ s].
Proof.
  revert piece. induction s as [|c s IH]; intros piece Hs; cbn [lacks split_go] in *.
  - by rewrite append_nil_r.
  - apply andb_true_iff in Hs as [Hc Hs]. apply negb_true_iff in Hc. rewrite Hc.
    rewrite IH by exact Hs. by rewrite append_assoc.
Qed.

(** The first separator ends the first piece. *)
Lemma split_go_separator (sep : ascii) (piece s1 s2 : string) :
  lacks sep s1 = true ->
  split_go sep piece (s1 +:+ String sep s2) = (piece +:+ s1) :: split_go sep "" s2.
Proof.
  revert piece. induction s1 as [|c s1 IH]; intros piece Hs.
  - rewrite append_nil_l. cbn [split_go]. by rewrite Ascii.eqb_refl, append_nil_r.
  - rewrite append_cons. cbn [lacks split_go] in *.
    apply andb_true_iff in Hs as [Hc Hs]. apply negb_true_iff in Hc. rewrite Hc.
    rewrite IH by exact Hs. by rewrite append_assoc.
Qed.

(** Splitting what was joined gives the pieces back. *)
Lemma split_join (sep : ascii) (pieces : list string) :
  pieces <> [] -> Forall (fun s => lacks sep s = true) pieces ->
  split sep (join (String sep "") pieces) = pieces.
Proof.
  unfold split. induction pieces as [|x rest IH]; [done|].
  intros _ Hall. apply Forall_cons in Hall as [Hx Hrest].
  destruct rest as [|y rest].
  - cbn [join]. by rewrite split_go_lacks.
  - change (join (String sep "") (x :: y :: rest))
      with (x +:+ String sep (join (String sep "") (y :: rest))).
    rewrite split_go_separator by exact Hx. rewrite append_nil_l. f_equal.
    by apply IH.
Qed.

(** Decoding leaves text without percent sign as it is. *)
Lemma decode_go_lacks (lo hi : N) (s : string) :
  lacks "%" s = true -> decode_go 0 lo hi s = Ret s.
Proof.
  revert lo hi. induction s as [|c s IH]; intros lo hi Hs; [reflexivity|].
  cbn [lacks] in Hs. apply andb_true_iff in Hs as [Hc Hs]. apply negb_true_iff in Hc.
  assert (Hstep : decode_go 0 lo hi (String c s)
                  = push_byte (N_of_ascii c) (decode_go 0 128 191 s)).
  { destruct c as [[] [] [] [] [] [] [] []]; try reflexivity. discriminate Hc. }
  rewrite Hstep, IH by exact Hs. unfold push_byte. cbn.
  by rewrite ascii_N_embedding.
Qed.

Lemma decodeURIComponent_plain (s : string) :
  lacks "%" s = true -> decodeURIComponent s = Ret s.
Proof. apply decode_go_lacks. Qed.

Lemma plain_lacks (s : string) :
  plain s = true -> lacks "&" s = true /\ lacks "=" s = true /\ lacks "%" s = true.
Proof.
  unfold plain. intros Hs. apply andb_true_iff in Hs as [Hs Hp].
  apply andb_true_iff in Hs as [Ha He]. by repeat split.
Qed.

Lemma variable_lacks (kv : string * option string) :
  readable kv -> lacks "&" (variable kv) = true.
Proof.
  intros (Hk & _ & Hv). apply plain_lacks in Hk as (Hk & _).
  unfold variable. destruct kv as [k [v|]]; cbn [fst snd] in *; [|exact Hk].
  apply plain_lacks in Hv as (Hv & _). rewrite lacks_append, Hk.
  rewrite append_cons, append_nil_l. cbn [lacks andb]. exact Hv.
Qed.

Lemma split_variable (kv : string * option string) :
  readable kv ->
  split "=" (variable kv) = kv.1 :: match kv.2 with Some v => [v] | None => [] end.
Proof.
  intros (Hk & _ & Hv). apply plain_lacks in Hk as (_ & Hk & _).
  unfold variable, split. destruct kv as [k [v|]]; cbn [fst snd] in *.
  - apply plain_lacks in Hv as (_ & Hv & _).
    rewrite append_cons, append_nil_l.
    rewrite split_go_separator by exact Hk. by rewrite split_go_lacks.
  - by rewrite split_go_lacks.
Qed.

(** Keys in [q] are keys [{}] does not inherit, so a key that is not in
    [q] has type [undefined]. *)
Lemma parse_var_readable (q : gmap string QueryValue) (kv : string * option string) :
  readable kv -> parse_var q (variable kv) = Ret (record_variable q kv).
Proof.
  intros Hkv. pose proof Hkv as (Hk & Hown & Hv).
  unfold parse_var. cbv zeta. rewrite (split_variable kv Hkv).
  set (rest := match kv.2 with Some v => [v] | None => [] end).
  replace (default EmptyString ((kv.1 :: rest) !! 0%nat)) with kv.1 by reflexivity.
  replace (default "undefined" ((kv.1 :: rest) !! 1%nat)) with (default "undefined" kv.2)
    by (unfold rest; by destruct (kv.2)).
  apply plain_lacks in Hk as (_ & _ & Hk).
  assert (Hvalue : decodeURIComponent (default "undefined" kv.2)
                   = Ret (default "undefined" kv.2)).
  { destruct (kv.2) as [v|]; [|reflexivity].
    apply plain_lacks in Hv as (_ & _ & Hv). by apply decodeURIComponent_plain. }
  rewrite (decodeURIComponent_plain _ Hk). cbn [mbind outcome_bind].
  rewrite Hvalue. cbn [mbind outcome_bind]. rewrite Hvalue. cbn [mbind outcome_bind].
  unfold record_variable, typeof_member.
  destruct (q !! kv.1) as [[old|items]|] eqn:Hq; [reflexivity..|].
  unfold own_key in Hown. by rewrite Hown.
Qed.

Lemma parse_vars_readable (q : gmap string QueryValue)
    (kvs : list (string * option string)) :
  Forall readable kvs ->
  parse_vars q (variable <$> kvs) = Ret (foldl record_variable q kvs).
Proof.
  revert q. induction kvs as [|kv kvs IH]; intros q Hall; [reflexivity|].
  apply Forall_cons in Hall as [Hkv Hall]. simpl.
  rewrite (parse_var_readable q kv Hkv). cbn [mbind outcome_bind]. by apply IH.
Qed.

(** X12. On text that needs no escaping the parser reads a query
    string as it is written. For variables joined by [&], each [key=value]
    or [key] alone, with keys and values free of [&], [=] and [%] and no
    key naming a member of [Object.prototype]: the result holds, for
    every key, its value as a string when the key occurs once, and the
    array of its values in order when it occurs more often; a variable
    without [=] has the value ["undefined"]. The empty query string gives
    the key [""] with that value. *)
Theorem parseQueryString_plain (kvs : list (string * option string)) :
  (kvs <> [] -> Forall readable kvs ->
   parseQueryString (join "&" (variable <$> kvs))
   = Ret (foldl record_variable ∅ kvs)) /\
  parseQueryString "" = Ret {[ "" := QString "undefined" ]}.
Proof.
  split; [|reflexivity].
  intros Hne Hall. unfold parseQueryString.
  rewrite split_join.
  - by apply parse_vars_readable.
  - by destruct kvs.
  - apply Forall_fmap. eapply Forall_impl; [exact Hall|]. apply variable_lacks.
Qed.

(** X12 on a query with a repeated key and a key without value. *)
Lemma parseQueryString_plain_example :
  parseQueryString "a=1&b=2&a=3&c"
  = Ret (<["c" := QString "undefined"]>
           (<["a" := QArray ["1"; "3"]]> (<["b" := QString "2"]> {[ "a" := QString "1" ]}))).
Proof.
  destruct (parseQueryString_plain
              [("a", Some "1"); ("b", Some "2"); ("a", Some "3"); ("c", None)])
    as [Hparse _].
  apply Hparse; [discriminate|].
  repeat (apply Forall_cons; split; [by repeat split|]). constructor.
Defined.

(** ** DOMService: a temporary element leaves the tree as it was *)

(** In a bounded store a node from [next_node] on has no parent, is no
    child and no parent. *)
Lemma fresh_parentNode (d : Dom) (n : nat) :
  dom_bounded d -> (next_node d <= n)%nat -> parentNode d !! n = None.
Proof.
  intros (Hpar & _) Hn. destruct (parentNode d !! n) as [q|] eqn:Hq; [|reflexivity].
  apply Hpar in Hq as [Hlt _]. lia.
Qed.

Lemma fresh_not_parent (d : Dom) (n c : nat) :
  dom_bounded d -> (next_node d <= n)%nat -> parentNode d !! c <> Some n.
Proof. intros (Hpar & _) Hn Hc. apply Hpar in Hc as [_ Hlt]. lia. Qed.

Lemma fresh_children_of (d : Dom) (n : nat) :
  dom_bounded d -> (next_node d <= n)%nat -> childNodes d !! n = None.
Proof.
  intros (_ & Hkids & _) Hn.
  destruct (childNodes d !! n) as [l|] eqn:Hl; [|reflexivity].
  apply Hkids in Hl as [Hlt _]. lia.
Qed.

Lemma fresh_not_child (d : Dom) (n p : nat) :
  dom_bounded d -> (next_node d <= n)%nat -> n ∉ children_of d p.
Proof.
  intros (_ & Hkids & _) Hn Hin. unfold children_of in Hin.
  destruct (childNodes d !! p) as [l|] eqn:Hl; [|by apply elem_of_nil in Hin].
  apply Hkids in Hl as [_ Hall]. eapply Forall_forall in Hall; [|exact Hin]. lia.
Qed.

(** A node that is nobody's parent is above no other node. *)
Lemma contains_no_parent (d : Dom) (x b : nat) :
  x <> b -> (forall c, parentNode d !! c <> Some x) -> contains d x b = false.
Proof.
  intros Hxb Hno. unfold contains. apply bool_decide_eq_false_2.
  generalize (next_node d). intros fuel. revert b Hxb.
  induction fuel as [|fuel IH]; intros b Hxb Hin; simpl in Hin.
  - by apply list_elem_of_singleton in Hin.
  - apply elem_of_cons in Hin as [->|Hin]; [done|].
    destruct (parentNode d !! b) as [q|] eqn:Hq; [|by apply elem_of_nil in Hin].
    apply (IH q); [|exact Hin]. intros ->. by apply (Hno b).
Qed.

(** Appending a node that has no parent. *)
Lemma appendChild_parentless (d : Dom) (parent e : nat) :
  contains d e parent = false -> parentNode d !! e = None ->
  appendChild parent e d =
  Ret (mkDom (<[e := parent]> (parentNode d))
         (<[parent := children_of d parent ++ [e]]> (childNodes d))
         (attributes d) (next_node d) (documentElement d) (body d)).
Proof.
  intros Hc Hp. unfold appendChild, insertBefore. rewrite Hc.
  rewrite decide_False by discriminate.
  unfold detach. rewrite Hp.
  by rewrite insert_before_end by discriminate.
Qed.

(** Removing the last child. *)
Lemma removeChild_last (d : Dom) (parent e : nat) (l : list nat) :
  parentNode d !! e = Some parent -> children_of d parent = l ++ [e] -> e ∉ l ->
  removeChild parent e d =
  Ret (mkDom (delete e (parentNode d)) (<[parent := l]> (childNodes d))
         (attributes d) (next_node d) (documentElement d) (body d)).
Proof.
  intros Hp Hkids He. unfold removeChild. rewrite bool_decide_eq_true_2 by exact Hp.
  unfold detach. rewrite Hp, Hkids.
  rewrite filter_app, filter_absent by exact He.
  rewrite filter_cons_False by (intros Hne; by apply Hne).
  by rewrite filter_nil, app_nil_r.
Qed.

Lemma shape_attributes (d0 : Dom) pm cm N (d : Dom) (n : nat) (a : gmap string string) :
  (next_node d0 <= n)%nat -> shape d0 pm cm N d ->
  shape d0 pm cm N (set_attributes (<[n := a]>) d).
Proof.
  intros Hn (Hp & Hc & HN & Hr & Hb & Ha). repeat split; try assumption.
  intros z Hz. simpl. rewrite lookup_insert_ne by lia. by apply Ha.
Qed.

Lemma shape_style_assign (browser : Browser) (d0 : Dom) pm cm N (d : Dom) (n : nat)
    (prop value : string) :
  (next_node d0 <= n)%nat -> shape d0 pm cm N d ->
  shape d0 pm cm N (style_assign browser n prop value d).
Proof.
  intros Hn Hd. unfold style_assign.
  destruct (css_set browser prop value _); by apply shape_attributes.
Qed.

Lemma shape_classList_add (d0 : Dom) pm cm N (d : Dom) (n : nat) (token : string) :
  (next_node d0 <= n)%nat -> shape d0 pm cm N d ->
  shape d0 pm cm N (classList_add n token d).
Proof. intros Hn Hd. by apply shape_attributes. Qed.

Lemma shape_createElement (d0 : Dom) pm cm N (d : Dom) (a : gmap string string) :
  (next_node d0 <= N)%nat -> shape d0 pm cm N d ->
  shape d0 pm cm (S N) (createElement a d).1 /\ (createElement a d).2 = N.
Proof.
  intros Hn (Hp & Hc & HN & Hr & Hb & Ha). split; [|exact HN].
  repeat split; try assumption; simpl; [by rewrite HN|].
  intros z Hz. rewrite lookup_insert_ne by lia. by apply Ha.
Qed.

Lemma shape_appendChild (d0 : Dom) pm cm N (d : Dom) (parent e : nat) :
  shape d0 pm cm N d ->
  e <> parent -> (forall c, pm !! c <> Some e) -> pm !! e = None ->
  exists d', appendChild parent e d = Ret d' /\
    shape d0 (<[e := parent]> pm) (<[parent := default [] (cm !! parent) ++ [e]]> cm) N d'.
Proof.
  intros (Hp & Hc & HN & Hr & Hb & Ha) Hne Hno Hpe. subst pm cm.
  eexists. split.
  - apply appendChild_parentless; [by apply contains_no_parent|exact Hpe].
  - by repeat split.
Qed.

Lemma shape_removeChild (d0 : Dom) pm cm N (d : Dom) (parent e : nat) (l : list nat) :
  shape d0 pm cm N d ->
  pm !! e = Some parent -> cm !! parent = Some (l ++ [e]) -> e ∉ l ->
  exists d', removeChild parent e d = Ret d' /\
    shape d0 (delete e pm) (<[parent := l]> cm) N d'.
Proof.
  intros (Hp & Hc & HN & Hr & Hb & Ha) Hpe Hkids He. subst pm cm.
  eexists. split.
  - apply (removeChild_last d parent e l); [exact Hpe| |exact He].
    unfold children_of. by rewrite Hkids.
  - by repeat split.
Qed.

Lemma shape_initial (d : Dom) : shape d (parentNode d) (childNodes d) (next_node d) d.
Proof. by repeat split. Qed.

(** A store whose old nodes have their old parents, children and
    attributes. *)
Lemma shape_same_nodes (d0 : Dom) pm cm N (d : Dom) :
  shape d0 pm cm N d ->
  (forall z, (z < next_node d0)%nat -> pm !! z = parentNode d0 !! z) ->
  (forall z, (z < next_node d0)%nat -> default [] (cm !! z) = children_of d0 z) ->
  same_nodes (next_node d0) d0 d.
Proof.
  intros (Hp & Hc & HN & Hr & Hb & Ha) Hpm Hcm. split; [|by split].
  intros z Hz. split; [rewrite Hp; by apply Hpm|].
  split; [unfold children_of at 1; rewrite Hc; by apply Hcm|].
  unfold attrs_of. by rewrite Ha.
Qed.

Section TemporaryElement.
Variable browser : Browser.

(** X13. [getCSSRuleValue] leaves the tree as it found it. In a store
    whose nodes are numbered below [next_node], the call returns; the
    value is read while the new element, with class [hide] and the class
    asked for, is the last child of [body]; afterwards every node that
    was there has the parent, the children and the attributes it had, and
    the new element has no parent. *)
Theorem getCSSRuleValue_restores {num : Type} (computed : Dom -> nat -> string -> num)
    (cls prop : string) (d : Dom) :
  dom_bounded d ->
  let e := next_node d in
  exists d' dm,
    getCSSRuleValue computed cls prop d = Ret (d', computed dm e prop) /\
    getAttribute dm e "class" = Some ("hide " +:+ cls) /\
    parentNode dm !! e = Some (body d) /\
    children_of dm (body d) = children_of d (body d) ++ [e] /\
    same_nodes (next_node d) d d' /\
    parentNode d' !! e = None /\ next_node d' = S (next_node d).
Proof.
  intros Hbounded e.
  assert (Hbody : (body d < next_node d)%nat) by (by destruct Hbounded as (_ & _ & _ & _ & ?)).
  unfold getCSSRuleValue.
  destruct (shape_createElement d _ _ _ d ∅ (le_n _) (shape_initial d)) as [H1 He].
  destruct (createElement ∅ d) as [d1 e1] eqn:Hcreate. simpl in H1, He. subst e1. fold e.
  assert (H2 := shape_attributes d _ _ _ d1 e (<["class" := "hide " +:+ cls]> (attrs_of d1 e))
                  (le_n _) H1).
  change (set_attributes _ d1) with (setAttribute e "class" ("hide " +:+ cls) d1) in H2.
  set (d2 := setAttribute e "class" ("hide " +:+ cls) d1) in *.
  assert (Hb2 : body d2 = body d) by (by destruct H2 as (_ & _ & _ & _ & ? & _)).
  destruct (shape_appendChild d _ _ _ d2 (body d) e H2) as (d3 & Happend & H3).
  { unfold e. lia. }
  { intros c. by apply fresh_not_parent. }
  { by apply fresh_parentNode. }
  rewrite Hb2, Happend. cbn [mbind outcome_bind].
  assert (Hb3 : body d3 = body d) by (by destruct H3 as (_ & _ & _ & _ & ? & _)).
  destruct (shape_removeChild d _ _ _ d3 (body d) e (children_of d (body d)) H3)
    as (d4 & Hremove & H4).
  { apply lookup_insert_eq. }
  { by rewrite lookup_insert_eq. }
  { by apply fresh_not_child. }
  rewrite Hb3, Hremove. cbn [mbind outcome_bind].
  exists d4, d3. split; [reflexivity|].
  destruct H3 as (Hp3 & Hc3 & _ & _ & _ & _).
  split; [|split; [|split; [|split; [|split]]]].
  - rewrite (getAttribute_attributes d2 d3 e "class"
               (attributes_insertBefore _ _ _ _ _ Happend)).
    apply getAttribute_setAttribute_eq.
  - rewrite Hp3. apply lookup_insert_eq.
  - unfold children_of at 1. rewrite Hc3, lookup_insert_eq. reflexivity.
  - apply (shape_same_nodes _ _ _ _ _ H4).
    + intros z Hz. rewrite lookup_delete_ne, lookup_insert_ne by (unfold e; lia).
      reflexivity.
    + intros z Hz. destruct (decide (z = body d)) as [->|Hzb].
      * by rewrite lookup_insert_eq.
      * by rewrite !lookup_insert_ne.
  - destruct H4 as (-> & _). apply lookup_delete_eq.
  - by destruct H4 as (_ & _ & -> & _).
Qed.

(** X14. [getScrollbarWidth] measures once and leaves the tree as it
    found it. In a store whose nodes are numbered below [next_node], with
    [_SCROLLBAR_WIDTH] still undefined the call returns, stores and
    answers the difference of two measured widths, and afterwards every
    node that was there has the parent, the children and the attributes
    it had; the outer of the two new elements has no parent. With
    [_SCROLLBAR_WIDTH] defined the call answers it and does not touch the
    store, whatever the browser would measure now. *)
Theorem getScrollbarWidth_measures_once (d : Dom) (v : Z) :
  (dom_bounded d ->
   let outer := next_node d in
   let inner := S (next_node d) in
   exists d' dm1 dm2,
     let v' := offsetWidth (layoutOf browser dm1 outer)
               - offsetWidth (layoutOf browser dm2 inner) in
     getScrollbarWidth browser None d = Ret (d', Some v', v') /\
     parentNode dm1 !! outer = Some (body d) /\
     children_of dm1 (body d) = children_of d (body d) ++ [outer] /\
     parentNode dm2 !! inner = Some outer /\ children_of dm2 outer = [inner] /\
     same_nodes (next_node d) d d' /\
     parentNode d' !! outer = None /\
     next_node d' = S (S (next_node d)) /\
     forall browser' d'', getScrollbarWidth browser' (Some v') d'' = Ret (d'', Some v', v')) /\
  getScrollbarWidth browser (Some v) d = Ret (d, Some v, v).
Proof.
  split; [|reflexivity].
  intros Hbounded outer inner. subst outer inner.
  assert (Hbody : (body d < next_node d)%nat) by (by destruct Hbounded as (_ & _ & _ & _ & ?)).
  set (N := next_node d).
  unfold getScrollbarWidth, refreshScrollbarWidth.
  destruct (shape_createElement d _ _ _ d ∅ (le_n _) (shape_initial d)) as [H1 He].
  destruct (createElement ∅ d) as [d1 outer] eqn:Hcreate. simpl in H1, He. subst outer.
  fold N in H1 |- *.
  apply (shape_style_assign browser d _ _ _ _ N "visibility" "hidden" (le_n _)) in H1.
  apply (shape_style_assign browser d _ _ _ _ N "width" "100px" (le_n _)) in H1.
  apply (shape_style_assign browser d _ _ _ _ N "-ms-overflow-style" "scrollbar" (le_n _)) in H1.
  apply (shape_classList_add d _ _ _ _ N "scroll" (le_n _)) in H1.
  set (d2 := classList_add N "scroll" _) in *.
  assert (Hb2 : body d2 = body d) by (by destruct H1 as (_ & _ & _ & _ & ? & _)).
  destruct (shape_appendChild d _ _ _ d2 (body d) N H1) as (d3 & Happend & H3).
  { unfold N. lia. }
  { intros c. by apply fresh_not_parent. }
  { by apply fresh_parentNode. }
  rewrite Hb2. cbn [mbind outcome_bind]. rewrite Happend. cbn [mbind outcome_bind].
  pose proof H3 as (Hp3 & Hc3 & _).
  apply (shape_style_assign browser d _ _ _ _ N "overflow" "scroll" (le_n _)) in H3.
  set (d4 := style_assign browser N "overflow" "scroll" d3) in *.
  destruct (shape_createElement d _ _ _ d4 ∅ (le_S _ _ (le_n _)) H3) as [H5 Hi].
  destruct (createElement ∅ d4) as [d5 inner] eqn:Hcreate2. simpl in H5, Hi. subst inner.
  cbv beta iota. fold N.
  apply (shape_style_assign browser d _ _ _ _ (S N) "width" "100%" (le_S _ _ (le_n _))) in H5.
  set (d6 := style_assign browser (S N) "width" "100%" d5) in *.
  destruct (shape_appendChild d _ _ _ d6 N (S N) H5) as (d7 & Happend2 & H7).
  { lia. }
  { intros c Hc. destruct (decide (c = N)) as [->|Hne].
    - rewrite lookup_insert_eq in Hc. injection Hc as Hc. unfold N in Hc. lia.
    - rewrite lookup_insert_ne in Hc by done. revert Hc. apply fresh_not_parent; [done|].
      unfold N. lia. }
  { rewrite lookup_insert_ne by lia. apply fresh_parentNode; [done|]. unfold N. lia. }
  rewrite Happend2. cbn [mbind outcome_bind].
  pose proof H7 as (Hp7 & Hc7 & _).
  rewrite Hp7, lookup_insert_ne, lookup_insert_eq by lia.
  cbn [outcome_deref mbind outcome_bind].
  destruct (shape_removeChild d _ _ _ d7 (body d) N (children_of d (body d)) H7)
    as (d8 & Hremove & H8).
  { rewrite lookup_insert_ne by lia. apply lookup_insert_eq. }
  { rewrite lookup_insert_ne by (unfold N; lia). by rewrite lookup_insert_eq. }
  { by apply fresh_not_child. }
  rewrite Hremove. cbn [mbind outcome_bind].
  exists d8, d3, d7. cbv zeta. split; [reflexivity|].
  split; [rewrite Hp3; apply lookup_insert_eq|].
  split; [unfold children_of at 1; by rewrite Hc3, lookup_insert_eq|].
  split; [rewrite Hp7; apply lookup_insert_eq|].
  split.
  { unfold children_of. rewrite Hc7, lookup_insert_eq.
    rewrite lookup_insert_ne by (unfold N; lia).
    rewrite fresh_children_of; [reflexivity|done|]. unfold N. lia. }
  split; [|split; [|split]].
  - apply (shape_same_nodes _ _ _ _ _ H8).
    + intros z Hz. fold N in Hz.
      rewrite lookup_delete_ne, !lookup_insert_ne by lia. reflexivity.
    + intros z Hz. fold N in Hz. destruct (decide (z = body d)) as [->|Hzb].
      * by rewrite lookup_insert_eq.
      * rewrite lookup_insert_ne, lookup_insert_ne, lookup_insert_ne by lia. reflexivity.
  - destruct H8 as (-> & _). apply lookup_delete_eq.
  - by destruct H8 as (_ & _ & -> & _).
  - reflexivity.
Qed.

End TemporaryElement.

(** X13 on the small page: while it is measured the new element (6)
    is the last child of [body]; afterwards [body] has the child it had. *)
Lemma getCSSRuleValue_restores_example :
  exists d' dm,
    getCSSRuleValue (fun _ _ _ => 12) "panel" "width" example_dom = Ret (d', 12) /\
    children_of dm 1 = [2; 6]%nat /\ children_of d' 1 = [2]%nat.
Proof.
  destruct (getCSSRuleValue_restores (fun _ _ _ => 12) "panel" "width" example_dom)
    as (d' & dm & Hrun & _ & _ & Hkids & (Hsame & _) & _).
  - apply (bool_decide_unpack (dom_bounded example_dom)). vm_compute. exact I.
  - exists d', dm. split; [exact Hrun|]. split; [exact Hkids|].
    destruct (Hsame 1%nat) as (_ & Hc & _); [simpl; lia|exact Hc].
Defined.

(** X14 on the small page: the first call measures and leaves [body]
    with the child it had; the second call answers the stored value. *)
Lemma getScrollbarWidth_measures_once_example :
  exists d' v', getScrollbarWidth example_browser None example_dom = Ret (d', Some v', v') /\
    children_of d' 1 = [2]%nat /\
    getScrollbarWidth example_browser (Some v') d' = Ret (d', Some v', v').
Proof.
  destruct (getScrollbarWidth_measures_once example_browser example_dom 0)
    as [Hfirst _].
  destruct Hfirst as (d' & dm1 & dm2 & Hrun & _ & _ & _ & _ & (Hsame & _) & _ & _ & Hcached).
  - apply (bool_decide_unpack (dom_bounded example_dom)). vm_compute. exact I.
  - eexists d', _. split; [exact Hrun|].
    split; [destruct (Hsame 1%nat) as (_ & Hc & _); [simpl; lia|exact Hc]|apply Hcached].
Defined.

(** ** DOMService: full screen *)


